(** * zModel mesh kernel: a shallow embedding and its checked properties

    The development follows the TypeScript sources of the modeler:
    the picking kernel (raycast), the modifiers (extrude, subdivide, loop
    cut, decimate, boolean CSG, array, bridge, knife, mirror, bevel) and the
    sculpt engine.

    Conventions of the embedding
    - A JavaScript [number] that holds a coordinate, a weight or a distance
      is an element of a carrier [F] with the operations of class [Number];
      the instance [float64] interprets them by the IEEE binary64 primitives.
    - A [number] that holds an index, a length or a counter is a [nat] or a
      [Z]; an index read out of a typed array past its end is [None]
      (JavaScript [undefined]).
    - A thrown [TypeError] is the [None] of the option monad. *)

From Stdlib Require Import ZArith Lia Floats Uint63.
From stdpp Require Import base option list strings.

Open Scope Z_scope.

(** ** Numbers *)

(** The value of [Math.floor]: an integer-valued double, kept exactly. *)
Inductive jsint :=
| JNaN
| JNegInf
| JInt (z : Z)
| JPosInf.

(** The arithmetic the sources use on doubles. *)
Class Number (F : Type) := {
  of_Z : Z -> F;
  NaN : F;
  Infinity : F;
  fadd : F -> F -> F;
  fsub : F -> F -> F;
  fmul : F -> F -> F;
  fdiv : F -> F -> F;
  fneg : F -> F;
  flt : F -> F -> bool;
  fle : F -> F -> bool;
  feq : F -> F -> bool;
  Math_sqrt : F -> F;
  Math_abs : F -> F;
  Math_cos : F -> F;
  Math_sin : F -> F;
  Math_pow : F -> F -> F;
  Math_min : F -> F -> F;
  Math_max : F -> F -> F;
  Math_floor : F -> jsint;
  Math_fround : F -> F;
  Math_PI : F;
}.

Declare Scope num_scope.
Delimit Scope num_scope with num.
Infix "+!" := fadd (at level 50, left associativity) : num_scope.
Infix "-!" := fsub (at level 50, left associativity) : num_scope.
Infix "*!" := fmul (at level 40, left associativity) : num_scope.
Infix "/!" := fdiv (at level 40, left associativity) : num_scope.
Infix "<!" := flt (at level 60, no associativity) : num_scope.
Infix "<=!" := fle (at level 60, no associativity) : num_scope.
Infix "==!" := feq (at level 60, no associativity) : num_scope.
Notation "x >! y" := (flt y x) (at level 60, no associativity) : num_scope.
Notation "x >=! y" := (fle y x) (at level 60, no associativity) : num_scope.
Open Scope num_scope.

(** The order laws the minimum searches rely on: [<] is a strict order, and
    a number that compares with anything (so, not [NaN]) splits every
    strict inequality. *)
Class NumberOrder (F : Type) `{Number F} : Prop := {
  flt_irrefl : forall x : F, x <! x = false;
  flt_trans : forall x y z : F, x <! y = true -> y <! z = true -> x <! z = true;
  flt_cotrans : forall e x y z : F,
    e <! y = true -> x <! z = true -> x <! y = true \/ y <! z = true;
}.

Section Literals.
Context {F : Type} `{Number F}.

(** A decimal literal [a/b]: the quotient of two exactly represented
    integers is the correctly rounded double, as the literal is. *)
Definition lit (a b : Z) : F := of_Z a /! of_Z b.
Definition zero : F := of_Z 0.
Definition one : F := of_Z 1.
Definition two : F := of_Z 2.
Definition three : F := of_Z 3.
Definition half : F := lit 1 2.

(** [a[i]] on a [Float32Array] or a [number[]] whose value flows into
    arithmetic or into a typed array: [undefined] acts as [NaN] there. *)
Definition rd (a : list F) (i : nat) : F := default NaN (a !! i).

(** [new Float32Array(xs)]: every element is rounded to single precision. *)
Definition Float32Array (xs : list F) : list F := map Math_fround xs.
End Literals.

(** ** The data model (types.ts) *)

Record Vec3 (F : Type) := mkVec3 { vx : F; vy : F; vz : F }.
Arguments mkVec3 {F} _ _ _.
Arguments vx {F} _.
Arguments vy {F} _.
Arguments vz {F} _.

Record Transform3D (F : Type) := mkTransform {
  position : Vec3 F;
  rotation : Vec3 F;
  scale : Vec3 F;
}.
Arguments mkTransform {F} _ _ _.
Arguments position {F} _.
Arguments rotation {F} _.
Arguments scale {F} _.

(** An element of a [number[]] of vertex indices: a natural number, or
    [None] for [undefined] and for the [NaN] that [Math.min] and [Math.max]
    make of it. *)
Abbreviation idx := (option nat).

Record Edge := mkEdge { edge_a : idx; edge_b : idx }.

Record Face (F : Type) := mkFace {
  face_vertices : list idx;
  face_normal : Vec3 F;
}.
Arguments mkFace {F} _ _.
Arguments face_vertices {F} _.
Arguments face_normal {F} _.

Record EditableGeometry (F : Type) := mkGeometry {
  geo_id : string;
  vertices : list F;
  normals : list F;
  uvs : list F;
  indices : list nat;
  vertexCount : nat;
  edges : list Edge;
  faces : list (Face F);
}.
Arguments mkGeometry {F} _ _ _ _ _ _ _ _.
Arguments geo_id {F} _.
Arguments vertices {F} _.
Arguments normals {F} _.
Arguments uvs {F} _.
Arguments indices {F} _.
Arguments vertexCount {F} _.
Arguments edges {F} _.
Arguments faces {F} _.

(** The material is opaque to the kernel and passed through unchanged. *)
Inductive Material := OpaqueMaterial (payload : string).

Record EditableMesh (F : Type) := mkMesh {
  id : string;
  name : string;
  geometry : EditableGeometry F;
  material : Material;
  transform : Transform3D F;
  visible : bool;
  locked : bool;
  parentId : option string;
}.
Arguments mkMesh {F} _ _ _ _ _ _ _ _.
Arguments id {F} _.
Arguments name {F} _.
Arguments geometry {F} _.
Arguments material {F} _.
Arguments transform {F} _.
Arguments visible {F} _.
Arguments locked {F} _.
Arguments parentId {F} _.

(** [{ ...mesh, geometry: g }]. *)
Definition with_geometry {F} (mesh : EditableMesh F) (g : EditableGeometry F)
  : EditableMesh F :=
  mkMesh (id mesh) (name mesh) g (material mesh) (transform mesh)
         (visible mesh) (locked mesh) (parentId mesh).

(** ** Index buffers *)

(** [new Uint16Array(xs)]: [undefined] and [NaN] become 0, integers wrap. *)
Definition ToUint16 (i : idx) : nat :=
  match i with
  | Some n => N.to_nat (N.of_nat n mod 65536)
  | None => 0%nat
  end.
Definition Uint16Array (xs : list idx) : list nat := map ToUint16 xs.

(** The triangles visited by [for (i = 0; i < indices.length; i += 3)],
    each read as [indices[i], indices[i + 1], indices[i + 2]]. *)
Fixpoint triangles {A : Type} (l : list A) : list (option A * option A * option A) :=
  match l with
  | [] => []
  | [a] => [(Some a, None, None)]
  | [a; b] => [(Some a, Some b, None)]
  | a :: b :: c :: r => (Some a, Some b, Some c) :: triangles r
  end.

(** ** Vector helpers (repeated at the head of every source module) *)

Section Vec.
Context {F : Type} `{Number F}.

Definition vec3Add (a b : Vec3 F) : Vec3 F :=
  mkVec3 (vx a +! vx b) (vy a +! vy b) (vz a +! vz b).
Definition vec3Sub (a b : Vec3 F) : Vec3 F :=
  mkVec3 (vx a -! vx b) (vy a -! vy b) (vz a -! vz b).
Definition vec3Scale (v : Vec3 F) (s : F) : Vec3 F :=
  mkVec3 (vx v *! s) (vy v *! s) (vz v *! s).
Definition vec3Dot (a b : Vec3 F) : F :=
  vx a *! vx b +! vy a *! vy b +! vz a *! vz b.
Definition vec3Cross (a b : Vec3 F) : Vec3 F :=
  mkVec3 (vy a *! vz b -! vz a *! vy b)
         (vz a *! vx b -! vx a *! vz b)
         (vx a *! vy b -! vy a *! vx b).
Definition vec3LengthSq (v : Vec3 F) : F :=
  vx v *! vx v +! vy v *! vy v +! vz v *! vz v.
Definition vec3Length (v : Vec3 F) : F := Math_sqrt (vec3LengthSq v).
Definition vec3Normalize (v : Vec3 F) : Vec3 F :=
  let len := Math_sqrt (vec3LengthSq v) in
  if len ==! zero then mkVec3 zero zero zero
  else mkVec3 (vx v /! len) (vy v /! len) (vz v /! len).
Definition vec3Lerp (a b : Vec3 F) (t : F) : Vec3 F :=
  mkVec3 (vx a +! (vx b -! vx a) *! t)
         (vy a +! (vy b -! vy a) *! t)
         (vz a +! (vz b -! vz a) *! t).
Definition vec3Clone (v : Vec3 F) : Vec3 F := mkVec3 (vx v) (vy v) (vz v).
Definition vec3Flip (v : Vec3 F) : Vec3 F :=
  mkVec3 (fneg (vx v)) (fneg (vy v)) (fneg (vz v)).
Definition vec3Zero : Vec3 F := mkVec3 zero zero zero.

(** [{ x: a[i * 3], y: a[i * 3 + 1], z: a[i * 3 + 2] }] for an index [i]
    that may be [undefined]: every component is then [undefined]. *)
Definition vec3At (a : list F) (i : idx) : Vec3 F :=
  match i with
  | Some n => mkVec3 (rd a (n * 3)) (rd a (n * 3 + 1)) (rd a (n * 3 + 2))
  | None => mkVec3 NaN NaN NaN
  end.
End Vec.

(** ** Picking (raycast.ts) *)

Module Raycast.
Section Raycast.
Context {F : Type} `{Number F}.

Record Ray := mkRay { origin : Vec3 F; direction : Vec3 F }.

Record RaycastHit := mkHit {
  meshId : string;
  distance : F;
  point : Vec3 F;
  faceIndex : nat;
}.

Definition transformPoint (p : Vec3 F) (t : Transform3D F) : Vec3 F :=
  let result :=
    mkVec3 (vx p *! vx (scale t)) (vy p *! vy (scale t)) (vz p *! vz (scale t)) in
  let rotation := rotation t in
  let cosX := Math_cos (vx rotation) in
  let sinX := Math_sin (vx rotation) in
  let result :=
    mkVec3 (vx result)
           (vy result *! cosX -! vz result *! sinX)
           (vy result *! sinX +! vz result *! cosX) in
  let cosY := Math_cos (vy rotation) in
  let sinY := Math_sin (vy rotation) in
  let result :=
    mkVec3 (vx result *! cosY +! vz result *! sinY)
           (vy result)
           (fneg (vx result) *! sinY +! vz result *! cosY) in
  let cosZ := Math_cos (vz rotation) in
  let sinZ := Math_sin (vz rotation) in
  let result :=
    mkVec3 (vx result *! cosZ -! vy result *! sinZ)
           (vx result *! sinZ +! vy result *! cosZ)
           (vz result) in
  vec3Add result (position t).

Record Intersection := mkIntersection {
  hit : bool;
  hit_distance : F;
  hit_point : Vec3 F;
}.

Definition EPSILON : F := lit 1 1000000.

Definition miss : Intersection := mkIntersection false Infinity vec3Zero.

(** Moller-Trumbore. *)
Definition rayTriangleIntersect (ray : Ray) (v0 v1 v2 : Vec3 F) : Intersection :=
  let edge1 := vec3Sub v1 v0 in
  let edge2 := vec3Sub v2 v0 in
  let h := vec3Cross (direction ray) edge2 in
  let a := vec3Dot edge1 h in
  if (a >! fneg EPSILON) && (a <! EPSILON) then miss
  else
    let f := one /! a in
    let s := vec3Sub (origin ray) v0 in
    let u := f *! vec3Dot s h in
    if (u <! zero) || (u >! one) then miss
    else
      let q := vec3Cross s edge1 in
      let v := f *! vec3Dot (direction ray) q in
      if (v <! zero) || (u +! v >! one) then miss
      else
        let t := f *! vec3Dot edge2 q in
        if t >! EPSILON then
          mkIntersection true t (vec3Add (origin ray) (vec3Scale (direction ray) t))
        else miss.

(** The intersection test of one triangle of a mesh, in world space. *)
Definition intersectTriangle (ray : Ray) (mesh : EditableMesh F)
    (tri : idx * idx * idx) : Intersection :=
  let '(i0, i1, i2) := tri in
  let vs := vertices (geometry mesh) in
  let tv0 := transformPoint (vec3At vs i0) (transform mesh) in
  let tv1 := transformPoint (vec3At vs i1) (transform mesh) in
  let tv2 := transformPoint (vec3At vs i2) (transform mesh) in
  rayTriangleIntersect ray tv0 tv1 tv2.

(** The body of the triangle loop; the state is
    [(closestHit, closestDist)]. *)
Definition raycastMesh_step (ray : Ray) (mesh : EditableMesh F)
    (st : option RaycastHit * F) (it : nat * (idx * idx * idx))
  : option RaycastHit * F :=
  let result := intersectTriangle ray mesh (snd it) in
  if hit result && (hit_distance result <! snd st) then
    (Some (mkHit (id mesh) (hit_distance result) (hit_point result) (fst it)),
     hit_distance result)
  else st.

Definition raycastMesh (ray : Ray) (mesh : EditableMesh F) : option RaycastHit :=
  if negb (visible mesh) then None
  else
    fst (fold_left (raycastMesh_step ray mesh)
                   (imap pair (triangles (indices (geometry mesh))))
                   (None, Infinity)).

Definition raycast_step (ray : Ray) (st : option RaycastHit * F)
    (mesh : EditableMesh F) : option RaycastHit * F :=
  match raycastMesh ray mesh with
  | Some h => if distance h <! snd st then (Some h, distance h) else st
  | None => st
  end.

Definition raycast (ray : Ray) (meshes : list (EditableMesh F))
  : option RaycastHit :=
  fst (fold_left (raycast_step ray) meshes (None, Infinity)).

(** [findClosestVertex]; the state is [(closestIdx, closestDist)]. *)
Definition findClosestVertex_step (mesh : EditableMesh F) (point : Vec3 F)
    (st : nat * F) (i : nat) : nat * F :=
  let v := vec3At (vertices (geometry mesh)) (Some i) in
  let tv := transformPoint v (transform mesh) in
  let dist := vec3Length (vec3Sub tv point) in
  if dist <! snd st then (i, dist) else st.

Definition findClosestVertex (mesh : EditableMesh F) (point : Vec3 F) : nat :=
  fst (fold_left (findClosestVertex_step mesh point)
                 (seq 0 (vertexCount (geometry mesh)))
                 (0%nat, Infinity)).
End Raycast.
End Raycast.

(** ** Derived data: the edge and face rebuild that ends every operator *)

Definition js_min (a b : idx) : idx :=
  match a, b with
  | Some x, Some y => Some (x `min` y)%nat
  | _, _ => None
  end.
Definition js_max (a b : idx) : idx :=
  match a, b with
  | Some x, Some y => Some (x `max` y)%nat
  | _, _ => None
  end.

#[global] Instance Edge_eq_dec : EqDecision Edge.
Proof. solve_decision. Defined.

(** The edge of the key [`${Math.min(a, b)}-${Math.max(a, b)}`]; two keys are
    the same string exactly when the two edges are equal. *)
Definition edgeKey (a b : idx) : Edge := mkEdge (js_min a b) (js_max a b).

(** [if (!edgeSet.has(key)) { edgeSet.add(key); edges.push({ a, b }) }]:
    the set holds the keys of the edges pushed so far. *)
Definition addEdge (edges : list Edge) (e : Edge) : list Edge :=
  if decide (e ∈ edges) then edges else edges ++ [e].

(** The triangles of a [number[]] of indices, whose elements may themselves
    be [undefined]. *)
Definition indexTriangles (newIndices : list idx) : list (idx * idx * idx) :=
  map (fun t : option idx * option idx * option idx =>
         (mjoin (fst (fst t)), mjoin (snd (fst t)), mjoin (snd t)))
      (triangles newIndices).

Definition triangleSides (t : idx * idx * idx) : list Edge :=
  let '(t0, t1, t2) := t in [edgeKey t0 t1; edgeKey t1 t2; edgeKey t2 t0].

Definition rebuildEdges (newIndices : list idx) : list Edge :=
  fold_left addEdge (flat_map triangleSides (indexTriangles newIndices)) [].

Section Rebuild.
Context {F : Type} `{Number F}.

Definition rebuildFaces (newIndices : list idx) (newNormals : list F)
  : list (Face F) :=
  map (fun t : idx * idx * idx =>
         let '(t0, t1, t2) := t in
         mkFace [t0; t1; t2] (vec3At newNormals t0))
      (indexTriangles newIndices).

(** [a[i] = x] on a [number[]]: past the end the array grows, and the
    holes read as [undefined]. *)
Definition js_set (a : list F) (i : nat) (x : F) : list F :=
  if (i <? length a)%nat then <[i := x]> a
  else a ++ replicate (i - length a) NaN ++ [x].

(** [a[i * stride + off]] for an index that may be [undefined]. *)
Definition rdAt (a : list F) (i : idx) (stride off : nat) : F :=
  match i with
  | Some n => rd a (n * stride + off)
  | None => NaN
  end.

(** The geometry every operator assembles at its end.  The operators push
    three numbers per vertex, so [newVertices.length / 3], and every fresh
    index [newVertices.length / 3] taken on the way, is a whole number, and
    the division below exact, whenever the vertex buffer of the input holds
    whole vertices ([vertices.length] a multiple of 3, as the data model has
    it).  The statements about a vertex count or about fresh indices take
    such a buffer as their hypothesis; those about buffer lengths hold for
    every buffer. *)
Definition assemble (gid : string) (newVertices newNormals newUvs : list F)
    (newIndices : list idx) (newEdges : list Edge) (newFaces : list (Face F))
  : EditableGeometry F :=
  mkGeometry gid (Float32Array newVertices) (Float32Array newNormals)
             (Float32Array newUvs) (Uint16Array newIndices)
             (length newVertices / 3)%nat newEdges newFaces.
End Rebuild.

(** ** Subdivide (subdivide.ts) *)

Module Subdivide.
Section Subdivide.
Context {F : Type} `{Number F}.

Record SubdivideOptions := mkOptions {
  iterations : option Z;
  smooth : option bool;
}.

(** The buffers and the midpoint map that [getMidpoint] closes over. *)
Record Buffers := mkBuffers {
  newVertices : list F;
  newNormals : list F;
  newUvs : list F;
  midpointMap : list (Edge * nat);
}.

Definition midpointMap_get (m : list (Edge * nat)) (key : Edge) : option nat :=
  (fun r => snd (snd r)) <$> list_find (fun kv => fst kv = key) m.

Definition getMidpoint (st : Buffers) (a b : idx) : Buffers * nat :=
  let key := edgeKey a b in
  match midpointMap_get (midpointMap st) key with
  | Some midIdx => (st, midIdx)
  | None =>
      let midIdx := (length (newVertices st) / 3)%nat in
      let va := vec3At (newVertices st) a in
      let vb := vec3At (newVertices st) b in
      let na := vec3At (newNormals st) a in
      let nb := vec3At (newNormals st) b in
      let midPos := vec3Lerp va vb half in
      let midNormal := vec3Normalize (vec3Lerp na nb half) in
      let midU := (rdAt (newUvs st) a 2 0 +! rdAt (newUvs st) b 2 0) /! two in
      let midV := (rdAt (newUvs st) a 2 1 +! rdAt (newUvs st) b 2 1) /! two in
      (mkBuffers (newVertices st ++ [vx midPos; vy midPos; vz midPos])
                 (newNormals st ++ [vx midNormal; vy midNormal; vz midNormal])
                 (newUvs st ++ [midU; midV])
                 (midpointMap st ++ [(key, midIdx)]),
       midIdx)
  end.

(** One round of the triangle loop: three midpoints, four triangles. *)
Definition splitTriangle (acc : Buffers * list idx) (tri : idx * idx * idx)
  : Buffers * list idx :=
  let '(v0, v1, v2) := tri in
  let '(st, m01) := getMidpoint (fst acc) v0 v1 in
  let '(st, m12) := getMidpoint st v1 v2 in
  let '(st, m20) := getMidpoint st v2 v0 in
  (st, snd acc ++ [v0; Some m01; Some m20;
                   Some m01; v1; Some m12;
                   Some m20; Some m12; v2;
                   Some m01; Some m12; Some m20]).

(** [vertexNeighbors]: a map from a vertex to the insertion-ordered set of
    its neighbours. *)
Definition setAdd (s : list idx) (x : idx) : list idx :=
  if decide (x ∈ s) then s else s ++ [x].

Definition neighborsAdd (m : list (idx * list idx)) (v x : idx)
  : list (idx * list idx) :=
  match list_find (fun kv => fst kv = v) m with
  | Some (i, (_, s)) => <[i := (v, setAdd s x)]> m
  | None => m ++ [(v, setAdd [] x)]
  end.

Definition neighborsOfTriangle (m : list (idx * list idx)) (t : idx * idx * idx)
  : list (idx * list idx) :=
  let '(t0, t1, t2) := t in
  let m := neighborsAdd (neighborsAdd m t0 t1) t0 t2 in
  let m := neighborsAdd (neighborsAdd m t1 t2) t1 t0 in
  neighborsAdd (neighborsAdd m t2 t0) t2 t1.

Definition vertexNeighbors (newIndices : list idx) : list (idx * list idx) :=
  fold_left neighborsOfTriangle (indexTriangles newIndices) [].

Definition smoothedPosition (vs : list F) (nbrs : list (idx * list idx))
    (i : nat) : Vec3 F :=
  let current := vec3At vs (Some i) in
  match list_find (fun kv => fst kv = Some i) nbrs with
  | None => current
  | Some (_, (_, [])) => current
  | Some (_, (_, neighbors)) =>
      let sum := fold_left (fun s n => vec3Add s (vec3At vs n)) neighbors vec3Zero in
      let avg := vec3Scale sum (one /! of_Z (Z.of_nat (length neighbors))) in
      vec3Lerp current avg (lit 1 4)
  end.

Definition applySmoothed (vs : list F) (ip : nat * Vec3 F) : list F :=
  let '(i, p) := ip in
  js_set (js_set (js_set vs (i * 3) (vx p)) (i * 3 + 1) (vy p)) (i * 3 + 2) (vz p).

Definition smoothVertices (vs : list F) (newIndices : list idx)
    (oldVertexCount : nat) : list F :=
  let nbrs := vertexNeighbors newIndices in
  let smoothedPositions :=
    map (fun i => (i, smoothedPosition vs nbrs i)) (seq 0 oldVertexCount) in
  fold_left applySmoothed smoothedPositions vs.

Definition subdivideOnce (mesh : EditableMesh F) (smooth : bool)
  : EditableMesh F :=
  let geometry := geometry mesh in
  let st0 := mkBuffers (vertices geometry) (normals geometry) (uvs geometry) [] in
  let '(st, newIndices) :=
    fold_left splitTriangle (triangles (indices geometry)) (st0, []) in
  let vs :=
    if smooth then smoothVertices (newVertices st) newIndices (vertexCount geometry)
    else newVertices st in
  with_geometry mesh
    (assemble (geo_id geometry) vs (newNormals st) (newUvs st) newIndices
              (rebuildEdges newIndices)
              (rebuildFaces newIndices (newNormals st))).

Definition subdivide (mesh : EditableMesh F) (options : SubdivideOptions)
  : EditableMesh F :=
  let iterations := default 1 (iterations options) in
  let smooth := default false (smooth options) in
  Nat.iter (Z.to_nat iterations) (fun result => subdivideOnce result smooth) mesh.
End Subdivide.
End Subdivide.

(** ** Loop cut (loopCut.ts) *)

Module LoopCut.
Section LoopCut.
Context {F : Type} `{Number F}.

Record LoopCutOptions := mkOptions {
  numberOfCuts : option Z;
  smoothness : option F;
}.

(** One entry of [cutEdges]. *)
Record CutEdge := mkCutEdge {
  edge : idx * idx;
  newVerts : list nat;
  localIdx : nat * nat;
}.

Record Buffers := mkBuffers {
  newVertices : list F;
  newNormals : list F;
  newUvs : list F;
  edgeVertexMap : list (Edge * list nat);
}.

(** [Map.get] after a sequence of [Map.set]: the last binding wins. *)
Definition edgeVertexMap_get (m : list (Edge * list nat)) (key : Edge)
  : option (list nat) :=
  (fun r => snd (snd r)) <$> list_find (fun kv => fst kv = key) (reverse m).

(** The body of [for (let i = 1; i <= numberOfCuts; i++)] for one selected
    edge; the state is the buffers and [newVerts]. *)
Definition cutVertex (geometry : EditableGeometry F) (numberOfCuts : Z)
    (a b : nat) (acc : Buffers * list nat) (i : nat) : Buffers * list nat :=
  let st := fst acc in
  let va := vec3At (vertices geometry) (Some a) in
  let vb := vec3At (vertices geometry) (Some b) in
  let na := vec3At (normals geometry) (Some a) in
  let nb := vec3At (normals geometry) (Some b) in
  let ua := (rdAt (uvs geometry) (Some a) 2 0, rdAt (uvs geometry) (Some a) 2 1) in
  let ub := (rdAt (uvs geometry) (Some b) 2 0, rdAt (uvs geometry) (Some b) 2 1) in
  let t := of_Z (Z.of_nat i) /! of_Z (numberOfCuts + 1) in
  let newIdx := (length (newVertices st) / 3)%nat in
  let pos := vec3Lerp va vb t in
  let normal := vec3Normalize (vec3Lerp na nb t) in
  let u := fst ua +! (fst ub -! fst ua) *! t in
  let v := snd ua +! (snd ub -! snd ua) *! t in
  (mkBuffers (newVertices st ++ [vx pos; vy pos; vz pos])
             (newNormals st ++ [vx normal; vy normal; vz normal])
             (newUvs st ++ [u; v])
             (edgeVertexMap st),
   snd acc ++ [newIdx]).

Definition cutSelectedEdge (geometry : EditableGeometry F) (numberOfCuts : Z)
    (st : Buffers) (e : nat * nat) : Buffers :=
  let '(a, b) := e in
  let edgeKey := edgeKey (Some a) (Some b) in
  let '(st, newVerts) :=
    fold_left (cutVertex geometry numberOfCuts a b)
              (seq 1 (Z.to_nat numberOfCuts)) (st, []) in
  mkBuffers (newVertices st) (newNormals st) (newUvs st)
            (edgeVertexMap st ++ [(edgeKey, newVerts)]).

(** [a < b] on two indices. *)
Definition idx_lt (a b : idx) : bool :=
  match a, b with
  | Some x, Some y => (x <? y)%nat
  | _, _ => false
  end.

(** Which edges of the triangle are being cut. *)
Definition findCutEdges (m : list (Edge * list nat)) (triVerts : idx * idx * idx)
  : list CutEdge :=
  let '(t0, t1, t2) := triVerts in
  flat_map
    (fun e : idx * idx * (nat * nat) =>
       let '(a, b, loc) := e in
       match edgeVertexMap_get m (edgeKey a b) with
       | Some edgeNewVerts =>
           [mkCutEdge (a, b)
                      (if idx_lt a b then edgeNewVerts else reverse edgeNewVerts)
                      loc]
       | None => []
       end)
    [(t0, t1, (0, 1)%nat); (t1, t2, (1, 2)%nat); (t2, t0, (2, 0)%nat)].

Definition idx_eqb (a b : idx) : bool := bool_decide (a = b).

(** [triVerts.find(p)]: the first vertex satisfying [p], else [undefined]. *)
Definition findVertex (p : idx -> bool) (triVerts : idx * idx * idx) : idx :=
  let '(t0, t1, t2) := triVerts in
  if p t0 then t0 else if p t1 then t1 else if p t2 then t2 else None.

(** [triVerts.find(p) !== undefined]. *)
Definition foundVertex (p : idx -> bool) (triVerts : idx * idx * idx) : bool :=
  match findVertex p triVerts with Some _ => true | None => false end.

(** [xs[k]] on a [number[]] of fresh vertex indices. *)
Definition at_ (xs : list nat) (k : nat) : idx := xs !! k.
(** [xs[xs.length - 1]]. *)
Definition last_ (xs : list nat) : idx := last xs.

Definition oneCut (triVerts : idx * idx * idx) (cut : CutEdge) : list idx :=
  let '(a, b) := edge cut in
  let c := findVertex (fun v => negb (idx_eqb v a) && negb (idx_eqb v b)) triVerts in
  [c; a; at_ (newVerts cut) 0]
    ++ flat_map (fun k => [c; at_ (newVerts cut) k; at_ (newVerts cut) (k + 1)])
                (seq 0 (length (newVerts cut) - 1))
    ++ [c; last_ (newVerts cut); b].

Definition twoCuts (numberOfCuts : Z) (triVerts : idx * idx * idx)
    (cut1 cut2 : CutEdge) : list idx :=
  let '(t0, t1, t2) := triVerts in
  let shared v :=
    (idx_eqb v (fst (edge cut1)) || idx_eqb v (snd (edge cut1)))
    && (idx_eqb v (fst (edge cut2)) || idx_eqb v (snd (edge cut2))) in
  if foundVertex shared triVerts then
    let sharedIdx := findVertex shared triVerts in
    let other1 :=
      if idx_eqb (fst (edge cut1)) sharedIdx then snd (edge cut1) else fst (edge cut1) in
    let other2 :=
      if idx_eqb (fst (edge cut2)) sharedIdx then snd (edge cut2) else fst (edge cut2) in
    let newVerts1 :=
      if idx_eqb (fst (edge cut1)) sharedIdx then newVerts cut1
      else reverse (newVerts cut1) in
    let newVerts2 :=
      if idx_eqb (fst (edge cut2)) sharedIdx then newVerts cut2
      else reverse (newVerts cut2) in
    let lastNew1 := last_ newVerts1 in
    let lastNew2 := last_ newVerts2 in
    [sharedIdx; at_ newVerts1 0; at_ newVerts2 0]
      ++ flat_map (fun k => [at_ newVerts1 k; at_ newVerts1 (k + 1); at_ newVerts2 k;
                             at_ newVerts2 k; at_ newVerts1 (k + 1); at_ newVerts2 (k + 1)])
                  (seq 0 (Z.to_nat (numberOfCuts - 1)))
      ++ [lastNew1; other1; other2; lastNew1; other2; lastNew2]
  else [t0; t1; t2].

(** The indices pushed for one triangle of the input. *)
Definition cutTriangle (numberOfCuts : Z) (m : list (Edge * list nat))
    (triVerts : idx * idx * idx) : list idx :=
  let '(t0, t1, t2) := triVerts in
  match findCutEdges m triVerts with
  | [] => [t0; t1; t2]
  | [cut] => oneCut triVerts cut
  | [cut1; cut2] => twoCuts numberOfCuts triVerts cut1 cut2
  | _ => [t0; t1; t2]
  end.

Definition loopCut (mesh : EditableMesh F) (selectedEdges : list (nat * nat))
    (options : LoopCutOptions) : EditableMesh F :=
  match selectedEdges with
  | [] => mesh
  | _ =>
      let numberOfCuts := default 1 (numberOfCuts options) in
      let geometry := geometry mesh in
      let st0 := mkBuffers (vertices geometry) (normals geometry) (uvs geometry) [] in
      let st := fold_left (cutSelectedEdge geometry numberOfCuts) selectedEdges st0 in
      let newIndices :=
        flat_map (cutTriangle numberOfCuts (edgeVertexMap st))
                 (triangles (indices geometry)) in
      with_geometry mesh
        (assemble (geo_id geometry) (newVertices st) (newNormals st) (newUvs st)
                  newIndices (rebuildEdges newIndices)
                  (rebuildFaces newIndices (newNormals st)))
  end.
End LoopCut.
End LoopCut.

(** ** Extrude (extrude.ts) *)

Module Extrude.
Section Extrude.
Context {F : Type} `{Number F}.

Record ExtrudeOptions := mkOptions {
  distance : F;
  useNormals : option bool;
}.

(** [Map.get] on a map whose keys are kept in insertion order. *)
Definition map_get {K V : Type} `{EqDecision K} (m : list (K * V)) (k : K)
  : option V :=
  (fun r => snd (snd r)) <$> list_find (fun kv => fst kv = k) m.

(** [Map.set]: a present key keeps its place and takes the new value. *)
Definition map_set {K V : Type} `{EqDecision K} (m : list (K * V)) (k : K) (v : V)
  : list (K * V) :=
  match list_find (fun kv => fst kv = k) m with
  | Some (i, _) => <[i := (k, v)]> m
  | None => m ++ [(k, v)]
  end.

(** [Set.add], insertion ordered. *)
Definition set_add (s : list idx) (x : idx) : list idx :=
  if decide (x ∈ s) then s else s ++ [x].

(** Collect the vertices of the selected faces; the state is
    [(selectedVertices, faceMap)]. *)
Definition collectFace (geometry : EditableGeometry F)
    (acc : list idx * list (nat * Face F)) (faceIdx : nat)
  : list idx * list (nat * Face F) :=
  match faces geometry !! faceIdx with
  | Some face =>
      (fold_left set_add (face_vertices face) (fst acc),
       map_set (snd acc) faceIdx face)
  | None => acc
  end.

Record Buffers := mkBuffers {
  newVertices : list F;
  newNormals : list F;
  newUvs : list F;
  vertexMapping : list (idx * nat);
  newVertexIndex : nat;
}.

(** The extruded copy of one selected vertex. *)
Definition extrudeVertex (geometry : EditableGeometry F) (distance : F)
    (useNormals : bool) (avgNormal : Vec3 F) (st : Buffers) (oldIdx : idx)
  : Buffers :=
  let p := vec3At (vertices geometry) oldIdx in
  let normal :=
    if useNormals then vec3Normalize (vec3At (normals geometry) oldIdx)
    else avgNormal in
  let offset := vec3Scale normal distance in
  mkBuffers
    (newVertices st ++ [vx p +! vx offset; vy p +! vy offset; vz p +! vz offset])
    (newNormals st ++ [vx normal; vy normal; vz normal])
    (newUvs st ++ [rdAt (uvs geometry) oldIdx 2 0; rdAt (uvs geometry) oldIdx 2 1])
    (map_set (vertexMapping st) oldIdx (newVertexIndex st))
    (S (newVertexIndex st)).

(** [vertexMapping.get(v) ?? v]. *)
Definition remap (m : list (idx * nat)) (v : idx) : idx :=
  match map_get m v with
  | Some n => Some n
  | None => v
  end.

(** [a[i] = x] on a [number[]] of indices. *)
Definition idx_set (a : list idx) (i : nat) (x : idx) : list idx :=
  if (i <? length a)%nat then <[i := x]> a
  else a ++ replicate (i - length a) None ++ [x].

(** [a[i]] on a [number[]] of indices. *)
Definition idx_get (a : list idx) (i : nat) : idx := mjoin (a !! i).

(** The body of the loop that finds the triangles of a face and moves
    them onto the new vertices. *)
Definition remapTriangle (m : list (idx * nat)) (face : Face F)
    (newIndices : list idx) (i : nat) : list idx :=
  let tri := [idx_get newIndices i; idx_get newIndices (i + 1);
              idx_get newIndices (i + 2)] in
  if forallb (fun v => bool_decide (v ∈ face_vertices face)) tri then
    idx_set (idx_set (idx_set newIndices i (remap m (idx_get newIndices i)))
                     (i + 1) (remap m (idx_get newIndices (i + 1))))
            (i + 2) (remap m (idx_get newIndices (i + 2)))
  else newIndices.

(** The positions [0, 3, 6, ...] below [n]. *)
Definition triangleStarts (n : nat) : list nat :=
  map (fun k => (3 * k)%nat) (seq 0 ((n + 2) / 3)).

(** Update one selected face; [faceMap.get(faceIdx)!] of a face index that
    was out of range is [undefined], and reading its vertices throws. The
    state is [(newFaces, newIndices)]. *)
Definition updateFace (m : list (idx * nat)) (faceMap : list (nat * Face F))
    (acc : option (list (Face F) * list idx)) (faceIdx : nat)
  : option (list (Face F) * list idx) :=
  '(newFaces, newIndices) ← acc;
  face ← map_get faceMap faceIdx;
  let newFaceVerts := map (remap m) (face_vertices face) in
  Some (<[faceIdx := mkFace newFaceVerts (face_normal face)]> newFaces,
        fold_left (remapTriangle m face)
                  (triangleStarts (length newIndices)) newIndices).

(** The consecutive vertex pairs of a face, cyclically. *)
Definition faceEdges (verts : list idx) : list (idx * idx) :=
  map (fun i => (mjoin (verts !! i), mjoin (verts !! ((i + 1) mod length verts)%nat)))
      (seq 0 (length verts)).

Definition sharesEdge (a b : idx) (otherVerts : list idx) : bool :=
  existsb (fun e : idx * idx =>
             (bool_decide (a = fst e) && bool_decide (b = snd e))
             || (bool_decide (a = snd e) && bool_decide (b = fst e)))
          (faceEdges otherVerts).

(** The edges of a selected face that no other selected face shares. *)
Definition boundaryEdgesOf (faceMap : list (nat * Face F))
    (selectedFaces : list nat) (faceIdx : nat) : option (list (idx * idx)) :=
  face ← map_get faceMap faceIdx;
  others ← mapM (fun otherFaceIdx => map_get faceMap otherFaceIdx)
                (filter (fun otherFaceIdx => otherFaceIdx ≠ faceIdx) selectedFaces);
  Some (filter (fun e : idx * idx =>
                  negb (existsb (fun otherFace =>
                                   sharesEdge (fst e) (snd e) (face_vertices otherFace))
                                others) = true)
               (faceEdges (face_vertices face))).

Record Output := mkOutput {
  outIndices : list idx;
  outEdges : list Edge;
  outFaces : list (Face F);
}.

(** The side quad of one boundary edge. *)
Definition sideQuad (m : list (idx * nat)) (newVertices : list F)
    (out : Output) (e : idx * idx) : Output :=
  let '(a, b) := e in
  let newA : idx := map_get m a in
  let newB : idx := map_get m b in
  let pa := vec3At newVertices a in
  let edgeVec := vec3Sub (vec3At newVertices b) pa in
  let upVec := vec3Sub (vec3At newVertices newA) pa in
  let faceNormal := vec3Normalize (vec3Cross edgeVec upVec) in
  mkOutput (outIndices out ++ [a; b; newB; a; newB; newA])
           (outEdges out ++ [mkEdge a newA; mkEdge b newB])
           (outFaces out ++ [mkFace [a; b; newB; newA] faceNormal]).

Definition extrude (mesh : EditableMesh F) (selectedFaces : list nat)
    (options : ExtrudeOptions) : option (EditableMesh F) :=
  match selectedFaces with
  | [] => Some mesh
  | _ =>
      let distance := distance options in
      let useNormals := default true (useNormals options) in
      let geometry := geometry mesh in
      let '(selectedVertices, faceMap) :=
        fold_left (collectFace geometry) selectedFaces ([], []) in
      let avgNormal :=
        vec3Normalize
          (fold_left (fun n kv => vec3Add n (face_normal (snd kv))) faceMap vec3Zero) in
      let oldVertexCount := vertexCount geometry in
      let st :=
        fold_left (extrudeVertex geometry distance useNormals avgNormal)
                  selectedVertices
                  (mkBuffers (vertices geometry) (normals geometry) (uvs geometry)
                             [] oldVertexCount) in
      '(newFaces, newIndices) ←
        fold_left (updateFace (vertexMapping st) faceMap) selectedFaces
                  (Some (faces geometry, map Some (indices geometry)));
      boundaryEdges ← mapM (boundaryEdgesOf faceMap selectedFaces) selectedFaces;
      let out :=
        fold_left (sideQuad (vertexMapping st) (newVertices st))
                  (concat boundaryEdges)
                  (mkOutput newIndices (edges geometry) newFaces) in
      Some (with_geometry mesh
              (assemble (geo_id geometry) (newVertices st) (newNormals st)
                        (newUvs st) (outIndices out) (outEdges out) (outFaces out)))
  end.
End Extrude.
End Extrude.

(** ** Decimate (decimate.ts) *)

(** How a run of an operator with a [while] loop ends: with a value, with a
    thrown [TypeError], or with the iteration budget of the model used up. *)
Inductive Outcome (A : Type) :=
| Ok (a : A)
| TypeError
| OutOfFuel.
Arguments Ok {A} _.
Arguments TypeError {A}.
Arguments OutOfFuel {A}.

Definition of_option {A : Type} (o : option A) : Outcome A :=
  match o with
  | Some a => Ok a
  | None => TypeError
  end.

(** [Math.max(4, x)] for a floored [x]. *)
Definition max4 (x : jsint) : jsint :=
  match x with
  | JNaN => JNaN
  | JNegInf => JInt 4
  | JInt z => JInt (Z.max 4 z)
  | JPosInf => JPosInf
  end.

(** [n > x] for an array length [n]. *)
Definition length_gt (n : nat) (x : jsint) : bool :=
  match x with
  | JNaN => false
  | JNegInf => true
  | JInt z => (z <? Z.of_nat n)%Z
  | JPosInf => false
  end.

Module Decimate.
Section Decimate.
Context {F : Type} `{Number F}.

Inductive Mode := collapse | unsubdivide | planar.
Inductive Axis := axis_x | axis_y | axis_z.

Record DecimateOptions := mkOptions {
  ratio : F;
  mode : Mode;
  symmetry : bool;
  symmetryAxis : Axis;
}.

Record Quadric := mkQuadric {
  qa : F; qb : F; qc : F; qd : F;
  qe : F; qf : F; qg : F;
  qh : F; qi : F;
  qj : F;
}.

Definition createQuadric : Quadric :=
  mkQuadric zero zero zero zero zero zero zero zero zero zero.

Definition quadricFromPlane (n : Vec3 F) (d : F) : Quadric :=
  mkQuadric (vx n *! vx n) (vx n *! vy n) (vx n *! vz n) (vx n *! d)
            (vy n *! vy n) (vy n *! vz n) (vy n *! d)
            (vz n *! vz n) (vz n *! d)
            (d *! d).

Definition addQuadric (q1 q2 : Quadric) : Quadric :=
  mkQuadric (qa q1 +! qa q2) (qb q1 +! qb q2) (qc q1 +! qc q2) (qd q1 +! qd q2)
            (qe q1 +! qe q2) (qf q1 +! qf q2) (qg q1 +! qg q2)
            (qh q1 +! qh q2) (qi q1 +! qi q2)
            (qj q1 +! qj q2).

Definition evaluateQuadric (q : Quadric) (v : Vec3 F) : F :=
  qa q *! vx v *! vx v +! two *! qb q *! vx v *! vy v +! two *! qc q *! vx v *! vz v
    +! two *! qd q *! vx v
    +! qe q *! vy v *! vy v +! two *! qf q *! vy v *! vz v +! two *! qg q *! vy v
    +! qh q *! vz v *! vz v +! two *! qi q *! vz v
    +! qj q.

(** The working copy the collapse loop mutates. *)
Record State := mkState {
  st_vertices : list (Vec3 F);
  st_quadrics : list Quadric;
  st_faces : list (nat * nat * nat);
  st_edges : list (nat * nat);
  removedVertices : list nat;
}.

Definition targetFaceCount (geometry : EditableGeometry F) (ratio : F) : jsint :=
  let origFaceCount := of_Z (Z.of_nat (length (indices geometry))) /! three in
  max4 (Math_floor (origFaceCount *! ratio)).

(** [vertices[i]] on the array of vertex objects; using the fields of an
    [undefined] element throws. *)
Definition vertexOf (vs : list (Vec3 F)) (i : idx) : option (Vec3 F) :=
  i ≫= fun n => vs !! n.

(** One face of the quadric loop: it checks the three indices on the way. *)
Definition accumulateQuadric (vs : list (Vec3 F))
    (acc : option (list Quadric * list (nat * nat * nat)))
    (face : idx * idx * idx) : option (list Quadric * list (nat * nat * nat)) :=
  '(quadrics, checked) ← acc;
  let '(i0, i1, i2) := face in
  v0 ← vertexOf vs i0;
  v1 ← vertexOf vs i1;
  v2 ← vertexOf vs i2;
  n0 ← i0; n1 ← i1; n2 ← i2;
  let e1 := vec3Sub v1 v0 in
  let e2 := vec3Sub v2 v0 in
  let n := vec3Normalize (vec3Cross e1 e2) in
  let d := fneg (vec3Dot n v0) in
  let planeQ := quadricFromPlane n d in
  let add q := addQuadric q planeQ in
  Some (alter add n2 (alter add n1 (alter add n0 quadrics)),
        checked ++ [(n0, n1, n2)]).

(** [addEdge] of the edge list: the pair [[min, max]], once per key. *)
Definition addEdge (edges : list (nat * nat)) (ab : nat * nat) : list (nat * nat) :=
  let e := (fst ab `min` snd ab, fst ab `max` snd ab)%nat in
  if decide (e ∈ edges) then edges else edges ++ [e].

Definition faceSides (f : nat * nat * nat) : list (nat * nat) :=
  let '(i0, i1, i2) := f in [(i0, i1); (i1, i2); (i2, i0)].

(** Everything before the collapse loop. *)
Definition setup (geometry : EditableGeometry F) : option State :=
  let vertexCount := vertexCount geometry in
  let vs := map (fun i => vec3At (vertices geometry) (Some i)) (seq 0 vertexCount) in
  let faces := triangles (indices geometry) in
  '(quadrics, faces) ←
    fold_left (accumulateQuadric vs) faces
              (Some (replicate vertexCount createQuadric, []));
  let edges := fold_left addEdge (flat_map faceSides faces) [] in
  Some (mkState vs quadrics faces edges []).

(** The search for the best edge; the state is
    [(bestEdge, bestError, bestPos)]. *)
Definition tryEdge (st : State)
    (acc : option (option (nat * nat) * F * Vec3 F)) (e : nat * nat)
  : option (option (nat * nat) * F * Vec3 F) :=
  '(bestEdge, bestError, bestPos) ← acc;
  let '(v1, v2) := e in
  if bool_decide (v1 ∈ removedVertices st) || bool_decide (v2 ∈ removedVertices st)
  then Some (bestEdge, bestError, bestPos)
  else
    q1 ← st_quadrics st !! v1;
    q2 ← st_quadrics st !! v2;
    let q := addQuadric q1 q2 in
    p1 ← st_vertices st !! v1;
    p2 ← st_vertices st !! v2;
    let mid := vec3Scale (vec3Add p1 p2) half in
    let error := evaluateQuadric q mid in
    if error <! bestError then Some (Some (v1, v2), error, mid)
    else Some (bestEdge, bestError, bestPos).

Definition findBestEdge (st : State)
  : option (option (nat * nat) * F * Vec3 F) :=
  fold_left (tryEdge st) (st_edges st) (Some (None, Infinity, vec3Zero)).

Definition replaceVertex (v2 v1 x : nat) : nat :=
  if decide (x = v2) then v1 else x.

Definition degenerate (f : nat * nat * nat) : bool :=
  let '(f0, f1, f2) := f in
  bool_decide (f0 = f1) || bool_decide (f1 = f2) || bool_decide (f2 = f0).

(** The collapse of the edge [(v1, v2)] onto [v1], moved to [bestPos]. *)
Definition collapseEdge (st : State) (v1 v2 : nat) (bestPos : Vec3 F)
  : option State :=
  q1 ← st_quadrics st !! v1;
  q2 ← st_quadrics st !! v2;
  let r := replaceVertex v2 v1 in
  Some (mkState
          (<[v1 := bestPos]> (st_vertices st))
          (<[v1 := addQuadric q1 q2]> (st_quadrics st))
          (filter (fun f => degenerate f = false)
                  (map (fun f : nat * nat * nat =>
                          (r (fst (fst f)), r (snd (fst f)), r (snd f)))
                       (st_faces st)))
          (filter (fun e : nat * nat => fst e ≠ snd e)
                  (map (fun e : nat * nat => (r (fst e), r (snd e))) (st_edges st)))
          (removedVertices st ++ [v2])).

(** One turn of [while (faces.length > targetFaceCount)]: [Ok None] when
    the loop is left, [Ok (Some st')] when it goes round again. *)
Definition collapseStep (target : jsint) (st : State) : option (option State) :=
  if length_gt (length (st_faces st)) target then
    '(bestEdge, _, bestPos) ← findBestEdge st;
    match bestEdge with
    | None => Some None
    | Some (v1, v2) => Some <$> collapseEdge st v1 v2 bestPos
    end
  else Some None.

(** The loop, with the state it ends in and the number of collapses. *)
Fixpoint collapseLoop (fuel : nat) (target : jsint) (st : State) (n : nat)
  : Outcome (State * nat) :=
  match fuel with
  | O => OutOfFuel
  | S fuel =>
      match collapseStep target st with
      | None => TypeError
      | Some None => Ok (st, n)
      | Some (Some st') => collapseLoop fuel target st' (S n)
      end
  end.

(** The compact vertex array built from the surviving faces. *)
Record Compact := mkCompact {
  newVertices : list F;
  newNormals : list F;
  newUvs : list F;
  newVertexMap : list (nat * nat);
  newIdx : nat;
}.

Definition newVertexMap_get (m : list (nat * nat)) (k : nat) : option nat :=
  (fun r => snd (snd r)) <$> list_find (fun kv => fst kv = k) m.

Definition compactVertex (geometry : EditableGeometry F) (vs : list (Vec3 F))
    (acc : option Compact) (vIdx : nat) : option Compact :=
  c ← acc;
  match newVertexMap_get (newVertexMap c) vIdx with
  | Some _ => Some c
  | None =>
      v ← vs !! vIdx;
      Some (mkCompact
              (newVertices c ++ [vx v; vy v; vz v])
              (newNormals c ++ [zero; zero; zero])
              (newUvs c ++ [default zero (uvs geometry !! (vIdx * 2)%nat);
                             default zero (uvs geometry !! (vIdx * 2 + 1)%nat)])
              (newVertexMap c ++ [(vIdx, newIdx c)])
              (S (newIdx c)))
  end.

Definition faceVertices (f : nat * nat * nat) : list nat :=
  let '(f0, f1, f2) := f in [f0; f1; f2].

(** [a[i] += x] on a [number[]]. *)
Definition addAt (a : list F) (i : nat) (x : F) : list F :=
  js_set a i (rd a i +! x).

Definition accumulateNormal (newVertices : list F) (newNormals : list F)
    (tri : idx * idx * idx) : list F :=
  let '(i0, i1, i2) := tri in
  let v0 := vec3At newVertices i0 in
  let v1 := vec3At newVertices i1 in
  let v2 := vec3At newVertices i2 in
  let e1 := vec3Sub v1 v0 in
  let e2 := vec3Sub v2 v0 in
  let n := vec3Cross e1 e2 in
  fold_left
    (fun ns i =>
       match i with
       | Some k =>
           addAt (addAt (addAt ns (k * 3) (vx n)) (k * 3 + 1) (vy n)) (k * 3 + 2) (vz n)
       | None => ns
       end)
    [i0; i1; i2] newNormals.

Definition normalizeAt (newNormals : list F) (i : nat) : list F :=
  let nx := rd newNormals (i * 3) in
  let ny := rd newNormals (i * 3 + 1) in
  let nz := rd newNormals (i * 3 + 2) in
  let len := Math_sqrt (nx *! nx +! ny *! ny +! nz *! nz) in
  if len >! zero then
    js_set (js_set (js_set newNormals (i * 3) (nx /! len)) (i * 3 + 1) (ny /! len))
           (i * 3 + 2) (nz /! len)
  else newNormals.

(** Everything after the collapse loop. *)
Definition rebuild (mesh : EditableMesh F) (st : State) : option (EditableMesh F) :=
  let geometry := geometry mesh in
  c ← fold_left (compactVertex geometry (st_vertices st))
                (flat_map faceVertices (st_faces st))
                (Some (mkCompact [] [] [] [] 0%nat));
  let newIndices : list idx :=
    flat_map (fun f => map (newVertexMap_get (newVertexMap c)) (faceVertices f))
             (st_faces st) in
  let ns :=
    fold_left (accumulateNormal (newVertices c)) (indexTriangles newIndices)
              (newNormals c) in
  let ns := fold_left normalizeAt (seq 0 (length (newVertices c) / 3)) ns in
  Some (with_geometry mesh
          (assemble (geo_id geometry) (newVertices c) ns (newUvs c) newIndices
                    (rebuildEdges newIndices) (rebuildFaces newIndices ns))).

Definition decimateCollapse (fuel : nat) (mesh : EditableMesh F) (ratio : F)
  : Outcome (EditableMesh F) :=
  let geometry := geometry mesh in
  let targetFaceCount := targetFaceCount geometry ratio in
  match setup geometry with
  | None => TypeError
  | Some st0 =>
      match collapseLoop fuel targetFaceCount st0 0 with
      | Ok (st, _) => of_option (rebuild mesh st)
      | TypeError => TypeError
      | OutOfFuel => OutOfFuel
      end
  end.

Definition decimatePlanar (fuel : nat) (mesh : EditableMesh F) (ratio : F)
  : Outcome (EditableMesh F) :=
  decimateCollapse fuel mesh ratio.

Definition decimateUnsubdivide (fuel : nat) (mesh : EditableMesh F) (ratio : F)
  : Outcome (EditableMesh F) :=
  decimateCollapse fuel mesh ratio.

(** [fuel] bounds the turns of the collapse loop. *)
Definition decimate (fuel : nat) (mesh : EditableMesh F) (options : DecimateOptions)
  : Outcome (EditableMesh F) :=
  let ratio := ratio options in
  if ratio >=! one then Ok mesh
  else
    match mode options with
    | collapse => decimateCollapse fuel mesh ratio
    | planar => decimatePlanar fuel mesh ratio
    | unsubdivide => decimateUnsubdivide fuel mesh ratio
    end.
End Decimate.
End Decimate.

(** ** Sculpting (brushes.ts, SculptEngine.ts) *)

Module Sculpt.
Section Sculpt.
Context {F : Type} `{Number F}.

Inductive BrushType := grab | smooth | clay | crease | inflate | flatten | pinch.
Inductive Falloff := falloff_smooth | falloff_sharp | falloff_linear | falloff_constant.

Record BrushSettings := mkSettings {
  type : BrushType;
  radius : F;
  strength : F;
  falloff : Falloff;
  invert : bool;
  autoSmooth : F;
}.

Definition calculateFalloff (distance radius : F) (falloff : Falloff) : F :=
  let t := Math_max zero (Math_min one (distance /! radius)) in
  match falloff with
  | falloff_smooth => one -! (three *! t *! t -! two *! t *! t *! t)
  | falloff_sharp => Math_pow (one -! t) three
  | falloff_linear => one -! t
  | falloff_constant => if t <! one then one else zero
  end.

Record Affected := mkAffected {
  index : nat;
  aff_distance : F;
  weight : F;
}.

(** The vertices of a typed array of [n] numbers: [i < n / 3]. *)
Definition vertexRange (n : nat) : list nat := seq 0 ((n + 2) / 3).

Definition getAffectedVertices (hitPoint : Vec3 F) (vertices : list F) (radius : F)
  : list Affected :=
  let radiusSq := radius *! radius in
  flat_map
    (fun i =>
       let v := vec3At vertices (Some i) in
       let dx := vx v -! vx hitPoint in
       let dy := vy v -! vy hitPoint in
       let dz := vz v -! vz hitPoint in
       let distSq := dx *! dx +! dy *! dy +! dz *! dz in
       if distSq <=! radiusSq then [mkAffected i (Math_sqrt distSq) zero] else [])
    (vertexRange (length vertices)).

Record SculptBrush := mkBrush {
  settings : BrushSettings;
  isActive : bool;
  lastPosition : option (Vec3 F);
  accumulatedDelta : Vec3 F;
}.

Record Symmetry := mkSymmetry { sym_x : bool; sym_y : bool; sym_z : bool }.

(** The engine; the bound mesh is the object whose buffers it mutates. *)
Record SculptEngine := mkEngine {
  mesh : option (EditableMesh F);
  originalVertices : option (list F);
  brush : SculptBrush;
  symmetry : Symmetry;
}.

Definition constructor : SculptEngine :=
  mkEngine None None
           (mkBrush (mkSettings grab (lit 1 2) one falloff_smooth false zero)
                    false None vec3Zero)
           (mkSymmetry false false false).

(** [new Float32Array(typedArray)]: a copy, element for element. *)
Definition copyFloat32Array (a : list F) : list F := a.

Definition setMesh (e : SculptEngine) (m : EditableMesh F) : SculptEngine :=
  mkEngine (Some m) (Some (copyFloat32Array (vertices (geometry m))))
           (brush e) (symmetry e).

Definition getMesh (e : SculptEngine) : option (EditableMesh F) := mesh e.

(** [Partial<BrushSettings>]. *)
Record PartialSettings := mkPartial {
  p_type : option BrushType;
  p_radius : option F;
  p_strength : option F;
  p_falloff : option Falloff;
  p_invert : option bool;
  p_autoSmooth : option F;
}.

(** [Object.assign(this.brush.settings, settings)]. *)
Definition setBrushSettings (e : SculptEngine) (p : PartialSettings) : SculptEngine :=
  let s := settings (brush e) in
  let s' :=
    mkSettings (default (type s) (p_type p)) (default (radius s) (p_radius p))
               (default (strength s) (p_strength p))
               (default (falloff s) (p_falloff p))
               (default (invert s) (p_invert p))
               (default (autoSmooth s) (p_autoSmooth p)) in
  mkEngine (mesh e) (originalVertices e)
           (mkBrush s' (isActive (brush e)) (lastPosition (brush e))
                    (accumulatedDelta (brush e)))
           (symmetry e).

Definition getBrushSettings (e : SculptEngine) : BrushSettings := settings (brush e).

Inductive Axis := axis_x | axis_y | axis_z.

Definition setSymmetry (e : SculptEngine) (axis : Axis) (enabled : bool)
  : SculptEngine :=
  let s := symmetry e in
  mkEngine (mesh e) (originalVertices e) (brush e)
           (match axis with
            | axis_x => mkSymmetry enabled (sym_y s) (sym_z s)
            | axis_y => mkSymmetry (sym_x s) enabled (sym_z s)
            | axis_z => mkSymmetry (sym_x s) (sym_y s) enabled
            end).

Definition beginStroke (e : SculptEngine) (hitPoint : Vec3 F) : SculptEngine :=
  let b := mkBrush (settings (brush e)) true (Some hitPoint) vec3Zero in
  match mesh e with
  | Some m =>
      mkEngine (Some m) (Some (copyFloat32Array (vertices (geometry m))))
               b (symmetry e)
  | None => mkEngine None (originalVertices e) b (symmetry e)
  end.

(** [a[i] = x] on a [Float32Array]: rounded, and ignored past the end. *)
Definition store (a : list F) (i : nat) (x : F) : list F :=
  <[i := Math_fround x]> a.

Definition calculateSmoothOffset (g : EditableGeometry F) (vertexIndex : nat)
    (weight : F) : Vec3 F :=
  let vs := vertices g in
  let neighbors :=
    flat_map (fun e : Edge =>
                (if bool_decide (edge_a e = Some vertexIndex) then [edge_b e] else [])
                ++ (if bool_decide (edge_b e = Some vertexIndex) then [edge_a e] else []))
             (edges g) in
  match neighbors with
  | [] => vec3Zero
  | _ =>
      let avg :=
        fold_left (fun s n => vec3Add s (vec3At vs n)) neighbors vec3Zero in
      let len := of_Z (Z.of_nat (length neighbors)) in
      let avgX := vx avg /! len in
      let avgY := vy avg /! len in
      let avgZ := vz avg /! len in
      let v := vec3At vs (Some vertexIndex) in
      mkVec3 ((avgX -! vx v) *! weight) ((avgY -! vy v) *! weight)
             ((avgZ -! vz v) *! weight)
  end.

Definition calculateFlattenOffset (g : EditableGeometry F) (vertexIndex : nat)
    (hitPoint : Vec3 F) (affected : list Affected) (weight : F) : Vec3 F :=
  let avgNormal :=
    vec3Normalize
      (fold_left (fun s a => vec3Add s (vec3At (normals g) (Some (index a))))
                 affected vec3Zero) in
  let v := vec3At (vertices g) (Some vertexIndex) in
  let toVertex := vec3Sub v hitPoint in
  let dist := vec3Dot toVertex avgNormal in
  vec3Scale avgNormal (fneg dist *! weight).

Definition with_vertices (g : EditableGeometry F) (vs : list F) : EditableGeometry F :=
  mkGeometry (geo_id g) vs (normals g) (uvs g) (indices g) (vertexCount g)
             (edges g) (faces g).

Definition with_normals (g : EditableGeometry F) (ns : list F) : EditableGeometry F :=
  mkGeometry (geo_id g) (vertices g) ns (uvs g) (indices g) (vertexCount g)
             (edges g) (faces g).

(** The displacement of one affected vertex. *)
Definition brushVertex (s : BrushSettings) (hitPoint delta : Vec3 F) (invert : F)
    (affected : list Affected) (g : EditableGeometry F) (a : Affected)
  : EditableGeometry F :=
  let falloff := calculateFalloff (aff_distance a) (radius s) (falloff s) in
  let weight := falloff *! strength s *! invert in
  let v := vec3At (vertices g) (Some (index a)) in
  let n := vec3At (normals g) (Some (index a)) in
  let offset :=
    match type s with
    | grab => vec3Scale delta weight
    | smooth => calculateSmoothOffset g (index a) weight
    | clay =>
        let clayHeight := radius s *! lit 3 10 in
        vec3Scale n (weight *! clayHeight)
    | crease =>
        let toCenter := vec3Sub hitPoint v in
        let creaseAmount := weight *! lit 3 10 in
        vec3Add (vec3Scale toCenter (creaseAmount *! half))
                (vec3Scale n (fneg creaseAmount *! half))
    | inflate => vec3Scale n (weight *! radius s *! lit 2 10)
    | flatten => calculateFlattenOffset g (index a) hitPoint affected weight
    | pinch =>
        let toLine := vec3Sub hitPoint v in
        vec3Scale toLine (weight *! lit 2 10)
    end in
  let i := index a in
  with_vertices g
    (store (store (store (vertices g) (i * 3) (vx v +! vx offset))
                  (i * 3 + 1) (vy v +! vy offset))
           (i * 3 + 2) (vz v +! vz offset)).

Definition applyBrush (s : BrushSettings) (hitPoint delta : Vec3 F) (invert : F)
    (g : EditableGeometry F) : EditableGeometry F :=
  let affected := getAffectedVertices hitPoint (vertices g) (radius s) in
  fold_left (brushVertex s hitPoint delta invert affected) affected g.

Definition with_mesh_geometry (e : SculptEngine) (m : EditableMesh F)
    (g : EditableGeometry F) (b : SculptBrush) : SculptEngine :=
  mkEngine (Some (with_geometry m g)) (originalVertices e) b (symmetry e).

Definition updateStroke (e : SculptEngine) (hitPoint delta : Vec3 F)
  : SculptEngine :=
  match isActive (brush e), mesh e with
  | true, Some m =>
      let s := settings (brush e) in
      let invert := if invert s then fneg one else one in
      let g := applyBrush s hitPoint delta invert (geometry m) in
      let g :=
        if sym_x (symmetry e) then
          applyBrush s (mkVec3 (fneg (vx hitPoint)) (vy hitPoint) (vz hitPoint))
                     (mkVec3 (fneg (vx delta)) (vy delta) (vz delta)) invert g
        else g in
      let g :=
        if sym_y (symmetry e) then
          applyBrush s (mkVec3 (vx hitPoint) (fneg (vy hitPoint)) (vz hitPoint))
                     (mkVec3 (vx delta) (fneg (vy delta)) (vz delta)) invert g
        else g in
      let g :=
        if sym_z (symmetry e) then
          applyBrush s (mkVec3 (vx hitPoint) (vy hitPoint) (fneg (vz hitPoint)))
                     (mkVec3 (vx delta) (vy delta) (fneg (vz delta))) invert g
        else g in
      with_mesh_geometry e m g
        (mkBrush s true (Some hitPoint)
                 (vec3Add (accumulatedDelta (brush e)) delta))
  | _, _ => e
  end.

(** [applySmooth]; [vertices[i] += x] on the typed array. *)
Definition smoothVertex (strength radius : F) (g : EditableGeometry F) (a : Affected)
  : EditableGeometry F :=
  let falloff := calculateFalloff (aff_distance a) radius falloff_smooth in
  let offset := calculateSmoothOffset g (index a) (falloff *! strength) in
  let i := index a in
  let vs := vertices g in
  let vs := store vs (i * 3) (rd vs (i * 3) +! vx offset) in
  let vs := store vs (i * 3 + 1) (rd vs (i * 3 + 1) +! vy offset) in
  let vs := store vs (i * 3 + 2) (rd vs (i * 3 + 2) +! vz offset) in
  with_vertices g vs.

Definition applySmooth (s : BrushSettings) (center : Vec3 F) (strength : F)
    (g : EditableGeometry F) : EditableGeometry F :=
  let affected := getAffectedVertices center (vertices g) (radius s) in
  fold_left (smoothVertex strength (radius s)) affected g.

Definition accumulateFaceNormal (vs : list F) (ns : list F) (tri : idx * idx * idx)
  : list F :=
  let '(i0, i1, i2) := tri in
  let v0 := vec3At vs i0 in
  let v1 := vec3At vs i1 in
  let v2 := vec3At vs i2 in
  let e1 := vec3Sub v1 v0 in
  let e2 := vec3Sub v2 v0 in
  let n := vec3Cross e1 e2 in
  fold_left
    (fun ns i =>
       match i with
       | Some k =>
           let ns := store ns (k * 3) (rd ns (k * 3) +! vx n) in
           let ns := store ns (k * 3 + 1) (rd ns (k * 3 + 1) +! vy n) in
           store ns (k * 3 + 2) (rd ns (k * 3 + 2) +! vz n)
       | None => ns
       end)
    [i0; i1; i2] ns.

Definition normalizeNormal (ns : list F) (i : nat) : list F :=
  let nx := rd ns (i * 3) in
  let ny := rd ns (i * 3 + 1) in
  let nz := rd ns (i * 3 + 2) in
  let len := Math_sqrt (nx *! nx +! ny *! ny +! nz *! nz) in
  if len >! zero then
    store (store (store ns (i * 3) (nx /! len)) (i * 3 + 1) (ny /! len))
          (i * 3 + 2) (nz /! len)
  else ns.

Definition recalculateNormals (g : EditableGeometry F) : EditableGeometry F :=
  let ns := map (fun _ => Math_fround zero) (normals g) in
  let ns := fold_left (accumulateFaceNormal (vertices g)) (triangles (indices g)) ns in
  let ns := fold_left normalizeNormal (vertexRange (length (vertices g))) ns in
  with_normals g ns.

(** [endStroke]; applying the auto-smooth at a [null] last position throws. *)
Definition endStroke (e : SculptEngine) : option SculptEngine :=
  match isActive (brush e), mesh e with
  | true, Some m =>
      let s := settings (brush e) in
      g ← (if autoSmooth s >! zero then
             center ← lastPosition (brush e);
             Some (applySmooth s center (autoSmooth s) (geometry m))
           else Some (geometry m));
      Some (with_mesh_geometry e m (recalculateNormals g)
              (mkBrush s false None (accumulatedDelta (brush e))))
  | _, _ => Some e
  end.

(** [target.set(source)]: a [RangeError] when the source is longer. *)
Definition typedArraySet (target source : list F) : option (list F) :=
  if (length source <=? length target)%nat
  then Some (source ++ drop (length source) target)
  else None.

(** Undo last stroke by restoring original vertices. *)
Definition undoStroke (e : SculptEngine) : option SculptEngine :=
  match mesh e, originalVertices e with
  | Some m, Some original =>
      vs ← typedArraySet (vertices (geometry m)) original;
      Some (with_mesh_geometry e m
              (recalculateNormals (with_vertices (geometry m) vs)) (brush e))
  | _, _ => Some e
  end.
End Sculpt.
End Sculpt.

(** ** Boolean CSG on BSP trees (boolean.ts) *)

Module Boolean.
Section Boolean.
Context {F : Type} `{Number F}.

Inductive BooleanOperation := union | difference | intersect.
Inductive Solver := fast | exact.

Record BooleanOptions := mkOptions {
  operation : BooleanOperation;
  target : EditableMesh F;
  solver : Solver;
}.

Record Plane := mkPlane { normal : Vec3 F; w : F }.

Record Polygon := mkPolygon { poly_vertices : list (Vec3 F); plane : Plane }.

#[local] Set Warnings "-register-all".
Inductive BSPNode :=
| mkNode (node_plane : option Plane) (front back : option BSPNode)
         (polygons : list Polygon).

Definition node_plane (n : BSPNode) : option Plane :=
  match n with mkNode p _ _ _ => p end.
Definition front (n : BSPNode) : option BSPNode :=
  match n with mkNode _ f _ _ => f end.
Definition back (n : BSPNode) : option BSPNode :=
  match n with mkNode _ _ b _ => b end.
Definition polygons (n : BSPNode) : list Polygon :=
  match n with mkNode _ _ _ ps => ps end.

Definition EPSILON : F := lit 1 100000.
Definition COPLANAR : nat := 0.
Definition FRONT : nat := 1.
Definition BACK : nat := 2.
Definition SPANNING : nat := 3.

Definition planeFromPoints (a b c : Vec3 F) : Plane :=
  let n := vec3Normalize (vec3Cross (vec3Sub b a) (vec3Sub c a)) in
  mkPlane n (vec3Dot n a).

Definition planeFlip (plane : Plane) : Plane :=
  mkPlane (vec3Flip (normal plane)) (fneg (w plane)).

Definition classifyPoint (plane : Plane) (point : Vec3 F) : nat :=
  let t := vec3Dot (normal plane) point -! w plane in
  if t <! fneg EPSILON then BACK
  else if t >! EPSILON then FRONT
  else COPLANAR.

(** What one call of [splitPolygon] pushes onto its four lists. *)
Record Pushed := mkPushed {
  coplanarFront : list Polygon;
  coplanarBack : list Polygon;
  pushedFront : list Polygon;
  pushedBack : list Polygon;
}.

(** The vertex loop of the [SPANNING] case; the state is [(f, b)]. *)
Definition splitEdge (plane : Plane) (vs : list (Vec3 F)) (types : list nat)
    (acc : list (Vec3 F) * list (Vec3 F)) (i : nat)
  : list (Vec3 F) * list (Vec3 F) :=
  let j := ((i + 1) mod length vs)%nat in
  let ti := default 0%nat (types !! i) in
  let tj := default 0%nat (types !! j) in
  let vi := default vec3Zero (vs !! i) in
  let vj := default vec3Zero (vs !! j) in
  let f := if decide (ti ≠ BACK) then fst acc ++ [vec3Clone vi] else fst acc in
  let b := if decide (ti ≠ FRONT) then snd acc ++ [vec3Clone vi] else snd acc in
  if decide (Nat.lor ti tj = SPANNING) then
    let t := (w plane -! vec3Dot (normal plane) vi)
             /! vec3Dot (normal plane) (vec3Sub vj vi) in
    let v := vec3Lerp vi vj t in
    (f ++ [v], b ++ [vec3Clone v])
  else (f, b).

Definition splitPolygon (plane : Plane) (polygon : Polygon) : Pushed :=
  let types := map (classifyPoint plane) (poly_vertices polygon) in
  let polygonType := fold_left Nat.lor types 0%nat in
  match polygonType with
  | 0%nat =>
      if vec3Dot (normal plane) (normal (Boolean.plane polygon)) >! zero
      then mkPushed [polygon] [] [] []
      else mkPushed [] [polygon] [] []
  | 1%nat => mkPushed [] [] [polygon] []
  | 2%nat => mkPushed [] [] [] [polygon]
  | 3%nat =>
      let '(f, b) :=
        fold_left (splitEdge plane (poly_vertices polygon) types)
                  (seq 0 (length (poly_vertices polygon))) ([], []) in
      mkPushed [] []
               (if (3 <=? length f)%nat then [mkPolygon f (Boolean.plane polygon)] else [])
               (if (3 <=? length b)%nat then [mkPolygon b (Boolean.plane polygon)] else [])
  | _ => mkPushed [] [] [] []
  end.

Definition emptyNode : BSPNode := mkNode None None None [].

(** The loop of [buildBSP] and [mergeBSP]: coplanar polygons go to the
    node; the state is [(node.polygons, front, back)]. *)
Definition insertPolygon (plane : Plane)
    (acc : list Polygon * list Polygon * list Polygon) (p : Polygon)
  : list Polygon * list Polygon * list Polygon :=
  let '(ps, fr, bk) := acc in
  let s := splitPolygon plane p in
  (ps ++ coplanarFront s ++ coplanarBack s, fr ++ pushedFront s, bk ++ pushedBack s).

(** [fuel] bounds the depth of the recursion; [None] is a recursion that
    does not bottom out within it. *)
Fixpoint buildBSP (fuel : nat) (polys : list Polygon) : option BSPNode :=
  match polys with
  | [] => Some emptyNode
  | p0 :: _ =>
      match fuel with
      | O => None
      | S fuel =>
          let pl := plane p0 in
          let '(ps, fr, bk) := fold_left (insertPolygon pl) polys ([], [], []) in
          f ← (match fr with [] => Some None | _ => Some <$> buildBSP fuel fr end);
          b ← (match bk with [] => Some None | _ => Some <$> buildBSP fuel bk end);
          Some (mkNode (Some pl) f b ps)
      end
  end.

Definition invertPolygon (p : Polygon) : Polygon :=
  mkPolygon (reverse (poly_vertices p)) (planeFlip (plane p)).

Fixpoint invertBSP (node : BSPNode) : BSPNode :=
  match node with
  | mkNode pl f b ps =>
      mkNode (planeFlip <$> pl) (invertBSP <$> b) (invertBSP <$> f)
             (map invertPolygon ps)
  end.

(** The loop of [clipPolygons]; the state is [(front, back)]. *)
Definition clipPolygon (plane : Plane) (acc : list Polygon * list Polygon)
    (p : Polygon) : list Polygon * list Polygon :=
  let s := splitPolygon plane p in
  (fst acc ++ coplanarFront s ++ pushedFront s,
   snd acc ++ coplanarBack s ++ pushedBack s).

Fixpoint clipPolygons (node : BSPNode) (polys : list Polygon) : list Polygon :=
  match node with
  | mkNode None _ _ _ => polys
  | mkNode (Some pl) f b _ =>
      let '(fr, bk) := fold_left (clipPolygon pl) polys ([], []) in
      let fr := match f with Some nf => clipPolygons nf fr | None => fr end in
      let bk := match b with Some nb => clipPolygons nb bk | None => [] end in
      fr ++ bk
  end.

Fixpoint clipTo (a b : BSPNode) : BSPNode :=
  match a with
  | mkNode pl f bk ps =>
      mkNode pl ((fun n => clipTo n b) <$> f) ((fun n => clipTo n b) <$> bk)
             (clipPolygons b ps)
  end.

Fixpoint allPolygons (node : BSPNode) : list Polygon :=
  match node with
  | mkNode _ f b ps =>
      ps ++ match f with Some nf => allPolygons nf | None => [] end
         ++ match b with Some nb => allPolygons nb | None => [] end
  end.

Fixpoint mergeBSP (fuel : nat) (a : BSPNode) (polys : list Polygon)
  : option BSPNode :=
  match fuel with
  | O => None
  | S fuel =>
      match a with
      | mkNode pl f b ps =>
          let pl :=
            match pl, polys with
            | None, p0 :: _ => Some (plane p0)
            | _, _ => pl
            end in
          match pl with
          | None => Some (mkNode None f b ps)
          | Some plane =>
              let '(ps, fr, bk) := fold_left (insertPolygon plane) polys (ps, [], []) in
              f ← (match fr with
                   | [] => Some f
                   | _ => Some <$> mergeBSP fuel (default emptyNode f) fr
                   end);
              b ← (match bk with
                   | [] => Some b
                   | _ => Some <$> mergeBSP fuel (default emptyNode b) bk
                   end);
              Some (mkNode (Some plane) f b ps)
          end
      end
  end.

(** The transform baked into the polygons. *)
Definition applyTransform (transform : Transform3D F) (v : Vec3 F) : Vec3 F :=
  let x := vx v *! vx (scale transform) in
  let y := vy v *! vy (scale transform) in
  let z := vz v *! vz (scale transform) in
  let rotation := rotation transform in
  let cosX := Math_cos (vx rotation) in
  let sinX := Math_sin (vx rotation) in
  let cosY := Math_cos (vy rotation) in
  let sinY := Math_sin (vy rotation) in
  let cosZ := Math_cos (vz rotation) in
  let sinZ := Math_sin (vz rotation) in
  let y1 := y *! cosX -! z *! sinX in
  let z1 := y *! sinX +! z *! cosX in
  let x1 := x *! cosY +! z1 *! sinY in
  let z := fneg x *! sinY +! z1 *! cosY in
  let x := x1 in
  let y := y1 in
  let x1 := x *! cosZ -! y *! sinZ in
  let y1 := x *! sinZ +! y *! cosZ in
  mkVec3 (x1 +! vx (position transform)) (y1 +! vy (position transform))
         (z +! vz (position transform)).

Definition meshToPolygons (mesh : EditableMesh F) : list Polygon :=
  let geometry := geometry mesh in
  map (fun tri : idx * idx * idx =>
         let '(i0, i1, i2) := tri in
         let v0 := applyTransform (transform mesh) (vec3At (vertices geometry) i0) in
         let v1 := applyTransform (transform mesh) (vec3At (vertices geometry) i1) in
         let v2 := applyTransform (transform mesh) (vec3At (vertices geometry) i2) in
         mkPolygon [v0; v1; v2] (planeFromPoints v0 v1 v2))
      (triangles (indices geometry)).

(** The fan of one polygon: the triangles [(0, i, i + 1)]. *)
Definition fan (p : Polygon) : list (Vec3 F) :=
  flat_map (fun i =>
              match poly_vertices p !! 0%nat, poly_vertices p !! i,
                    poly_vertices p !! (i + 1)%nat with
              | Some a, Some b, Some c => [a; b; c]
              | _, _, _ => []
              end)
           (seq 1 (length (poly_vertices p) - 2)).

(** [newId] is the identifier drawn from the clock,
    [`geo-${Date.now().toString(36)}`]. *)
Definition polygonsToGeometry (newId : string) (polys : list Polygon)
  : EditableGeometry F :=
  let corners :=
    flat_map (fun p => map (fun v => (v, normal (plane p))) (fan p)) polys in
  let vs := flat_map (fun c => [vx (fst c); vy (fst c); vz (fst c)]) corners in
  let ns := flat_map (fun c => [vx (snd c); vy (snd c); vz (snd c)]) corners in
  let us := flat_map (fun _ => [zero; zero]) corners in
  let indices : list idx := map Some (seq 0 (length corners)) in
  assemble newId vs ns us indices (rebuildEdges indices) (rebuildFaces indices ns).

Definition identityTransform : Transform3D F :=
  mkTransform (mkVec3 zero zero zero) (mkVec3 zero zero zero) (mkVec3 one one one).

(** The polygons of the result, before they are triangulated. *)
Definition resultPolygons (fuel : nat) (operation : BooleanOperation)
    (aPolygons bPolygons : list Polygon) : option (list Polygon) :=
  a ← buildBSP fuel aPolygons;
  b ← buildBSP fuel bPolygons;
  match operation with
  | union =>
      let a := clipTo a b in
      let b := clipTo b a in
      let b := invertBSP b in
      let b := clipTo b a in
      let b := invertBSP b in
      a ← mergeBSP fuel a (allPolygons b);
      Some (allPolygons a)
  | difference =>
      let a := invertBSP a in
      let a := clipTo a b in
      let b := clipTo b a in
      let b := invertBSP b in
      let b := clipTo b a in
      let b := invertBSP b in
      a ← mergeBSP fuel a (allPolygons b);
      let a := invertBSP a in
      Some (allPolygons a)
  | intersect =>
      let a := invertBSP a in
      let b := clipTo b a in
      let b := invertBSP b in
      let a := clipTo a b in
      let b := clipTo b a in
      a ← mergeBSP fuel a (allPolygons b);
      let a := invertBSP a in
      Some (allPolygons a)
  end.

(** [boolean]; [None] when a BSP recursion does not end within [fuel]. *)
Definition boolean (fuel : nat) (newId : string) (mesh : EditableMesh F)
    (options : BooleanOptions) : option (EditableMesh F) :=
  let aPolygons := meshToPolygons mesh in
  let bPolygons := meshToPolygons (target options) in
  polys ← resultPolygons fuel (operation options) aPolygons bPolygons;
  let newGeometry := polygonsToGeometry newId polys in
  Some (mkMesh (id mesh) (name mesh) newGeometry (material mesh)
               identityTransform (visible mesh) (locked mesh) (parentId mesh)).
End Boolean.
End Boolean.

(** ** Array (array.ts) *)

Module Array.
Section Array.
Context {F : Type} `{Number F}.

Inductive OffsetType := constant | relative | object.

Record ArrayOptions := mkOptions {
  count : Z;
  offset : Vec3 F;
  offsetType : OffsetType;
  mergeVertices : bool;
  mergeThreshold : F;
  startCap : option string;
  endCap : option string;
}.

(** The bounding box of the relative offset. *)
Record Bounds := mkBounds {
  minX : F; minY : F; minZ : F;
  maxX : F; maxY : F; maxZ : F;
}.

Definition grow (vertices : list F) (b : Bounds) (i : nat) : Bounds :=
  let x := rd vertices (i * 3) in
  let y := rd vertices (i * 3 + 1) in
  let z := rd vertices (i * 3 + 2) in
  mkBounds (Math_min (minX b) x) (Math_min (minY b) y) (Math_min (minZ b) z)
           (Math_max (maxX b) x) (Math_max (maxY b) y) (Math_max (maxZ b) z).

Definition boundingBox (geometry : EditableGeometry F) : Bounds :=
  fold_left (grow (vertices geometry)) (seq 0 (vertexCount geometry))
            (mkBounds Infinity Infinity Infinity
                      (fneg Infinity) (fneg Infinity) (fneg Infinity)).

Definition actualOffset (geometry : EditableGeometry F) (options : ArrayOptions)
  : Vec3 F :=
  match offsetType options with
  | relative =>
      let b := boundingBox geometry in
      let sizeX := maxX b -! minX b in
      let sizeY := maxY b -! minY b in
      let sizeZ := maxZ b -! minZ b in
      mkVec3 (sizeX *! vx (offset options)) (sizeY *! vy (offset options))
             (sizeZ *! vz (offset options))
  | _ => offset options
  end.

Record Buffers := mkBuffers {
  newVertices : list F;
  newNormals : list F;
  newUvs : list F;
  newIndices : list idx;
}.

(** One turn of the vertex loop of a copy.  The [mergeMap] the source fills
    here is never read into the output, and is left out. *)
Definition copyVertex (geometry : EditableGeometry F) (copyOffset : Vec3 F)
    (b : Buffers) (i : nat) : Buffers :=
  let x := rd (vertices geometry) (i * 3) +! vx copyOffset in
  let y := rd (vertices geometry) (i * 3 + 1) +! vy copyOffset in
  let z := rd (vertices geometry) (i * 3 + 2) +! vz copyOffset in
  mkBuffers (newVertices b ++ [x; y; z])
            (newNormals b ++ [rd (normals geometry) (i * 3);
                              rd (normals geometry) (i * 3 + 1);
                              rd (normals geometry) (i * 3 + 2)])
            (newUvs b ++ [rd (uvs geometry) (i * 2); rd (uvs geometry) (i * 2 + 1)])
            (newIndices b).

(** One turn of [for (let copy = 0; copy < count; copy++)]. *)
Definition copyGeometry (geometry : EditableGeometry F) (actualOffset : Vec3 F)
    (b : Buffers) (copy : Z) : Buffers :=
  let copyOffset :=
    mkVec3 (vx actualOffset *! of_Z copy) (vy actualOffset *! of_Z copy)
           (vz actualOffset *! of_Z copy) in
  let baseVertex := (length (newVertices b) / 3)%nat in
  let b := fold_left (copyVertex geometry copyOffset)
                     (seq 0 (vertexCount geometry)) b in
  mkBuffers (newVertices b) (newNormals b) (newUvs b)
            (newIndices b
               ++ map (fun i => Some (i + baseVertex)%nat) (indices geometry)).

(** The state of the outer loop of [mergeCloseVertices]; [indexMap] gets
    the keys 0, 1, 2, ... in this order, and is kept as the list of their
    values. *)
Record MergeState := mkMergeState {
  indexMap : list nat;
  keptVertices : list F;
  keptNormals : list F;
  keptUvs : list F;
  newIdx : nat;
}.

Definition mergeVertex (vertices normals uvs : list F) (thresholdSq : F)
    (st : MergeState) (i : nat) : MergeState :=
  let x := rd vertices (i * 3) in
  let y := rd vertices (i * 3 + 1) in
  let z := rd vertices (i * 3 + 2) in
  let close (j : nat) : bool :=
    let dx := rd (keptVertices st) (j * 3) -! x in
    let dy := rd (keptVertices st) (j * 3 + 1) -! y in
    let dz := rd (keptVertices st) (j * 3 + 2) -! z in
    dx *! dx +! dy *! dy +! dz *! dz <! thresholdSq in
  match List.find close (seq 0 (length (keptVertices st) / 3)) with
  | Some j =>
      mkMergeState (indexMap st ++ [j]) (keptVertices st) (keptNormals st)
                   (keptUvs st) (newIdx st)
  | None =>
      mkMergeState (indexMap st ++ [newIdx st])
                   (keptVertices st ++ [x; y; z])
                   (keptNormals st ++ [rd normals (i * 3); rd normals (i * 3 + 1);
                                       rd normals (i * 3 + 2)])
                   (keptUvs st ++ [rd uvs (i * 2); rd uvs (i * 2 + 1)])
                   (S (newIdx st))
  end.

Record Merged := mkMerged {
  merged_vertices : list F;
  merged_normals : list F;
  merged_uvs : list F;
  merged_indices : list nat;
  merged_vertexCount : nat;
}.

Definition mergeCloseVertices (vertices normals uvs : list F) (indices : list nat)
    (threshold : F) : Merged :=
  let vertexCount := (length vertices / 3)%nat in
  let thresholdSq := threshold *! threshold in
  let st := fold_left (mergeVertex vertices normals uvs thresholdSq)
                      (seq 0 vertexCount) (mkMergeState [] [] [] [] 0) in
  let newIndices := map (fun k => Some (default k (indexMap st !! k))) indices in
  mkMerged (Float32Array (keptVertices st)) (Float32Array (keptNormals st))
           (Float32Array (keptUvs st)) (Uint16Array newIndices)
           (length (keptVertices st) / 3)%nat.

Definition array (mesh : EditableMesh F) (options : ArrayOptions) : EditableMesh F :=
  let geometry := geometry mesh in
  if (count options <=? 1)%Z then mesh
  else
    let actualOffset := actualOffset geometry options in
    let b := fold_left (copyGeometry geometry actualOffset)
                       (map Z.of_nat (seq 0 (Z.to_nat (count options))))
                       (mkBuffers [] [] [] []) in
    let final :=
      if mergeVertices options then
        let m := mergeCloseVertices (Float32Array (newVertices b))
                                    (Float32Array (newNormals b))
                                    (Float32Array (newUvs b))
                                    (Uint16Array (newIndices b))
                                    (mergeThreshold options) in
        mkBuffers (merged_vertices m) (merged_normals m) (merged_uvs m)
                  (map Some (merged_indices m))
      else b in
    with_geometry mesh
      (assemble (geo_id geometry) (newVertices final) (newNormals final)
                (newUvs final) (newIndices final)
                (rebuildEdges (newIndices final))
                (rebuildFaces (newIndices final) (newNormals final))).
End Array.
End Array.

(** ** Bridge edge loops (bridge.ts) *)

Module Bridge.
Section Bridge.
Context {F : Type} `{Number F}.

Inductive Blend := linear | smooth | sphere.

Record BridgeOptions := mkOptions {
  loop1 : list nat;
  loop2 : list nat;
  twist : Z;
  segments : Z;
  smoothness : F;
  blend : Blend;
}.

Definition vec3Distance (a b : Vec3 F) : F :=
  let dx := vx b -! vx a in
  let dy := vy b -! vy a in
  let dz := vz b -! vz a in
  Math_sqrt (dx *! dx +! dy *! dy +! dz *! dz).

Definition smoothStep (t : F) : F := t *! t *! (three -! two *! t).

Definition sphereBlend (t : F) : F :=
  Math_sqrt (one -! Math_pow (two *! t -! one) two) *! half +! half.

(** [a[k]] for a whole number [k]: [undefined] below zero and past the end. *)
Definition at_ {A : Type} (a : list A) (k : Z) : option A :=
  if (k <? 0)%Z then None else a !! Z.to_nat k.

(** [(i + offset) % a.length], the remainder taking the sign of the
    dividend. *)
Definition wrap {A : Type} (a : list A) (i : nat) (offset : Z) : Z :=
  Z.rem (Z.of_nat i + offset) (Z.of_nat (length a)).

(** The inner loop of [findOptimalAlignment]; reading [.x] of a missing
    element throws. *)
Definition totalDistance (loop1 loop2 : list (Vec3 F)) (offset : nat) : option F :=
  fold_left (fun total i =>
               totalDist ← total;
               a ← loop1 !! i;
               b ← at_ loop2 (wrap loop2 i (Z.of_nat offset));
               Some (totalDist +! vec3Distance a b))
            (seq 0 (length loop1)) (Some zero).

Definition findOptimalAlignment (loop1 loop2 : list (Vec3 F)) : option nat :=
  if negb (length loop1 =? length loop2)%nat then Some 0%nat
  else
    fst <$>
      fold_left (fun st offset =>
                   '(bestOffset, minDist) ← st;
                   totalDist ← totalDistance loop1 loop2 offset;
                   Some (if totalDist <! minDist then (offset, totalDist)
                         else (bestOffset, minDist)))
                (seq 0 (length loop2)) (Some (0%nat, Infinity)).

Definition getPos (geometry : EditableGeometry F) (i : idx) : Vec3 F :=
  vec3At (vertices geometry) i.
Definition getNormal (geometry : EditableGeometry F) (i : idx) : Vec3 F :=
  vec3At (normals geometry) i.
Definition getUV (geometry : EditableGeometry F) (i : idx) : F * F :=
  (rdAt (uvs geometry) i 2 0, rdAt (uvs geometry) i 2 1).

Record Buffers := mkBuffers {
  newVertices : list F;
  newNormals : list F;
  newUvs : list F;
}.

(** The blend curve applied to [t = s / segments]. *)
Definition blended (b : Blend) (t : F) : F :=
  match b with
  | smooth => smoothStep t
  | sphere => sphereBlend t
  | linear => t
  end.

(** One vertex of an intermediate loop. *)
Definition bridgeVertex (geometry : EditableGeometry F) (options : BridgeOptions)
    (loop1Pos loop2Pos : list (Vec3 F)) (alignmentOffset : Z) (t : F)
    (st : Buffers * list idx) (i : nat) : option (Buffers * list idx) :=
  let '(b, intermediateLoop) := st in
  let i1 := (i mod length (loop1 options))%nat in
  let i2 := wrap (loop2 options) i alignmentOffset in
  let n1 := getNormal geometry (loop1 options !! i1) in
  let n2 := getNormal geometry (at_ (loop2 options) i2) in
  let uv1 := getUV geometry (loop1 options !! i1) in
  let uv2 := getUV geometry (at_ (loop2 options) i2) in
  p1 ← loop1Pos !! i1;
  p2 ← at_ loop2Pos i2;
  let pos := vec3Lerp p1 p2 t in
  let pos :=
    if smoothness options >! zero then
      let bulge := vec3Normalize (vec3Add n1 n2) in
      let bulgeAmount :=
        Math_sin (Math_PI *! t) *! smoothness options *! vec3Distance p1 p2
        *! lit 1 4 in
      vec3Add pos (vec3Scale bulge bulgeAmount)
    else pos in
  let newIdx := (length (newVertices b) / 3)%nat in
  let normal := vec3Normalize (vec3Lerp n1 n2 t) in
  Some (mkBuffers (newVertices b ++ [vx pos; vy pos; vz pos])
                  (newNormals b ++ [vx normal; vy normal; vz normal])
                  (newUvs b ++ [fst uv1 +! t *! (fst uv2 -! fst uv1);
                                snd uv1 +! t *! (snd uv2 -! snd uv1)]),
        intermediateLoop ++ [Some newIdx]).

(** One turn of [for (let s = 1; s < segments; s++)]. *)
Definition bridgeLoop (geometry : EditableGeometry F) (options : BridgeOptions)
    (loop1Pos loop2Pos : list (Vec3 F)) (alignmentOffset : Z)
    (st : option (Buffers * list (list idx))) (s : Z)
  : option (Buffers * list (list idx)) :=
  '(b, allLoops) ← st;
  let t := blended (blend options) (of_Z s /! of_Z (segments options)) in
  let count := (length (loop1 options) `max` length (loop2 options))%nat in
  '(b, intermediateLoop) ←
    fold_left (fun acc i =>
                 st ← acc;
                 bridgeVertex geometry options loop1Pos loop2Pos
                              alignmentOffset t st i)
              (seq 0 count) (Some (b, []));
  Some (b, allLoops ++ [intermediateLoop]).

(** The two triangles of every quad between two consecutive loops. *)
Definition quads (loops : list idx * list idx) : list idx :=
  let '(currentLoop, nextLoop) := loops in
  let count := (length currentLoop `max` length nextLoop)%nat in
  flat_map (fun i =>
              let v0 := mjoin (currentLoop !! (i mod length currentLoop)%nat) in
              let v1 := mjoin (currentLoop !! ((i + 1) mod length currentLoop)%nat) in
              let v2 := mjoin (nextLoop !! (i mod length nextLoop)%nat) in
              let v3 := mjoin (nextLoop !! ((i + 1) mod length nextLoop)%nat) in
              [v0; v1; v3; v0; v3; v2])
           (seq 0 count).

Definition bridgeEdgeLoops (mesh : EditableMesh F) (options : BridgeOptions)
  : option (EditableMesh F) :=
  let geometry := geometry mesh in
  if (length (loop1 options) <? 3)%nat || (length (loop2 options) <? 3)%nat
  then Some mesh
  else
    let loop1Pos := map (fun i => getPos geometry (Some i)) (loop1 options) in
    let loop2Pos := map (fun i => getPos geometry (Some i)) (loop2 options) in
    alignmentOffset ←
      (if (length (loop1 options) =? length (loop2 options))%nat
          && (twist options =? 0)%Z
       then Z.of_nat <$> findOptimalAlignment loop1Pos loop2Pos
       else Some (twist options));
    '(b, allLoops) ←
      fold_left (bridgeLoop geometry options loop1Pos loop2Pos alignmentOffset)
                (map (fun k => Z.of_nat k + 1)%Z
                     (seq 0 (Z.to_nat (segments options - 1))))
                (Some (mkBuffers (vertices geometry) (normals geometry)
                                 (uvs geometry),
                       [map Some (loop1 options)]));
    let allLoops :=
      allLoops
        ++ [imap (fun i _ =>
                    at_ (loop2 options) (wrap (loop2 options) i alignmentOffset))
                 (loop2 options)] in
    let newIndices :=
      map Some (indices geometry)
        ++ flat_map quads (zip allLoops (tail allLoops)) in
    Some (with_geometry mesh
            (assemble (geo_id geometry) (newVertices b) (newNormals b) (newUvs b)
                      newIndices (rebuildEdges newIndices)
                      (rebuildFaces newIndices (newNormals b)))).
End Bridge.
End Bridge.

(** ** Knife (knife.ts) *)

Module Knife.
Section Knife.
Context {F : Type} `{Number F}.

Record KnifeCut := mkKnifeCut {
  points : list (Vec3 F);
  throughCut : bool;
  constrainAngle : bool;
  angleIncrement : F;
}.

Record Intersection := mkIntersection {
  hit_point : Vec3 F;
  hit_t : F;
  bary : Vec3 F;
}.

Definition EPSILON : F := lit 1 1000000.

Definition segmentTriangleIntersect (p0 p1 v0 v1 v2 : Vec3 F)
  : option Intersection :=
  let e1 := vec3Sub v1 v0 in
  let e2 := vec3Sub v2 v0 in
  let dir := vec3Sub p1 p0 in
  let h := vec3Cross dir e2 in
  let a := vec3Dot e1 h in
  if Math_abs a <! EPSILON then None
  else
    let f := one /! a in
    let s := vec3Sub p0 v0 in
    let u := f *! vec3Dot s h in
    if (u <! zero) || (u >! one) then None
    else
      let q := vec3Cross s e1 in
      let v := f *! vec3Dot dir q in
      if (v <! zero) || (u +! v >! one) then None
      else
        let t := f *! vec3Dot e2 q in
        if (t <! zero) || (t >! one) then None
        else
          let point := vec3Add p0 (vec3Scale dir t) in
          Some (mkIntersection point t (mkVec3 (one -! u -! v) u v)).

(** The three growing [number[]] buffers that [splitEdge] pushes to. *)
Record Buffers := mkBuffers {
  vertices_ : list F;
  normals_ : list F;
  uvs_ : list F;
}.

(** [a + t * (b - a)] on the components [off] of two vertices of a buffer. *)
Definition mix (a : list F) (v0 v1 : idx) (stride off : nat) (t : F) : F :=
  rdAt a v0 stride off +! t *! (rdAt a v1 stride off -! rdAt a v0 stride off).

Definition splitEdge (b : Buffers) (v0 v1 : idx) (t : F) : Buffers * nat :=
  let newIdx := (length (vertices_ b) / 3)%nat in
  let x := mix (vertices_ b) v0 v1 3 0 t in
  let y := mix (vertices_ b) v0 v1 3 1 t in
  let z := mix (vertices_ b) v0 v1 3 2 t in
  let nx := mix (normals_ b) v0 v1 3 0 t in
  let ny := mix (normals_ b) v0 v1 3 1 t in
  let nz := mix (normals_ b) v0 v1 3 2 t in
  let u := mix (uvs_ b) v0 v1 2 0 t in
  let v := mix (uvs_ b) v0 v1 2 1 t in
  (mkBuffers (vertices_ b ++ [x; y; z]) (normals_ b ++ [nx; ny; nz])
             (uvs_ b ++ [u; v]),
   newIdx).

(** An entry of [triangleCuts]; [edge] is 0, 1 or 2. *)
Record Cut := mkCut { edge : nat; cut_point : Vec3 F; cut_t : F }.

Definition VERTEX_THRESHOLD : F := lit 5 100.

(** [baryVals[k]] for [k] in 0, 1, 2. *)
Definition baryVal (b : Vec3 F) (k : nat) : F :=
  match k with
  | 0%nat => vx b
  | 1%nat => vy b
  | _ => vz b
  end.

(** [edges[e]] of [[0, 1], [1, 2], [2, 0]]. *)
Definition edgeEnds (e : nat) : nat * nat :=
  match e with
  | 0%nat => (0, 1)%nat
  | 1%nat => (1, 2)%nat
  | _ => (2, 0)%nat
  end.

(** The cut that an intersection adds to its triangle: none near a vertex,
    else the first edge whose opposite weight is below 0.9. *)
Definition cutOf (r : Intersection) : option Cut :=
  let nearVertex :=
    existsb (fun b => b >! one -! VERTEX_THRESHOLD)
            [vx (bary r); vy (bary r); vz (bary r)] in
  if nearVertex then None
  else
    e ← List.find (fun e =>
                     let '(e0, e1) := edgeEnds e in
                     baryVal (bary r) (3 - e0 - e1) <! lit 9 10)
                  [0; 1; 2]%nat;
    let '(e0, e1) := edgeEnds e in
    let b0 := baryVal (bary r) e0 in
    let b1 := baryVal (bary r) e1 in
    Some (mkCut e (hit_point r) (b1 /! (b0 +! b1))).

(** [triangleCuts], a map from the number of a triangle to its cuts, with
    its keys in insertion order. *)
Definition CutMap : Type := list (nat * list Cut).

Definition cuts_get (m : CutMap) (triIdx : nat) : option (list Cut) :=
  snd <$> List.find (fun kv => (fst kv =? triIdx)%nat) m.

(** [if (!triangleCuts.has(triIdx)) triangleCuts.set(triIdx, [])]. *)
Definition cuts_touch (m : CutMap) (triIdx : nat) : CutMap :=
  match cuts_get m triIdx with
  | Some _ => m
  | None => m ++ [(triIdx, [])]
  end.

(** [triangleCuts.get(triIdx)!.push(c)]. *)
Definition cuts_push (m : CutMap) (triIdx : nat) (c : Cut) : CutMap :=
  map (fun kv => if (fst kv =? triIdx)%nat then (fst kv, snd kv ++ [c]) else kv) m.

(** The triangles of the index buffer with their numbers [i / 3]. *)
Definition numbered (indices : list nat) : list (nat * (idx * idx * idx)) :=
  imap (fun k t => (k, t)) (triangles indices).

(** One triangle met by one segment of the path. *)
Definition cutTriangle (geometry : EditableGeometry F) (p0 p1 : Vec3 F)
    (m : CutMap) (tri : nat * (idx * idx * idx)) : CutMap :=
  let '(triIdx, (i0, i1, i2)) := tri in
  let v0 := vec3At (vertices geometry) i0 in
  let v1 := vec3At (vertices geometry) i1 in
  let v2 := vec3At (vertices geometry) i2 in
  match segmentTriangleIntersect p0 p1 v0 v1 v2 with
  | Some result =>
      let m := cuts_touch m triIdx in
      match cutOf result with
      | Some c => cuts_push m triIdx c
      | None => m
      end
  | None => m
  end.

(** One segment of the path, lengthened by 1000 at both ends for a cut
    through the mesh. *)
Definition cutSegment (geometry : EditableGeometry F) (cut : KnifeCut)
    (m : CutMap) (seg : Vec3 F * Vec3 F) : CutMap :=
  let '(segStart, segEnd) := seg in
  let dir := vec3Normalize (vec3Sub segEnd segStart) in
  let p0 := if throughCut cut then vec3Sub segStart (vec3Scale dir (of_Z 1000))
            else segStart in
  let p1 := if throughCut cut then vec3Add segEnd (vec3Scale dir (of_Z 1000))
            else segEnd in
  fold_left (cutTriangle geometry p0 p1) (numbered (indices geometry)) m.

(** [[[i0, i1], [i1, i2], [i2, i0]][edge]]. *)
Definition edgeVertsOf (i0 i1 i2 : idx) (e : nat) : idx * idx :=
  match e with
  | 0%nat => (i0, i1)
  | 1%nat => (i1, i2)
  | _ => (i2, i0)
  end.

(** [[x, y, z][edge]]. *)
Definition pick (x y z : idx) (e : nat) : idx :=
  match e with
  | 0%nat => x
  | 1%nat => y
  | _ => z
  end.

(** [cuts.sort((a, b) => a.edge - b.edge)] on two cuts. *)
Definition sortTwo (c0 c1 : Cut) : Cut * Cut :=
  if (edge c1 <? edge c0)%nat then (c1, c0) else (c0, c1).

(** One turn of the rebuild loop; the state is the three buffers and the
    new index list. *)
Definition rebuildTriangle (m : CutMap) (st : Buffers * list idx)
    (tri : nat * (idx * idx * idx)) : Buffers * list idx :=
  let '(b, indices) := st in
  let '(triIdx, (i0, i1, i2)) := tri in
  match default [] (cuts_get m triIdx) with
  | [] => (b, indices ++ [i0; i1; i2])
  | [c] =>
      let edgeVerts := edgeVertsOf i0 i1 i2 (edge c) in
      let '(b, newVert) := splitEdge b (fst edgeVerts) (snd edgeVerts) (cut_t c) in
      let oppositeVert := pick i2 i0 i1 (edge c) in
      (b, indices ++ [fst edgeVerts; Some newVert; oppositeVert;
                      Some newVert; snd edgeVerts; oppositeVert])
  | [c0; c1] =>
      let '(s0, s1) := sortTwo c0 c1 in
      let edge0 := edge s0 in
      let edge1 := edge s1 in
      let edgeVerts0 := edgeVertsOf i0 i1 i2 edge0 in
      let edgeVerts1 := edgeVertsOf i0 i1 i2 edge1 in
      let '(b, newVert0) :=
        splitEdge b (fst edgeVerts0) (snd edgeVerts0) (cut_t s0) in
      let '(b, newVert1) :=
        splitEdge b (fst edgeVerts1) (snd edgeVerts1) (cut_t s1) in
      if (Z.of_nat edge1 - Z.of_nat edge0 =? 1)%Z
         || ((edge0 =? 0)%nat && (edge1 =? 2)%nat)
      then
        let sharedVert := pick i1 i2 i0 edge0 in
        let startVert := fst edgeVerts0 in
        let endVert := snd edgeVerts1 in
        (b, indices ++ [startVert; Some newVert0; Some newVert1;
                        startVert; Some newVert1; endVert;
                        Some newVert0; sharedVert; Some newVert1])
      else (b, indices ++ [i0; i1; i2])
  | _ => (b, indices ++ [i0; i1; i2])
  end.

(** The consecutive pairs [points[segIdx], points[segIdx + 1]]. *)
Definition pathSegments (points : list (Vec3 F)) : list (Vec3 F * Vec3 F) :=
  zip points (tail points).

Definition knifeCut (mesh : EditableMesh F) (cut : KnifeCut) : EditableMesh F :=
  if (length (points cut) <? 2)%nat then mesh
  else
    let geometry := geometry mesh in
    let triangleCuts :=
      fold_left (cutSegment geometry cut) (pathSegments (points cut)) [] in
    let '(b, indices) :=
      fold_left (rebuildTriangle triangleCuts) (numbered (indices geometry))
                (mkBuffers (vertices geometry) (normals geometry) (uvs geometry),
                 []) in
    with_geometry mesh
      (assemble (geo_id geometry) (vertices_ b) (normals_ b) (uvs_ b) indices
                (rebuildEdges indices) (rebuildFaces indices (normals_ b))).

(** [knifeProject]: the ends of the edges of the projected mesh, one edge
    after the other, are the path of a cut through the mesh. *)
Definition knifeProject (mesh projectMesh : EditableMesh F) (viewDirection : Vec3 F)
  : EditableMesh F :=
  let cuts :=
    flat_map (fun e : Edge =>
                [vec3At (vertices (geometry projectMesh)) (edge_a e);
                 vec3At (vertices (geometry projectMesh)) (edge_b e)])
             (edges (geometry projectMesh)) in
  if (length cuts <? 2)%nat then mesh
  else knifeCut mesh (mkKnifeCut cuts true false zero).
End Knife.
End Knife.

(** ** Mirror (mirror.ts) *)

Module Mirror.
Section Mirror.
Context {F : Type} `{Number F}.

Inductive Axis := axis_x | axis_y | axis_z.

Record MirrorOptions := mkOptions {
  axis : Axis;
  merge : bool;
  mergeThreshold : F;
  flipNormals : bool;
}.

Definition axisIdx (a : Axis) : nat :=
  match a with
  | axis_x => 0
  | axis_y => 1
  | axis_z => 2
  end.

(** [mergeMap.has(i)]: with [merge], the vertices within the threshold of
    the mirror plane. *)
Definition onMirrorPlane (geometry : EditableGeometry F) (options : MirrorOptions)
    (i : nat) : bool :=
  merge options
  && (Math_abs (rd (vertices geometry) (i * 3 + axisIdx (axis options)))
      <! mergeThreshold options).

(** [a[k] = -a[k]] on the array [[x, y, z]]. *)
Definition negateAt (k : nat) (v : Vec3 F) : Vec3 F :=
  match k with
  | 0%nat => mkVec3 (fneg (vx v)) (vy v) (vz v)
  | 1%nat => mkVec3 (vx v) (fneg (vy v)) (vz v)
  | _ => mkVec3 (vx v) (vy v) (fneg (vz v))
  end.

(** [vertexMapping] gets the keys 0, 1, 2, ... in this order and is kept as
    the list of their values. *)
Record Buffers := mkBuffers {
  newVertices : list F;
  newNormals : list F;
  newUvs : list F;
  vertexMapping : list nat;
  newVertexIndex : nat;
}.

Definition mirrorVertex (geometry : EditableGeometry F) (options : MirrorOptions)
    (st : Buffers) (i : nat) : Buffers :=
  if onMirrorPlane geometry options i then
    mkBuffers (newVertices st) (newNormals st) (newUvs st)
              (vertexMapping st ++ [i]) (newVertexIndex st)
  else
    let p := vec3At (vertices geometry) (Some i) in
    let n := vec3At (normals geometry) (Some i) in
    let u := rd (uvs geometry) (i * 2) in
    let v := rd (uvs geometry) (i * 2 + 1) in
    let mirroredPos := negateAt (axisIdx (axis options)) p in
    let mirroredNormal :=
      if flipNormals options then negateAt (axisIdx (axis options)) n else n in
    mkBuffers
      (newVertices st ++ [vx mirroredPos; vy mirroredPos; vz mirroredPos])
      (newNormals st ++ [vx mirroredNormal; vy mirroredNormal; vz mirroredNormal])
      (newUvs st ++ [match axis options with axis_x => one -! u | _ => u end; v])
      (vertexMapping st ++ [newVertexIndex st])
      (S (newVertexIndex st)).

(** [vertexMapping.get(i) ?? i]. *)
Definition mapped (m : list nat) (i : idx) : idx :=
  match i with
  | Some k => Some (default k (m !! k))
  | None => None
  end.

(** The mirrored copy of a triangle, with its winding flipped. *)
Definition mirrorTriangle (m : list nat) (tri : idx * idx * idx) : list idx :=
  let '(i0, i1, i2) := tri in [mapped m i0; mapped m i2; mapped m i1].

Definition mirror (mesh : EditableMesh F) (options : MirrorOptions) : EditableMesh F :=
  let geometry := geometry mesh in
  let origVertexCount := vertexCount geometry in
  let st :=
    fold_left (mirrorVertex geometry options) (seq 0 origVertexCount)
              (mkBuffers (vertices geometry) (normals geometry) (uvs geometry)
                         [] origVertexCount) in
  let newIndices :=
    map Some (indices geometry)
      ++ flat_map (mirrorTriangle (vertexMapping st)) (triangles (indices geometry)) in
  with_geometry mesh
    (assemble (geo_id geometry) (newVertices st) (newNormals st) (newUvs st)
              newIndices (rebuildEdges newIndices)
              (rebuildFaces newIndices (newNormals st))).
End Mirror.
End Mirror.

(** ** Bevel (bevel.ts) *)

Module Bevel.
Section Bevel.
Context {F : Type} `{Number F}.

Record BevelOptions := mkOptions {
  amount : F;
  segments : option Z;
}.

(** [vertexOffsets], a map from a vertex to the offsets pushed for it, with
    its keys in insertion order. *)
Definition Offsets : Type := list (nat * list (Vec3 F)).

(** [if (!vertexOffsets.has(k)) vertexOffsets.set(k, [])]. *)
Definition offsets_touch (m : Offsets) (k : nat) : Offsets :=
  if bool_decide (k ∈ map fst m) then m else m ++ [(k, [])].

(** [vertexOffsets.get(k)!.push(v)]. *)
Definition offsets_push (m : Offsets) (k : nat) (v : Vec3 F) : Offsets :=
  map (fun kv => if (fst kv =? k)%nat then (fst kv, snd kv ++ [v]) else kv) m.

(** The faces that hold both ends of the edge. *)
Definition adjacentFaces (geometry : EditableGeometry F) (a b : nat)
  : list (Face F) :=
  filter (fun face => Some a ∈ face_vertices face /\ Some b ∈ face_vertices face)
         (faces geometry).

(** One adjacent face of a selected edge. *)
Definition offsetFor (amount : F) (edgeDir : Vec3 F) (a b : nat) (m : Offsets)
    (face : Face F) : Offsets :=
  let perpDir := vec3Normalize (vec3Cross edgeDir (face_normal face)) in
  let m := offsets_touch (offsets_touch m a) b in
  let m := offsets_push m a (vec3Scale perpDir amount) in
  offsets_push m b (vec3Scale perpDir amount).

(** One selected edge of the first loop. *)
Definition offsetsOfEdge (geometry : EditableGeometry F) (amount : F) (m : Offsets)
    (e : nat * nat) : Offsets :=
  let '(a, b) := e in
  let va := vec3At (vertices geometry) (Some a) in
  let vb := vec3At (vertices geometry) (Some b) in
  let edgeDir := vec3Normalize (vec3Sub vb va) in
  fold_left (offsetFor amount edgeDir a b) (adjacentFaces geometry a b) m.

Record Buffers := mkBuffers {
  newVertices : list F;
  newNormals : list F;
  newUvs : list F;
  newVertexMap : list (nat * list nat);
}.

(** One offset of a vertex: a new vertex beside it; the state is the three
    buffers and [newVerts]. *)
Definition offsetVertex (geometry : EditableGeometry F) (origIdx : nat)
    (acc : list F * list F * list F * list nat) (offset : Vec3 F)
  : list F * list F * list F * list nat :=
  let '(vs, ns, us, newVerts) := acc in
  let basePos := vec3At (vertices geometry) (Some origIdx) in
  let baseNormal := vec3At (normals geometry) (Some origIdx) in
  let newIdx := (length vs / 3)%nat in
  let newPos := vec3Add basePos offset in
  (vs ++ [vx newPos; vy newPos; vz newPos],
   ns ++ [vx baseNormal; vy baseNormal; vz baseNormal],
   us ++ [rd (uvs geometry) (origIdx * 2); rd (uvs geometry) (origIdx * 2 + 1)],
   newVerts ++ [newIdx]).

(** One entry of [vertexOffsets]; its key is new to [newVertexMap]. *)
Definition offsetVertices (geometry : EditableGeometry F) (b : Buffers)
    (entry : nat * list (Vec3 F)) : Buffers :=
  let '(origIdx, offsets) := entry in
  let '(vs, ns, us, newVerts) :=
    fold_left (offsetVertex geometry origIdx) offsets
              (newVertices b, newNormals b, newUvs b, []) in
  mkBuffers vs ns us (newVertexMap b ++ [(origIdx, newVerts)]).

Definition newVertexMap_get (m : list (nat * list nat)) (k : idx)
  : option (list nat) :=
  k ≫= fun n => snd <$> List.find (fun kv => (fst kv =? n)%nat) m.

(** [newVerts && newVerts.length > 0 ? newVerts[0] : v]. *)
Definition beveled (m : list (nat * list nat)) (v : idx) : idx :=
  match newVertexMap_get m v with
  | Some (n :: _) => Some n
  | _ => v
  end.

Definition bevelTriangle (m : list (nat * list nat)) (tri : idx * idx * idx)
  : list idx :=
  let '(t0, t1, t2) := tri in [beveled m t0; beveled m t1; beveled m t2].

(** The two triangles between a selected edge and its beveled copy. *)
Definition bevelFace (m : list (nat * list nat)) (e : nat * nat) : list idx :=
  let '(a, b) := e in
  match newVertexMap_get m (Some a), newVertexMap_get m (Some b) with
  | Some (a0 :: _), Some (b0 :: _) =>
      [Some a; Some a0; Some b0; Some a; Some b0; Some b]
  | _, _ => []
  end.

(** The faces of the result, with the normal of each triangle taken from
    its corners. *)
Definition bevelFaces (newIndices : list idx) (newVertices : list F)
  : list (Face F) :=
  map (fun t : idx * idx * idx =>
         let '(t0, t1, t2) := t in
         let v0 := vec3At newVertices t0 in
         let v1 := vec3At newVertices t1 in
         let v2 := vec3At newVertices t2 in
         let edge1 := vec3Sub v1 v0 in
         let edge2 := vec3Sub v2 v0 in
         mkFace [t0; t1; t2] (vec3Normalize (vec3Cross edge1 edge2)))
      (indexTriangles newIndices).

Definition bevel (mesh : EditableMesh F) (selectedEdges : list (nat * nat))
    (options : BevelOptions) : EditableMesh F :=
  match selectedEdges with
  | [] => mesh
  | _ =>
      let geometry := geometry mesh in
      let vertexOffsets :=
        fold_left (offsetsOfEdge geometry (amount options)) selectedEdges [] in
      let b :=
        fold_left (offsetVertices geometry) vertexOffsets
                  (mkBuffers (vertices geometry) (normals geometry) (uvs geometry)
                             []) in
      let newIndices :=
        flat_map (bevelTriangle (newVertexMap b)) (triangles (indices geometry))
          ++ flat_map (bevelFace (newVertexMap b)) selectedEdges in
      with_geometry mesh
        (assemble (geo_id geometry) (newVertices b) (newNormals b) (newUvs b)
                  newIndices (rebuildEdges newIndices)
                  (bevelFaces newIndices (newVertices b)))
  end.
End Bevel.
End Bevel.

(** ** The IEEE binary64 interpretation of [Number] *)

Module Float64.

Definition of_Z (z : Z) : float :=
  match z with
  | Z0 => PrimFloat.of_uint63 (Uint63.of_Z 0)
  | Zpos _ => PrimFloat.of_uint63 (Uint63.of_Z z)
  | Zneg p => PrimFloat.opp (PrimFloat.of_uint63 (Uint63.of_Z (Zpos p)))
  end.

Definition is_nan (x : float) : bool := negb (PrimFloat.eqb x x).

(** [Math.min] and [Math.max]: [NaN] is contagious and [-0 < +0]. *)
Definition min (x y : float) : float :=
  if is_nan x || is_nan y then nan
  else if PrimFloat.ltb x y then x
  else if PrimFloat.ltb y x then y
  else if PrimFloat.ltb (PrimFloat.div 1%float x) 0%float then x else y.

Definition max (x y : float) : float :=
  if is_nan x || is_nan y then nan
  else if PrimFloat.ltb x y then y
  else if PrimFloat.ltb y x then x
  else if PrimFloat.ltb (PrimFloat.div 1%float x) 0%float then y else x.

(** [Math.floor], read off the sign, mantissa and exponent. *)
Definition floor (x : float) : jsint :=
  match Prim2SF x with
  | S754_zero _ => JInt 0
  | S754_infinity s => if s then JNegInf else JPosInf
  | S754_nan => JNaN
  | S754_finite s m e =>
      let z := if s then Zneg m else Zpos m in
      JInt (if (0 <=? e)%Z then z * 2 ^ e else z / 2 ^ (- e))
  end.

(** [Math.fround]: round to nearest even in binary32. *)
Definition fround (x : float) : float :=
  match Prim2SF x with
  | S754_finite s m e =>
      SF2Prim (binary_normalize 24 128 (if s then Zneg m else Zpos m) e s)
  | _ => x
  end.

(** ECMAScript leaves [Math.cos], [Math.sin] and [Math.pow] to an
    implementation-approximated result, except at a few arguments: the
    cosine of a zero is 1, the sine of a zero is that zero, and a power with
    a small whole exponent is taken here by repeated multiplication. Away
    from those arguments the truncated series below stand in, and may differ
    from an engine in the last places.  The theorems hold for every instance
    of [Number]; the closed computations run on meshes with rotation zero,
    take sines and cosines of zero only, and take no power. *)
Definition cos (x : float) : float :=
  let x2 := PrimFloat.mul x x in
  PrimFloat.add 1%float
    (PrimFloat.mul x2
       (PrimFloat.add (-0.5)%float
          (PrimFloat.mul x2
             (PrimFloat.add 0x1.5555555555555p-5%float
                (PrimFloat.mul x2 (-0x1.6c16c16c16c17p-10)%float))))).

Definition sin (x : float) : float :=
  let x2 := PrimFloat.mul x x in
  PrimFloat.mul x
    (PrimFloat.add 1%float
       (PrimFloat.mul x2
          (PrimFloat.add (-0x1.5555555555555p-3)%float
             (PrimFloat.mul x2
                (PrimFloat.add 0x1.1111111111111p-7%float
                   (PrimFloat.mul x2 (-0x1.a01a01a01a01ap-13)%float)))))).

Definition pow (x y : float) : float :=
  match floor y with
  | JInt z =>
      if PrimFloat.eqb (of_Z z) y && (0 <=? z)%Z && (z <? 64)%Z
      then Nat.iter (Z.to_nat z) (PrimFloat.mul x) 1%float
      else nan
  | _ => nan
  end.

(** [Math.PI], the double nearest to pi. *)
Definition PI : float := 0x1.921fb54442d18p+1%float.

#[global] Instance float64 : Number float :=
  Build_Number float of_Z nan infinity
               PrimFloat.add PrimFloat.sub PrimFloat.mul PrimFloat.div PrimFloat.opp
               PrimFloat.ltb PrimFloat.leb PrimFloat.eqb
               PrimFloat.sqrt PrimFloat.abs cos sin pow min max floor fround
               PI.
End Float64.


(** * The vocabulary of the statements *)

(** The number of triangles the loops over an index buffer visit; for a
    buffer of whole triangles it is a third of its length. *)
Definition triangleCount {F : Type} (mesh : EditableMesh F) : nat :=
  length (triangles (indices (geometry mesh))).

Section MinimumSearch.
Context {F : Type} `{Number F}.
Context {X R : Type}.
Variable cand : X -> option (R * F).

(** The shape shared by the loops of [raycastMesh] and [raycast]: keep the
    candidate whose distance is below the closest so far. *)
Definition keepCloser (st : option R * F) (x : X) : option R * F :=
  match cand x with
  | Some (h, d) => if d <! snd st then (Some h, d) else st
  | None => st
  end.

(** What such a loop has found after the candidates [xs]. *)
Definition closest_of (xs : list X) (st : option R * F) : Prop :=
  match fst st with
  | None =>
      snd st = Infinity
      /\ forall x h d, x ∈ xs -> cand x = Some (h, d) -> d <! Infinity = false
  | Some h =>
      (exists x, x ∈ xs /\ cand x = Some (h, snd st))
      /\ snd st <! Infinity = true
      /\ forall x h' d, x ∈ xs -> cand x = Some (h', d) -> d <! snd st = false
  end.
End MinimumSearch.

Section RaycastVocabulary.
Context {F : Type} `{Number F}.
Import Raycast.

(** The hit a triangle offers to the search of [raycastMesh]. *)
Definition triangleCandidate (ray : Ray) (mesh : EditableMesh F)
    (it : nat * (idx * idx * idx)) : option (RaycastHit * F) :=
  let r := intersectTriangle ray mesh (snd it) in
  if hit r then Some (mkHit (id mesh) (hit_distance r) (hit_point r) (fst it), hit_distance r)
  else None.

(** The hit a mesh offers to the search of [raycast]. *)
Definition meshCandidate (ray : Ray) (mesh : EditableMesh F)
  : option (RaycastHit * F) :=
  (fun h => (h, distance h)) <$> raycastMesh ray mesh.

(** [ray] hits triangle [i] of the visible mesh [m] at distance [d]. *)
Definition hitsAt (ray : Ray) (m : EditableMesh F) (i : nat) (d : F) : Prop :=
  visible m = true
  /\ exists tri, triangles (indices (geometry m)) !! i = Some tri
       /\ hit (intersectTriangle ray m tri) = true
       /\ d = hit_distance (intersectTriangle ray m tri).

(** The record [raycastMesh] builds for that hit. *)
Definition hitRecord (ray : Ray) (m : EditableMesh F) (i : nat) (h : RaycastHit)
  : Prop :=
  exists tri, triangles (indices (geometry m)) !! i = Some tri
    /\ h = mkHit (id m) (hit_distance (intersectTriangle ray m tri))
                 (hit_point (intersectTriangle ray m tri)) i.
End RaycastVocabulary.

(** The edge list the rebuild derives from the index buffer of a geometry. *)
Definition canonicalEdges {F : Type} (g : EditableGeometry F) : list Edge :=
  rebuildEdges (map Some (indices g)).

Section DecimateVocabulary.
Context {F : Type} `{Number F}.
Import Decimate.

(** The state in which the collapse loop is left, and the number of
    collapses it has made. *)
Definition loopResult (fuel : nat) (mesh : EditableMesh F) (ratio : F)
  : Outcome (@State F * nat) :=
  match setup (geometry mesh) with
  | None => TypeError
  | Some st0 => collapseLoop fuel (targetFaceCount (geometry mesh) ratio) st0 0
  end.

(** The search for the best edge finds no edge to collapse. *)
Definition noCandidate (st : @State F) : Prop :=
  exists bestError bestPos, findBestEdge st = Some (None, bestError, bestPos).

(** The removed vertices are distinct vertices of the working copy. *)
Definition removed_ok (st : @State F) : Prop :=
  NoDup (removedVertices st)
  /\ forall v, v ∈ removedVertices st -> (v < length (st_quadrics st))%nat.

(** The faces that the collapse of [(v1, v2)] takes out of the face list:
    those that have two equal corners once [v2] is replaced by [v1]. *)
Definition collapsedFaces (st : @State F) (v1 v2 : nat) : list (nat * nat * nat) :=
  filter (fun f : nat * nat * nat =>
            degenerate (replaceVertex v2 v1 (fst (fst f)),
                        replaceVertex v2 v1 (snd (fst f)),
                        replaceVertex v2 v1 (snd f)) = true)
         (st_faces st).

(** [k] turns of [while (faces.length > target)], each of which collapses
    an edge, lead from [st] to [st']. *)
Inductive collapsesTo (target : jsint) : @State F -> nat -> @State F -> Prop :=
| collapsesTo_here st : collapsesTo target st 0 st
| collapsesTo_turn st st1 st2 k :
    collapseStep target st = Some (Some st1) ->
    collapsesTo target st1 k st2 ->
    collapsesTo target st (S k) st2.
End DecimateVocabulary.

Section SculptVocabulary.
Context {F : Type} `{Number F}.
Import Sculpt.

(** [beginStroke(hit)] followed by the [updateStroke] calls of [moves]. *)
Definition stroke (e : SculptEngine) (hit : Vec3 F) (moves : list (Vec3 F * Vec3 F))
  : SculptEngine :=
  fold_left (fun e mv => updateStroke e (fst mv) (snd mv)) moves (beginStroke e hit).

(** The engine holds a snapshot as long as the vertex buffer of its mesh. *)
Definition snapshot_of (e : SculptEngine) (original : list F) : Prop :=
  originalVertices e = Some original
  /\ exists m, mesh e = Some m /\ length (vertices (geometry m)) = length original.
End SculptVocabulary.

(** ** Boolean: what the classifier sees *)
Section BooleanVocabulary.
Context {F : Type} `{Number F}.
Import Boolean.
#[local] Abbreviation Plane := (@Boolean.Plane F).
#[local] Abbreviation Polygon := (@Boolean.Polygon F).
#[local] Abbreviation BSPNode := (@Boolean.BSPNode F).

(** Where [splitPolygon] puts a polygon that the plane does not cut. *)
Inductive Side := OnFront | OnBack | InFront | Behind | Spans.

#[global] Instance Side_eq_dec : EqDecision Side.
Proof. solve_decision. Defined.

Definition sideOf (pl : Plane) (q : Polygon) : Side :=
  match fold_left Nat.lor (map (classifyPoint pl) (poly_vertices q)) 0%nat with
  | 0%nat => if vec3Dot (normal pl) (normal (plane q)) >! zero then OnFront else OnBack
  | 1%nat => InFront
  | 2%nat => Behind
  | _ => Spans
  end.

(** [q] lies on the plane of [p] and faces the same way, or lies behind it;
    the classifier is asked from both sides: about the inverted [q], and
    about [q] against the flipped plane. *)
Definition convexPair (p q : Polygon) : bool :=
  match sideOf (plane p) q, sideOf (plane p) (invertPolygon q),
        sideOf (planeFlip (plane p)) q with
  | OnFront, OnBack, OnBack => true
  | Behind, Behind, InFront => true
  | _, _, _ => false
  end.

Definition onOwnPlane (p : Polygon) : bool :=
  match sideOf (plane p) p with OnFront => true | _ => false end.

(** The polygons of a convex solid, as the classifier sees them. *)
Definition convexPolygons (ps : list Polygon) : bool :=
  forallb (fun p => onOwnPlane p && forallb (convexPair p) ps) ps.

(** A BSP tree that is a chain of back children, one level per plane. *)
Fixpoint backChain (levels : list (Plane * list Polygon)) : option BSPNode :=
  match levels with
  | [] => None
  | (pl, ps) :: rest => Some (mkNode (Some pl) None (backChain rest) ps)
  end.


(** The levels of the chain [buildBSP] makes of convex polygons: at each
    level, the polygons on the plane of the first one; below it, the rest. *)
Fixpoint levelsOf (fuel : nat) (polys : list Polygon) : list (Plane * list Polygon) :=
  match fuel, polys with
  | S fuel, p0 :: _ =>
      (plane p0, filter (fun q => sideOf (plane p0) q = OnFront) polys)
        :: levelsOf fuel (filter (fun q => sideOf (plane p0) q = Behind) polys)
  | _, _ => []
  end.




End BooleanVocabulary.



(** ** Loop cut of one edge *)

(** The path along a cut side from [x] to [y] over the fresh vertices [ws]
    of the edge: in their order when [x < y], reversed otherwise. *)
Definition cutPath (x y : idx) (ws : list nat) : list idx :=
  [x] ++ map Some (if LoopCut.idx_lt x y then ws else reverse ws) ++ [y].

(** The fan of triangles from the corner [c] over a path. *)
Definition fanOver (c : idx) (path : list idx) : list idx :=
  flat_map (fun pq : idx * idx => [c; fst pq; snd pq]) (zip path (tail path)).

(** The side from [x] to [y] lies on the edge between [a] and [b]. *)
Definition onEdge (a b : nat) (x y : idx) : bool :=
  bool_decide (edgeKey x y = edgeKey (Some a) (Some b)).

(** What a loop cut of the one edge between [a] and [b] makes of a
    triangle: the fan from the opposite corner over the cut side, or the
    triangle itself when none of its sides is cut. *)
Definition fanned (a b : nat) (ws : list nat) (tri : idx * idx * idx) : list idx :=
  let '(t0, t1, t2) := tri in
  if onEdge a b t0 t1 then fanOver t2 (cutPath t0 t1 ws)
  else if onEdge a b t1 t2 then fanOver t0 (cutPath t1 t2 ws)
  else if onEdge a b t2 t0 then fanOver t1 (cutPath t2 t0 ws)
  else [t0; t1; t2].

Definition hasCutSide (a b : nat) (tri : idx * idx * idx) : bool :=
  let '(t0, t1, t2) := tri in
  onEdge a b t0 t1 || onEdge a b t1 t2 || onEdge a b t2 t0.

(** The three corners of a triangle are three different vertices. *)
Definition threeCorners (tri : idx * idx * idx) : Prop :=
  let '(t0, t1, t2) := tri in
  exists x y z : nat, t0 = Some x /\ t1 = Some y /\ t2 = Some z
                      /\ x <> y /\ y <> z /\ z <> x.

(** ** Invariants of the loops *)

Section LoopVocabulary.
Context {F : Type} `{Number F}.

(** What [getMidpoint] keeps: the buffer it started from is a prefix of the
    vertex buffer, which has grown by one vertex per key of the map. *)
Definition grown (old : list F) (st : @Subdivide.Buffers F) : Prop :=
  take (length old) (Subdivide.newVertices st) = old
  /\ length (Subdivide.newVertices st)
     = (length old + 3 * length (Subdivide.midpointMap st))%nat.

(** The compact arrays of decimation hold [newIdx] vertices, and the map
    sends the vertices met so far to the numbers below [newIdx]. *)
Definition compact_ok (c : @Decimate.Compact F) : Prop :=
  length (Decimate.newVertices c) = (3 * Decimate.newIdx c)%nat
  /\ Forall (fun kv => (snd kv < Decimate.newIdx c)%nat) (Decimate.newVertexMap c).

(** The state of the merge loop after [done] vertices: every old index has
    its entry, which names a kept vertex, and no vertex was added. *)
Definition merge_ok (st : @Array.MergeState F) (done : nat) : Prop :=
  length (Array.indexMap st) = done
  /\ length (Array.keptVertices st) = (3 * Array.newIdx st)%nat
  /\ (Array.newIdx st <= done)%nat
  /\ Forall (fun j => (j < Array.newIdx st)%nat) (Array.indexMap st).

(** The indices of copy number [copy] of an array: those of the input, moved
    up by [copy] times the vertex count. *)
Definition copyIndices (geometry : EditableGeometry F) (copy : nat) : list idx :=
  map (fun i => Some (i + copy * vertexCount geometry)%nat) (indices geometry).

(** The vertices that [mirror] copies: those not merged on the mirror
    plane. *)
Definition mirroredVertices (g : EditableGeometry F) (options : Mirror.MirrorOptions)
  : list nat :=
  filter (fun i => Mirror.onMirrorPlane g options i = false) (seq 0 (vertexCount g)).

(** Two geometries differ at most in the values of their vertex positions
    and normals. *)
Definition sameTopology (g g' : EditableGeometry F) : Prop :=
  geo_id g' = geo_id g /\ uvs g' = uvs g /\ indices g' = indices g
  /\ vertexCount g' = vertexCount g /\ edges g' = edges g /\ faces g' = faces g
  /\ length (vertices g') = length (vertices g).

(** The engine is in a stroke on a mesh that still has the topology of [m0]
    and holds the vertex positions of [m0] as its snapshot. *)
Definition inStroke (e : Sculpt.SculptEngine) (m0 : EditableMesh F) : Prop :=
  Sculpt.isActive (Sculpt.brush e) = true
  /\ is_Some (Sculpt.lastPosition (Sculpt.brush e))
  /\ Sculpt.originalVertices e = Some (vertices (geometry m0))
  /\ exists m, Sculpt.mesh e = Some m /\ id m = id m0
       /\ sameTopology (geometry m0) (geometry m).
End LoopVocabulary.

(** Concrete meshes over binary64, used where a statement is run. *)
Module Examples.
Import Float64.

Definition num (z : Z) : float := Float64.of_Z z.

Definition identity : Transform3D float :=
  mkTransform (mkVec3 (num 0) (num 0) (num 0)) (mkVec3 (num 0) (num 0) (num 0))
              (mkVec3 (num 1) (num 1) (num 1)).

Definition meshOf (g : EditableGeometry float) : EditableMesh float :=
  mkMesh "mesh-1" "Mesh" g (OpaqueMaterial "default") identity true false None.

Definition edgeOf (a b : nat) : Edge := mkEdge (Some a) (Some b).

Definition up : Vec3 float := mkVec3 (num 0) (num 0) (num 1).

(** A mesh without vertices. *)
Definition emptyGeometry : EditableGeometry float :=
  mkGeometry "geo-empty" [] [] [] [] 0 [] [].

(** The triangle (0,0,0), (1,0,0), (0,1,0), facing +z. *)
Definition triangleGeometry : EditableGeometry float :=
  mkGeometry "geo-tri"
    (map num [0; 0; 0;  1; 0; 0;  0; 1; 0])
    (map num [0; 0; 1;  0; 0; 1;  0; 0; 1])
    (map num [0; 0;  1; 0;  0; 1])
    [0; 1; 2]%nat 3
    [edgeOf 0 1; edgeOf 1 2; edgeOf 0 2]
    [mkFace [Some 0; Some 1; Some 2]%nat up].

Definition triangleMesh : EditableMesh float := meshOf triangleGeometry.

(** A ray down the z axis through the triangle, from z = 5. *)
Definition rayDown : Raycast.Ray :=
  Raycast.mkRay (mkVec3 (lit 1 4) (lit 1 4) (num 5)) (mkVec3 (num 0) (num 0) (num (-1))).
(** Five coplanar triangles; the first two share the edge (0, 1). *)
Definition fiveGeometry : EditableGeometry float :=
  mkGeometry "geo-five"
    (map num [0; 0; 0;  2; 0; 0;  1; 1; 0;  1; -1; 0;  -1; 1; 0;  3; 1; 0;  -1; -1; 0])
    (map num [0; 0; 1;  0; 0; 1;  0; 0; 1;  0; 0; 1;  0; 0; 1;  0; 0; 1;  0; 0; 1])
    (map num [0; 0;  0; 0;  0; 0;  0; 0;  0; 0;  0; 0;  0; 0])
    [0; 1; 2;  1; 0; 3;  0; 2; 4;  2; 1; 5;  0; 3; 6]%nat 7
    (rebuildEdges (map Some [0; 1; 2;  1; 0; 3;  0; 2; 4;  2; 1; 5;  0; 3; 6]%nat))
    [mkFace [Some 0; Some 1; Some 2]%nat up; mkFace [Some 1; Some 0; Some 3]%nat up;
     mkFace [Some 0; Some 2; Some 4]%nat up; mkFace [Some 2; Some 1; Some 5]%nat up;
     mkFace [Some 0; Some 3; Some 6]%nat up].

Definition fiveMesh : EditableMesh float := meshOf fiveGeometry.

(** [{ ratio: 0, mode: 'collapse' }]. *)
Definition ratioZero : Decimate.DecimateOptions :=
  Decimate.mkOptions (num 0) Decimate.collapse false Decimate.axis_x.
(** An engine bound to the triangle, and two moves of a grab stroke. *)
Definition boundEngine : Sculpt.SculptEngine :=
  Sculpt.setMesh Sculpt.constructor triangleMesh.

Definition grabMoves : list (Vec3 float * Vec3 float) :=
  [(mkVec3 (num 0) (num 0) (num 0), mkVec3 (num 0) (num 0) (lit 1 10));
   (mkVec3 (num 1) (num 0) (num 0), mkVec3 (lit 1 10) (num 0) (num 0))].

(** The triangle with both of its sides: the same corners wound both ways. *)
Definition twoSidedGeometry : EditableGeometry float :=
  mkGeometry "geo-sheet"
    (map num [0; 0; 0;  1; 0; 0;  0; 1; 0])
    (map num [0; 0; 1;  0; 0; 1;  0; 0; 1])
    (map num [0; 0;  1; 0;  0; 1])
    [0; 1; 2;  0; 2; 1]%nat 3
    [edgeOf 0 1; edgeOf 1 2; edgeOf 0 2]
    [mkFace [Some 0; Some 1; Some 2]%nat up; mkFace [Some 0; Some 2; Some 1]%nat up].

Definition twoSided : EditableMesh float := meshOf twoSidedGeometry.

(** The vertex, normal, uv and index buffers of [createCube()]: 24 vertices,
    two triangles a side.  The edge and face lists are left empty, no operator
    run on the cube below reads them. *)
Definition h : float := lit 1 2.
Definition nh : float := PrimFloat.opp h.

Definition cubeGeometry : EditableGeometry float :=
  mkGeometry "geo-cube"
    [nh; nh; h;   h; nh; h;   h; h; h;   nh; h; h;
     h; nh; nh;   nh; nh; nh;   nh; h; nh;   h; h; nh;
     nh; h; h;   h; h; h;   h; h; nh;   nh; h; nh;
     nh; nh; nh;   h; nh; nh;   h; nh; h;   nh; nh; h;
     h; nh; h;   h; nh; nh;   h; h; nh;   h; h; h;
     nh; nh; nh;   nh; nh; h;   nh; h; h;   nh; h; nh]
    (map num [0; 0; 1;  0; 0; 1;  0; 0; 1;  0; 0; 1;
              0; 0; -1;  0; 0; -1;  0; 0; -1;  0; 0; -1;
              0; 1; 0;  0; 1; 0;  0; 1; 0;  0; 1; 0;
              0; -1; 0;  0; -1; 0;  0; -1; 0;  0; -1; 0;
              1; 0; 0;  1; 0; 0;  1; 0; 0;  1; 0; 0;
              -1; 0; 0;  -1; 0; 0;  -1; 0; 0;  -1; 0; 0])
    (map num [0; 0; 1; 0; 1; 1; 0; 1;  0; 0; 1; 0; 1; 1; 0; 1;  0; 0; 1; 0; 1; 1; 0; 1;
              0; 0; 1; 0; 1; 1; 0; 1;  0; 0; 1; 0; 1; 1; 0; 1;  0; 0; 1; 0; 1; 1; 0; 1])
    [0; 1; 2; 0; 2; 3;  4; 5; 6; 4; 6; 7;  8; 9; 10; 8; 10; 11;
     12; 13; 14; 12; 14; 15;  16; 17; 18; 16; 18; 19;  20; 21; 22; 20; 22; 23]%nat
    24 [] [].

Definition cube : EditableMesh float := meshOf cubeGeometry.





(** The triangle, hidden. *)
Definition hiddenMesh : EditableMesh float :=
  mkMesh "mesh-2" "Hidden" triangleGeometry (OpaqueMaterial "default") identity
         false false None.

(** A triangle whose last index names no vertex. *)
Definition strayGeometry : EditableGeometry float :=
  mkGeometry "geo-stray"
    (map num [0; 0; 0;  1; 0; 0;  0; 1; 0])
    (map num [0; 0; 1;  0; 0; 1;  0; 0; 1])
    (map num [0; 0;  1; 0;  0; 1])
    [0; 1; 5]%nat 3 [] [].

Definition strayMesh : EditableMesh float := meshOf strayGeometry.

Definition origin : Vec3 float := mkVec3 (num 0) (num 0) (num 0).

(** Two copies, two units apart along x, not merged. *)
Definition twoCopies : Array.ArrayOptions :=
  Array.mkOptions 2 (mkVec3 (num 2) (num 0) (num 0)) Array.constant false (num 0)
                  None None.

(** A vertical cut through the inside of the triangle. *)
Definition verticalCut : Knife.KnifeCut :=
  Knife.mkKnifeCut [mkVec3 (lit 1 4) (lit 1 4) (num 1);
                    mkVec3 (lit 1 4) (lit 1 4) (num (-1))]
                   false false (num 0).

(** A bridge between three corners of the front and of the back of the
    cube, with one intermediate loop. *)
Definition frontToBack (twist : Z) : Bridge.BridgeOptions :=
  Bridge.mkOptions [0; 1; 2]%nat [4; 5; 6]%nat twist 2 (num 0) Bridge.linear.

Definition mirrorX : Mirror.MirrorOptions :=
  Mirror.mkOptions Mirror.axis_x false (num 0) true.
End Examples.
(** * Properties *)

(** ** The order of binary64 *)

Lemma SFltb_irrefl (a : spec_float) : SFltb a a = false.
Proof.
  unfold SFltb, SFcompare.
  destruct a as [s|s| |s m e]; try destruct s; try reflexivity;
    rewrite Z.compare_refl; cbn;
    change (PosDef.Pos.compare_cont Eq m m) with (Pos.compare m m);
    rewrite Pos.compare_refl; reflexivity.
Qed.

Ltac sf_cases :=
  repeat match goal with
  | s : bool |- _ => destruct s
  | |- context [Z.compare ?a ?b] => destruct (Z.compare_spec a b)
  | H : context [Z.compare ?a ?b] |- _ => destruct (Z.compare_spec a b)
  | |- context [Pos.compare ?a ?b] => destruct (Pos.compare_spec a b)
  | H : context [Pos.compare ?a ?b] |- _ => destruct (Pos.compare_spec a b)
  end; cbn in *; try congruence; try lia.

Lemma SFltb_trans (a b c : spec_float) :
  SFltb a b = true -> SFltb b c = true -> SFltb a c = true.
Proof.
  unfold SFltb, SFcompare.
  change PosDef.Pos.compare_cont with Pos.compare_cont.
  destruct a as [sa|sa| |sa ma ea], b as [sb|sb| |sb mb eb], c as [sc|sc| |sc mc ec];
    cbn; try congruence;
    change (Pos.compare_cont Eq) with Pos.compare in *; sf_cases.
Qed.

Lemma SFltb_cotrans (e a b c : spec_float) :
  SFltb e b = true -> SFltb a c = true -> SFltb a b = true \/ SFltb b c = true.
Proof.
  unfold SFltb, SFcompare.
  change PosDef.Pos.compare_cont with Pos.compare_cont.
  destruct a as [sa|sa| |sa ma ea], b as [sb|sb| |sb mb eb], c as [sc|sc| |sc mc ec],
           e as [se|se| |se me ee];
    cbn; try congruence; try (intros; tauto);
    change (Pos.compare_cont Eq) with Pos.compare in *; intros He Hac.
  all: clear He.
  all: try (left; reflexivity); try (right; reflexivity).
  all: sf_cases; try (left; reflexivity); try (right; reflexivity).
Qed.

#[global] Instance float64_order : NumberOrder float.
Proof.
  split; cbn.
  - intros x. rewrite FloatAxioms.ltb_spec. apply SFltb_irrefl.
  - intros x y z. rewrite !FloatAxioms.ltb_spec. apply SFltb_trans.
  - intros e x y z. rewrite !FloatAxioms.ltb_spec. apply SFltb_cotrans.
Qed.

(** ** Minimum searches *)

Section MinimumSearchFacts.
Context {F : Type} `{NumberOrder F}.
Context {X R : Type}.
Variable cand : X -> option (R * F).

Lemma flt_false_trans (x y z : F) :
  y <! z = true -> x <! z = false -> x <! y = false.
Proof.
  intros Hyz Hxz. destruct (x <! y) eqn:Hxy; [|reflexivity].
  rewrite (flt_trans _ _ _ Hxy Hyz) in Hxz. discriminate.
Qed.

Lemma keepCloser_closest (xs : list X) :
  closest_of cand xs (fold_left (keepCloser cand) xs (None, Infinity)).
Proof.
  induction xs as [|x xs IH] using rev_ind.
  - cbn. split; [reflexivity|]. intros x h d Hx. inversion Hx.
  - rewrite fold_left_app. cbn.
    destruct (fold_left (keepCloser cand) xs (None, Infinity)) as [r dist].
    unfold keepCloser at 1. cbn [snd].
    unfold closest_of in *. cbn [fst snd] in *.
    destruct (cand x) as [[h d]|] eqn:Hc.
    + destruct (d <! dist) eqn:Hlt; cbn [fst snd].
      * (* the new candidate is closer *)
        assert (Hinf : d <! Infinity = true).
        { destruct r; [destruct IH as (_ & Hd & _); eauto using flt_trans
                      |destruct IH as [-> _]; exact Hlt]. }
        split; [exists x; split; [apply elem_of_app; right; apply list_elem_of_singleton; reflexivity|exact Hc]|].
        split; [exact Hinf|].
        intros x' h' d' Hx' Hc'. apply elem_of_app in Hx' as [Hx'|Hx'].
        -- destruct r.
           ++ destruct IH as (_ & _ & Hmin).
              eapply flt_false_trans; [exact Hlt|eauto].
           ++ destruct IH as [-> Hnone].
              eapply flt_false_trans; [exact Hlt|eauto].
        -- apply list_elem_of_singleton in Hx' as ->.
           rewrite Hc in Hc'. injection Hc' as _ <-. apply flt_irrefl.
      * destruct r.
        -- destruct IH as ((x0 & Hx0 & Hc0) & Hd & Hmin).
           split; [exists x0; split; [apply elem_of_app; left; exact Hx0|exact Hc0]|].
           split; [exact Hd|].
           intros x' h' d' Hx' Hc'. apply elem_of_app in Hx' as [Hx'|Hx']; [eauto|].
           apply list_elem_of_singleton in Hx' as ->.
           rewrite Hc in Hc'. injection Hc' as _ <-. exact Hlt.
        -- destruct IH as [-> Hnone]. split; [reflexivity|].
           intros x' h' d' Hx' Hc'. apply elem_of_app in Hx' as [Hx'|Hx']; [eauto|].
           apply list_elem_of_singleton in Hx' as ->.
           rewrite Hc in Hc'. injection Hc' as _ <-. exact Hlt.
    + destruct r.
      * destruct IH as ((x0 & Hx0 & Hc0) & Hd & Hmin).
        split; [exists x0; split; [apply elem_of_app; left; exact Hx0|exact Hc0]|].
        split; [exact Hd|].
        intros x' h' d' Hx' Hc'. apply elem_of_app in Hx' as [Hx'|Hx']; [eauto|].
        apply list_elem_of_singleton in Hx' as ->. congruence.
      * destruct IH as [-> Hnone]. split; [reflexivity|].
        intros x' h' d' Hx' Hc'. apply elem_of_app in Hx' as [Hx'|Hx']; [eauto|].
        apply list_elem_of_singleton in Hx' as ->. congruence.
Qed.
End MinimumSearchFacts.

(** ** Picking *)

Section RaycastFacts.
Context {F : Type} `{NumberOrder F}.
Import Raycast.

Lemma raycastMesh_step_keepCloser (ray : Ray) (mesh : EditableMesh F) st it :
  raycastMesh_step ray mesh st it = keepCloser (triangleCandidate ray mesh) st it.
Proof.
  unfold raycastMesh_step, keepCloser, triangleCandidate.
  destruct (hit (intersectTriangle ray mesh (snd it))); cbn; [|reflexivity].
  destruct (_ <! snd st); reflexivity.
Qed.

Lemma raycast_step_keepCloser (ray : Ray) st (mesh : EditableMesh F) :
  raycast_step ray st mesh = keepCloser (meshCandidate ray) st mesh.
Proof.
  unfold raycast_step, keepCloser, meshCandidate.
  destruct (raycastMesh ray mesh); reflexivity.
Qed.

Lemma fold_left_ext_eq {A B : Type} (f g : A -> B -> A) (l : list B) (a : A) :
  (forall a b, f a b = g a b) -> fold_left f l a = fold_left g l a.
Proof.
  intros E. revert a. induction l as [|b l IH]; intros a; cbn; [reflexivity|].
  rewrite E. apply IH.
Qed.

Lemma hit_beyond_epsilon (ray : Ray) (v0 v1 v2 : Vec3 F) :
  hit (rayTriangleIntersect ray v0 v1 v2) = true ->
  EPSILON <! hit_distance (rayTriangleIntersect ray v0 v1 v2) = true.
Proof.
  unfold rayTriangleIntersect.
  repeat match goal with
         | |- context [if ?b then _ else _] => destruct b eqn:?
         end; cbn; congruence.
Qed.

Lemma raycastMesh_closest (ray : Ray) (mesh : EditableMesh F) :
  match raycastMesh ray mesh with
  | Some h =>
      (exists i, hitsAt ray mesh i (distance h) /\ hitRecord ray mesh i h)
      /\ distance h <! Infinity = true
      /\ forall i d, hitsAt ray mesh i d -> d <! distance h = false
  | None => forall i d, hitsAt ray mesh i d -> d <! Infinity = false
  end.
Proof.
  unfold raycastMesh. destruct (visible mesh) eqn:Hv; cbn.
  2:{ intros i d [Hv' _]. congruence. }
  rewrite (fold_left_ext_eq _ _ _ _ (raycastMesh_step_keepCloser ray mesh)).
  pose proof (keepCloser_closest (triangleCandidate ray mesh)
                (imap pair (triangles (indices (geometry mesh))))) as Hc.
  destruct (fold_left _ _ _) as [r dist]. unfold closest_of in Hc. cbn [fst snd] in *.
  assert (Hall : forall i d, hitsAt ray mesh i d ->
            exists it h, it ∈ imap pair (triangles (indices (geometry mesh)))
                         /\ triangleCandidate ray mesh it = Some (h, d)).
  { intros i d (_ & tri & Hi & Hh & ->). exists (i, tri). eexists. split.
    - apply elem_of_lookup_imap. exists i, tri. split; [reflexivity|exact Hi].
    - unfold triangleCandidate. cbn. rewrite Hh. reflexivity. }
  destruct r as [h|].
  - destruct Hc as ((it & Hit & Hcand) & Hd & Hmin).
    apply elem_of_lookup_imap in Hit as (i & tri & -> & Hi).
    unfold triangleCandidate in Hcand. cbn in Hcand.
    destruct (hit (intersectTriangle ray mesh tri)) eqn:Hh; [|discriminate].
    injection Hcand as <- <-. cbn.
    split; [|split; [exact Hd|]].
    + exists i. split.
      * split; [exact Hv|]. exists tri. auto.
      * exists tri. auto.
    + intros j d Hj. destruct (Hall j d Hj) as (it & h' & Hit & Hc').
      eapply Hmin; eauto.
  - destruct Hc as [_ Hnone]. intros j d Hj.
    destruct (Hall j d Hj) as (it & h' & Hit & Hc'). eapply Hnone; eauto.
Qed.

(** C6. [raycast] returns the hit with the smallest distance over all the
    triangles of all the visible meshes: the hit it returns is the record of
    a triangle of a visible mesh that the ray hits, its distance lies beyond
    the epsilon of the intersection test, and no triangle of a visible mesh
    is hit at a smaller distance. It returns [None] when no triangle of a
    visible mesh is hit (a reported distance that is not below [Infinity]
    never becomes the closest hit). Invisible meshes take no part. *)
Theorem raycast_returns_closest_hit (ray : Ray) (meshes : list (EditableMesh F)) :
  match raycast ray meshes with
  | Some h =>
      (exists m i, m ∈ meshes /\ hitsAt ray m i (distance h) /\ hitRecord ray m i h)
      /\ EPSILON <! distance h = true
      /\ forall m i d, m ∈ meshes -> hitsAt ray m i d -> d <! distance h = false
  | None =>
      forall m i d, m ∈ meshes -> hitsAt ray m i d -> d <! Infinity = false
  end.
Proof.
  unfold raycast.
  rewrite (fold_left_ext_eq _ _ _ _ (raycast_step_keepCloser ray)).
  pose proof (keepCloser_closest (meshCandidate ray) meshes) as Hc.
  destruct (fold_left _ _ _) as [r dist]. unfold closest_of in Hc. cbn [fst snd] in *.
  destruct r as [h|].
  - destruct Hc as ((m & Hm & Hcand) & Hd & Hmin).
    unfold meshCandidate in Hcand.
    pose proof (raycastMesh_closest ray m) as Hmesh.
    destruct (raycastMesh ray m) as [hm|]; [|discriminate].
    cbn in Hcand. injection Hcand as -> <-.
    destruct Hmesh as ((i & Hi & Hrec) & Hinf & _).
    split; [exists m, i; auto|].
    split.
    { destruct Hi as (_ & tri & _ & Hh & ->).
      destruct tri as [[i0 i1] i2]. apply hit_beyond_epsilon, Hh. }
    intros m' j d Hm' Hj.
    pose proof (raycastMesh_closest ray m') as Hmesh'.
    destruct (raycastMesh ray m') as [hm'|] eqn:Hr'.
    + destruct Hmesh' as ((i' & Hi' & _) & _ & Hmin').
      specialize (Hmin' j d Hj).
      assert (Hs : distance hm' <! distance h = false).
      { eapply Hmin; [exact Hm'|]. unfold meshCandidate. rewrite Hr'. reflexivity. }
      destruct (d <! distance h) eqn:Hlt; [|reflexivity].
      assert (He : EPSILON <! distance hm' = true).
      { destruct Hi' as (_ & tri & _ & Hh & ->).
        destruct tri as [[i0 i1] i2]. apply hit_beyond_epsilon, Hh. }
      destruct (flt_cotrans _ _ _ _ He Hlt); congruence.
    + specialize (Hmesh' j d Hj).
      eapply flt_false_trans; [exact Hinf|exact Hmesh'].
  - destruct Hc as [_ Hnone]. intros m j d Hm Hj.
    pose proof (raycastMesh_closest ray m) as Hmesh.
    destruct (raycastMesh ray m) as [hm|] eqn:Hr.
    + destruct Hmesh as (_ & Hinf & Hmin).
      specialize (Hmin j d Hj).
      assert (Hs : distance hm <! Infinity = false).
      { eapply Hnone; [exact Hm|]. unfold meshCandidate. rewrite Hr. reflexivity. }
      congruence.
    + eapply Hmesh, Hj.
Qed.

(** C9. On a mesh without vertices [findClosestVertex] answers 0, which is
    no vertex of the mesh; every mesh with one vertex gets the same answer,
    so the answer alone does not tell the caller which case it is. *)
Theorem findClosestVertex_no_vertices (mesh : EditableMesh F) (point : Vec3 F) :
  vertexCount (geometry mesh) = 0%nat ->
  findClosestVertex mesh point = 0%nat
  /\ ~ (findClosestVertex mesh point < vertexCount (geometry mesh))%nat
  /\ forall (mesh' : EditableMesh F) (point' : Vec3 F),
       vertexCount (geometry mesh') = 1%nat ->
       findClosestVertex mesh' point' = findClosestVertex mesh point.
Proof.
  intros Hn. unfold findClosestVertex. rewrite Hn. cbn.
  split; [reflexivity|]. split; [lia|].
  intros mesh' point' ->. cbn. unfold findClosestVertex_step. cbn.
  destruct (_ <! Infinity); reflexivity.
Qed.
End RaycastFacts.

Lemma raycast_returns_closest_hit_witness :
  match Raycast.raycast Examples.rayDown [Examples.triangleMesh] with
  | Some h =>
      (exists m i, m ∈ [Examples.triangleMesh]
         /\ hitsAt Examples.rayDown m i (Raycast.distance h)
         /\ hitRecord Examples.rayDown m i h)
      /\ Raycast.EPSILON <! Raycast.distance h = true
      /\ forall m i d, m ∈ [Examples.triangleMesh] ->
           hitsAt Examples.rayDown m i d -> d <! Raycast.distance h = false
  | None =>
      forall m i d, m ∈ [Examples.triangleMesh] ->
        hitsAt Examples.rayDown m i d -> d <! Infinity = false
  end.
Proof.
  exact (raycast_returns_closest_hit (H0 := float64_order) Examples.rayDown
           [Examples.triangleMesh]).
Defined.

Lemma findClosestVertex_no_vertices_witness :
  vertexCount (geometry (Examples.meshOf Examples.emptyGeometry)) = 0%nat
  /\ Raycast.findClosestVertex (Examples.meshOf Examples.emptyGeometry) Examples.up = 0%nat.
Proof.
  split; [reflexivity|].
  exact (proj1 (findClosestVertex_no_vertices
                  (Examples.meshOf Examples.emptyGeometry) Examples.up eq_refl)).
Defined.

(** ** Subdivide *)

Lemma triangles_ind {A : Type} (P : list A -> Prop) :
  P [] -> (forall a, P [a]) -> (forall a b, P [a; b]) ->
  (forall a b c r, P r -> P (a :: b :: c :: r)) ->
  forall l, P l.
Proof.
  intros H0 H1 H2 H3.
  fix IH 1. intros [|a [|b [|c r]]]; [apply H0|apply H1|apply H2|apply H3, IH].
Qed.

Lemma length_triangles {A : Type} (l : list A) :
  length (triangles l) = ((length l + 2) / 3)%nat.
Proof.
  induction l as [|a|a b|a b c r IH] using triangles_ind; try reflexivity.
  cbn [triangles length]. rewrite IH.
  replace (S (S (S (length r))) + 2)%nat with ((length r + 2) + 1 * 3)%nat by lia.
  rewrite Nat.div_add by lia. lia.
Qed.

Lemma length_triangles_whole {A : Type} (l : list A) (n : nat) :
  length l = (3 * n)%nat -> length (triangles l) = n.
Proof.
  intros E. rewrite length_triangles, E.
  replace (3 * n + 2)%nat with (2 + n * 3)%nat by lia.
  rewrite Nat.div_add by lia. reflexivity.
Qed.

Section SubdivideFacts.
Context {F : Type} `{Number F}.
Import Subdivide.

Lemma splitTriangle_length (acc : Buffers * list idx) (tri : idx * idx * idx) :
  length (snd (splitTriangle acc tri)) = (length (snd acc) + 12)%nat.
Proof.
  unfold splitTriangle. destruct tri as [[v0 v1] v2].
  destruct (getMidpoint (fst acc) v0 v1) as [st1 m01].
  destruct (getMidpoint st1 v1 v2) as [st2 m12].
  destruct (getMidpoint st2 v2 v0) as [st3 m20].
  cbn [snd]. rewrite length_app. reflexivity.
Qed.

Lemma splitTriangles_length (tris : list (idx * idx * idx)) (acc : Buffers * list idx) :
  length (snd (fold_left splitTriangle tris acc))
  = (length (snd acc) + 12 * length tris)%nat.
Proof.
  revert acc. induction tris as [|t tris IH]; intros acc; cbn [fold_left length].
  - lia.
  - rewrite IH, splitTriangle_length. lia.
Qed.

Lemma subdivideOnce_indices (mesh : EditableMesh F) (smooth : bool) :
  length (indices (geometry (subdivideOnce mesh smooth)))
  = (3 * (4 * triangleCount mesh))%nat.
Proof.
  unfold subdivideOnce, triangleCount.
  pose proof (splitTriangles_length (triangles (indices (geometry mesh)))
                (mkBuffers (vertices (geometry mesh)) (normals (geometry mesh))
                           (uvs (geometry mesh)) [], [])) as E.
  destruct (fold_left splitTriangle _ _) as [st newIndices].
  cbn [snd length] in E. cbn [geometry with_geometry assemble indices]. unfold Uint16Array. rewrite length_map, E. lia.
Qed.

Lemma subdivideOnce_triangleCount (mesh : EditableMesh F) (smooth : bool) :
  triangleCount (subdivideOnce mesh smooth) = (4 * triangleCount mesh)%nat.
Proof.
  unfold triangleCount at 1. apply length_triangles_whole, subdivideOnce_indices.
Qed.

(** C7. Subdividing with [iterations: 0] returns the mesh itself, and with
    [iterations: 2] it returns sixteen times as many triangles: the index
    buffer holds three indices for each of them. *)
Theorem subdivide_identity_and_sixteenfold (mesh : EditableMesh F) (smooth : option bool) :
  subdivide mesh (mkOptions (Some 0) smooth) = mesh
  /\ triangleCount (subdivide mesh (mkOptions (Some 2) smooth))
     = (16 * triangleCount mesh)%nat
  /\ length (indices (geometry (subdivide mesh (mkOptions (Some 2) smooth))))
     = (3 * (16 * triangleCount mesh))%nat.
Proof.
  split; [reflexivity|].
  unfold subdivide. cbn [iterations Subdivide.smooth default]. 
  change (Z.to_nat (Datatypes.id 2)) with 2%nat. cbn [Nat.iter nat_rect].
  split.
  - rewrite !subdivideOnce_triangleCount. lia.
  - rewrite subdivideOnce_indices, subdivideOnce_triangleCount. lia.
Qed.
End SubdivideFacts.

(** ** Decimate *)

Section DecimateFacts.
Context {F : Type} `{Number F}.
Import Decimate.

Lemma bounded_NoDup_length (l : list nat) (n : nat) :
  NoDup l -> (forall v, v ∈ l -> (v < n)%nat) -> (length l <= n)%nat.
Proof.
  intros Hnd Hlt.
  rewrite <- (length_seq n 0). apply submseteq_length, NoDup_submseteq; [exact Hnd|].
  intros v Hv. apply elem_of_seq. specialize (Hlt v Hv). lia.
Qed.

(** The best edge, when there is one, has passed the checks of the search. *)
Lemma tryEdge_candidate (st : @State F) (edges : list (nat * nat)) acc r :
  (forall v1 v2 e p, acc = Some (Some (v1, v2), e, p) ->
     (v2 ∉ removedVertices st) /\ is_Some (st_quadrics st !! v1)
     /\ is_Some (st_quadrics st !! v2)) ->
  fold_left (tryEdge st) edges acc = Some r ->
  forall v1 v2, fst (fst r) = Some (v1, v2) ->
    (v2 ∉ removedVertices st) /\ is_Some (st_quadrics st !! v1)
    /\ is_Some (st_quadrics st !! v2).
Proof.
  revert acc. induction edges as [|[a b] edges IH]; intros acc Hacc Hfold v1 v2 Hr.
  - cbn in Hfold. subst acc. destruct r as [[be e] p]. cbn in Hr. subst be.
    eapply Hacc. reflexivity.
  - cbn [fold_left] in Hfold. eapply IH; [|exact Hfold|exact Hr].
    intros w1 w2 e p Hstep.
    destruct acc as [[[be0 e0] p0]|]; [|discriminate Hstep].
    unfold tryEdge in Hstep. cbn [mbind option_bind] in Hstep.
    destruct (bool_decide (a ∈ removedVertices st)) eqn:Ha;
      destruct (bool_decide (b ∈ removedVertices st)) eqn:Hb;
      cbn [orb] in Hstep;
      try (injection Hstep as -> -> ->; eapply Hacc; reflexivity).
    destruct (st_quadrics st !! a) as [q1|] eqn:Hq1; [|discriminate Hstep].
    destruct (st_quadrics st !! b) as [q2|] eqn:Hq2; [|discriminate Hstep].
    cbn [mbind option_bind] in Hstep.
    destruct (st_vertices st !! a) as [p1|]; [|discriminate Hstep].
    destruct (st_vertices st !! b) as [p2|]; [|discriminate Hstep].
    cbn [mbind option_bind] in Hstep.
    destruct (_ <! e0).
    + injection Hstep as <- <- _ _.
      apply bool_decide_eq_false in Hb. rewrite Hq1, Hq2. eauto.
    + injection Hstep as -> -> ->. eapply Hacc. reflexivity.
Qed.

Lemma collapseStep_next (target : jsint) (st st' : @State F) :
  collapseStep target st = Some (Some st') ->
  length (st_quadrics st') = length (st_quadrics st)
  /\ exists v2, removedVertices st' = removedVertices st ++ [v2]
       /\ (v2 ∉ removedVertices st) /\ (v2 < length (st_quadrics st))%nat.
Proof.
  unfold collapseStep. destruct (length_gt _ _); [|discriminate].
  destruct (findBestEdge st) as [[[be e] p]|] eqn:Hbest; cbn; [|discriminate].
  destruct be as [[v1 v2]|]; [|discriminate].
  unfold findBestEdge in Hbest.
  destruct (tryEdge_candidate st (st_edges st) (Some (None, Infinity, vec3Zero))
              (Some (v1, v2), e, p)) with (v1 := v1) (v2 := v2)
    as (Hnot & [q1 Hq1] & [q2 Hq2]);
    [intros ? ? ? ? [=]|exact Hbest|reflexivity|].
  unfold collapseEdge. rewrite Hq1, Hq2. cbn. intros [= <-]. cbn.
  split; [apply length_insert|].
  exists v2. split; [reflexivity|]. split; [exact Hnot|].
  eapply lookup_lt_Some, Hq2.
Qed.

Lemma collapseStep_removed_ok (target : jsint) (st st' : @State F) :
  removed_ok st -> collapseStep target st = Some (Some st') ->
  removed_ok st'
  /\ length (st_quadrics st') = length (st_quadrics st)
  /\ length (removedVertices st') = S (length (removedVertices st)).
Proof.
  intros [Hnd Hlt] Hstep.
  destruct (collapseStep_next _ _ _ Hstep) as (Hlen & v2 & Hrem & Hnot & Hv2).
  split; [split|split].
  - rewrite Hrem. apply NoDup_app. split; [exact Hnd|]. split.
    + intros x Hx Hx'. apply list_elem_of_singleton in Hx'. subst. contradiction.
    + apply NoDup_singleton.
  - intros v Hv. rewrite Hlen. rewrite Hrem in Hv.
    apply elem_of_app in Hv as [Hv|Hv]; [auto|].
    apply list_elem_of_singleton in Hv. subst. exact Hv2.
  - exact Hlen.
  - rewrite Hrem, length_app. cbn. lia.
Qed.

(** The loop ends within as many turns as there are vertices left to remove. *)
Lemma collapseLoop_terminates (target : jsint) (fuel : nat) :
  forall (st : @State F) (n : nat),
    removed_ok st ->
    (length (st_quadrics st) - length (removedVertices st) < fuel)%nat ->
    match collapseLoop fuel target st n with
    | Ok (_, n') =>
        (n' <= n + (length (st_quadrics st) - length (removedVertices st)))%nat
    | TypeError => True
    | OutOfFuel => False
    end.
Proof.
  induction fuel as [|fuel IH]; intros st n Hok Hfuel; [lia|].
  cbn [collapseLoop].
  destruct (collapseStep target st) as [[st'|]|] eqn:Hstep; [|lia|exact I].
  destruct (collapseStep_removed_ok _ _ _ Hok Hstep) as (Hok' & Hlen & Hrem).
  pose proof (bounded_NoDup_length _ _ (proj1 Hok') (proj2 Hok')) as Hb.
  specialize (IH st' (S n) Hok' ltac:(lia)).
  destruct (collapseLoop fuel target st' (S n)) as [[st'' n']| |]; [lia|exact I|exact IH].
Qed.

Lemma accumulateQuadric_length (vs : list (Vec3 F)) acc face qs fs :
  accumulateQuadric vs acc face = Some (qs, fs) ->
  exists qs0 fs0, acc = Some (qs0, fs0) /\ length qs = length qs0.
Proof.
  unfold accumulateQuadric. destruct acc as [[qs0 fs0]|]; [|discriminate].
  cbn. destruct face as [[i0 i1] i2].
  destruct (vertexOf vs i0); [|discriminate]. cbn.
  destruct (vertexOf vs i1); [|discriminate]. cbn.
  destruct (vertexOf vs i2); [|discriminate]. cbn.
  destruct i0 as [n0|]; [|discriminate]. cbn.
  destruct i1 as [n1|]; [|discriminate]. cbn.
  destruct i2 as [n2|]; [|discriminate]. cbn.
  intros [= <- <-]. exists qs0, fs0. split; [reflexivity|].
  rewrite !length_alter. reflexivity.
Qed.

Lemma accumulateQuadrics_length (vs : list (Vec3 F)) faces acc qs fs :
  fold_left (accumulateQuadric vs) faces acc = Some (qs, fs) ->
  exists qs0 fs0, acc = Some (qs0, fs0) /\ length qs = length qs0.
Proof.
  revert acc. induction faces as [|f faces IH]; intros acc Hfold.
  - cbn in Hfold. eauto.
  - cbn [fold_left] in Hfold. destruct (IH _ Hfold) as (qs1 & fs1 & Hstep & Hlen).
    destruct (accumulateQuadric_length _ _ _ _ _ Hstep) as (qs0 & fs0 & -> & Hlen').
    exists qs0, fs0. split; [reflexivity|lia].
Qed.

Lemma setup_state (g : EditableGeometry F) (st0 : @State F) :
  setup g = Some st0 ->
  removedVertices st0 = [] /\ length (st_quadrics st0) = vertexCount g.
Proof.
  unfold setup.
  destruct (fold_left _ _ _) as [[qs fs]|] eqn:Hfold; [|discriminate].
  cbn. intros [= <-]. cbn. split; [reflexivity|].
  destruct (accumulateQuadrics_length _ _ _ _ _ Hfold) as (qs0 & fs0 & [= <- <-] & ->).
  apply length_replicate.
Qed.

(** C10. Decimation in collapse mode ends: with a budget of one more turn
    than the mesh has vertices the collapse loop never runs out, and it makes
    at most [vertexCount] collapses, because every collapse removes a vertex
    that was not removed before. *)
Theorem decimate_collapse_terminates (mesh : EditableMesh F) (ratio : F)
    (symmetry : bool) (axis : Axis) (spare : nat) :
  let fuel := (S (vertexCount (geometry mesh)) + spare)%nat in
  decimate fuel mesh (mkOptions ratio collapse symmetry axis) <> OutOfFuel
  /\ match loopResult fuel mesh ratio with
     | Ok (_, collapses) => (collapses <= vertexCount (geometry mesh))%nat
     | TypeError => True
     | OutOfFuel => False
     end.
Proof.
  intros fuel.
  assert (Hloop : match loopResult fuel mesh ratio with
                  | Ok (_, collapses) => (collapses <= vertexCount (geometry mesh))%nat
                  | TypeError => True
                  | OutOfFuel => False
                  end).
  { unfold loopResult. destruct (setup (geometry mesh)) as [st0|] eqn:Hs; [|exact I].
    destruct (setup_state _ _ Hs) as [Hrem Hlen].
    pose proof (collapseLoop_terminates (targetFaceCount (geometry mesh) ratio) fuel
                  st0 0) as Ht.
    rewrite Hrem, Hlen in Ht. cbn [length] in Ht.
    specialize (Ht ltac:(split; [rewrite Hrem; constructor
                                |rewrite Hrem; intros v Hv; inversion Hv])
                   ltac:(unfold fuel; lia)).
    destruct (collapseLoop _ _ _ _) as [[st n]| |]; [lia|exact I|exact Ht]. }
  split; [|exact Hloop].
  unfold decimate. cbn [Decimate.ratio mode].
  destruct (_ <=! ratio); [discriminate|].
  unfold decimateCollapse. unfold loopResult in Hloop.
  destruct (setup (geometry mesh)) as [st0|]; [|discriminate].
  destruct (collapseLoop _ _ _ _) as [[st n]| |]; [|discriminate|contradiction].
  destruct (rebuild mesh st); discriminate.
Qed.

(** When the loop is left, the target is reached or no edge is a candidate. *)
Lemma collapseLoop_exit (target : jsint) (fuel : nat) :
  forall (st st' : @State F) (n n' : nat),
    collapseLoop fuel target st n = Ok (st', n') ->
    length_gt (length (st_faces st')) target = false \/ noCandidate st'.
Proof.
  induction fuel as [|fuel IH]; intros st st' n n' Hloop; [discriminate|].
  cbn [collapseLoop] in Hloop.
  destruct (collapseStep target st) as [[st1|]|] eqn:Hstep; [eauto| |discriminate].
  injection Hloop as <- <-.
  unfold collapseStep in Hstep.
  destruct (length_gt _ _); [|left; reflexivity].
  destruct (findBestEdge st) as [[[be e] p]|] eqn:Hbest; [|discriminate]. cbn in Hstep.
  destruct be as [[v1 v2]|].
  - destruct (collapseEdge st v1 v2 p); discriminate.
  - right. exists e, p. exact Hbest.
Qed.

Lemma flat_map_length_const {A B : Type} (f : A -> list B) (k : nat) (l : list A) :
  (forall a, length (f a) = k) -> length (flat_map f l) = (k * length l)%nat.
Proof.
  intros Hf. induction l as [|a l IH]; cbn [flat_map length]; [lia|].
  rewrite length_app, Hf, IH. lia.
Qed.

Lemma rebuild_triangleCount (mesh m' : EditableMesh F) (st : @State F) :
  rebuild mesh st = Some m' -> triangleCount m' = length (st_faces st).
Proof.
  unfold rebuild. destruct (fold_left _ _ _) as [c|]; [|discriminate].
  cbn. intros [= <-]. unfold triangleCount. cbn.
  apply length_triangles_whole. unfold Uint16Array. rewrite length_map.
  apply flat_map_length_const. intros [[f0 f1] f2]. reflexivity.
Qed.

Lemma accumulateQuadric_None (vs : list (Vec3 F)) (faces : list (idx * idx * idx)) :
  fold_left (accumulateQuadric vs) faces None = None.
Proof. induction faces as [|f faces IH]; [reflexivity|exact IH]. Qed.

Lemma accumulateQuadrics_faces (vs : list (Vec3 F)) (faces : list (idx * idx * idx)) :
  forall qs0 fs0 qs fs,
    fold_left (accumulateQuadric vs) faces (Some (qs0, fs0)) = Some (qs, fs) ->
    length fs = (length fs0 + length faces)%nat.
Proof.
  induction faces as [|f faces IH]; intros qs0 fs0 qs fs E; cbn [fold_left length] in *.
  - injection E as _ <-. lia.
  - destruct (accumulateQuadric vs (Some (qs0, fs0)) f) as [[qs1 fs1]|] eqn:E1;
      [|rewrite accumulateQuadric_None in E; discriminate E].
    rewrite (IH _ _ _ _ E).
    unfold accumulateQuadric in E1. cbn [mbind option_bind] in E1.
    destruct f as [[i0 i1] i2].
    destruct (vertexOf vs i0); [|discriminate E1].
    destruct (vertexOf vs i1); [|discriminate E1].
    destruct (vertexOf vs i2); [|discriminate E1].
    destruct i0; [|discriminate E1]. destruct i1; [|discriminate E1].
    destruct i2; [|discriminate E1]. cbn in E1. injection E1 as _ <-.
    rewrite length_app. cbn [length]. lia.
Qed.

Lemma setup_faces (g : EditableGeometry F) (st0 : @State F) :
  setup g = Some st0 -> length (st_faces st0) = length (triangles (indices g)).
Proof.
  unfold setup. intros E.
  destruct (fold_left _ _ _) as [[qs fs]|] eqn:Efold; [|discriminate E].
  cbn in E. injection E as <-. cbn [st_faces].
  apply accumulateQuadrics_faces in Efold. cbn [length] in Efold. exact Efold.
Qed.

Lemma collapsesTo_last (target : jsint) (st st2 : @State F) (k : nat) :
  collapsesTo target st (S k) st2 ->
  exists prev, collapsesTo target st k prev
               /\ collapseStep target prev = Some (Some st2).
Proof.
  revert st. induction k as [|k IH]; intros st Hrun.
  - inversion Hrun as [|? st1 ? ? Hstep Hrest]; subst.
    inversion Hrest; subst. exists st. split; [constructor|exact Hstep].
  - inversion Hrun as [|? st1 ? ? Hstep Hrest]; subst.
    destruct (IH _ Hrest) as (prev & Hprev & Hlast).
    exists prev. split; [econstructor; eassumption|exact Hlast].
Qed.

(** The run of the loop, turn by turn. *)
Lemma collapseLoop_run (target : jsint) (fuel : nat) :
  forall (st st' : @State F) (n n' : nat),
    collapseLoop fuel target st n = Ok (st', n') ->
    exists k, n' = (n + k)%nat /\ collapsesTo target st k st'.
Proof.
  induction fuel as [|fuel IH]; intros st st' n n' Hloop; [discriminate|].
  cbn [collapseLoop] in Hloop.
  destruct (collapseStep target st) as [[st1|]|] eqn:Hstep; [| |discriminate].
  - destruct (IH _ _ _ _ Hloop) as (k & -> & Hrun).
    exists (S k). split; [lia|]. econstructor; eassumption.
  - injection Hloop as <- <-. exists 0%nat. split; [lia|constructor].
Qed.

(** A turn that collapses an edge starts above the target, on the best
    edge, and takes the collapsed faces out of the face list. *)
Lemma collapseStep_turn (z : Z) (st st' : @State F) :
  collapseStep (JInt z) st = Some (Some st') ->
  (z < Z.of_nat (length (st_faces st)))%Z
  /\ exists v1 v2 e pos,
       findBestEdge st = Some (Some (v1, v2), e, pos)
       /\ collapseEdge st v1 v2 pos = Some st'
       /\ (length (st_faces st') + length (collapsedFaces st v1 v2)
           = length (st_faces st))%nat.
Proof.
  unfold collapseStep. cbn [length_gt].
  destruct (Z.ltb_spec z (Z.of_nat (length (st_faces st)))) as [Hgt|_]; [|discriminate].
  destruct (findBestEdge st) as [[[be e] pos]|]; [|discriminate]. cbn [mbind option_bind].
  destruct be as [[v1 v2]|]; [|discriminate].
  destruct (collapseEdge st v1 v2 pos) as [st1|] eqn:Hedge; [|discriminate].
  cbn. intros [= <-]. split; [exact Hgt|].
  exists v1, v2, e, pos. split; [reflexivity|]. split; [exact Hedge|].
  unfold collapseEdge in Hedge.
  destruct (st_quadrics st !! v1); [|discriminate].
  destruct (st_quadrics st !! v2); [|discriminate]. cbn in Hedge.
  injection Hedge as <-. cbn [st_faces]. unfold collapsedFaces. clear Hgt.
  induction (st_faces st) as [|f fs IH]; [reflexivity|].
  cbn [map]. rewrite !filter_cons.
  destruct (degenerate _) eqn:Hd.
  - rewrite decide_False by discriminate. rewrite decide_True by reflexivity.
    cbn [length]. lia.
  - rewrite decide_True by reflexivity. rewrite decide_False by discriminate.
    cbn [length]. lia.
Qed.

(** Of the faces with three different corners, a collapse takes out those
    that hold both ends of the edge. *)
Lemma collapsedFaces_spec (st : @State F) (v1 v2 : nat) (f : nat * nat * nat) :
  v1 <> v2 -> degenerate f = false ->
  (f ∈ collapsedFaces st v1 v2
   <-> f ∈ st_faces st /\ v1 ∈ faceVertices f /\ v2 ∈ faceVertices f).
Proof.
  intros Hne Hf. unfold collapsedFaces. rewrite list_elem_of_filter.
  destruct f as [[a b] c]. cbn [fst snd faceVertices].
  unfold degenerate in *. unfold replaceVertex.
  rewrite !elem_of_cons, !elem_of_nil.
  apply orb_false_iff in Hf as [Hf Hca]. apply orb_false_iff in Hf as [Hab Hbc].
  apply bool_decide_eq_false in Hab, Hbc, Hca.
  split.
  - intros [Hd Hin]. split; [exact Hin|].
    repeat destruct (decide (_ = v2)); subst;
      rewrite !orb_true_iff, !bool_decide_eq_true in Hd;
      intuition (subst; try congruence; auto).
  - intros [Hin [H1 H2]]. split; [|exact Hin].
    repeat destruct (decide (_ = v2)); subst;
      rewrite !orb_true_iff, !bool_decide_eq_true;
      intuition (subst; try congruence; auto).
Qed.

(** C2, as amended.  When the target face count is the floor 4, as it is at
    [ratio = 0], a decimation in collapse mode that returns a mesh returns
    the triangles the collapse loop has left.  No collapse starts at 4
    triangles or fewer: a mesh of at most 4 triangles keeps its triangle
    count.  On a mesh of more than 4 triangles the loop stops for want of a
    candidate edge or at 4 triangles or fewer, and then its last collapse
    started above 4 triangles and took out of the face list the faces with
    two equal corners once the collapsed vertex is replaced, which for a
    face of three different corners are those that hold both ends of the
    edge; so the count may pass below 4, but not below 3 when the last
    collapse takes out at most two triangles. *)
Theorem decimate_floor_reached_or_no_candidate (fuel : nat) (mesh m' : EditableMesh F)
    (options : DecimateOptions) :
  mode options = collapse ->
  ratio options >=! one = false ->
  targetFaceCount (geometry mesh) (ratio options) = JInt 4 ->
  decimate fuel mesh options = Ok m' ->
  exists st0 st collapses,
    setup (geometry mesh) = Some st0
    /\ loopResult fuel mesh (ratio options) = Ok (st, collapses)
    /\ collapsesTo (JInt 4) st0 collapses st
    /\ triangleCount m' = length (st_faces st)
    /\ ((triangleCount m' <= 4)%nat \/ noCandidate st)
    /\ match collapses with
       | O => triangleCount m' = triangleCount mesh
       | S k =>
           (4 < triangleCount mesh)%nat
           /\ exists prev v1 v2 e pos,
                collapsesTo (JInt 4) st0 k prev
                /\ (4 < length (st_faces prev))%nat
                /\ findBestEdge prev = Some (Some (v1, v2), e, pos)
                /\ collapseEdge prev v1 v2 pos = Some st
                /\ (triangleCount m' + length (collapsedFaces prev v1 v2)
                    = length (st_faces prev))%nat
                /\ (forall f, v1 <> v2 -> degenerate f = false ->
                      (f ∈ collapsedFaces prev v1 v2
                       <-> f ∈ st_faces prev
                           /\ v1 ∈ faceVertices f /\ v2 ∈ faceVertices f))
                /\ ((length (collapsedFaces prev v1 v2) <= 2)%nat ->
                    (3 <= triangleCount m')%nat)
       end.
Proof.
  intros Hmode Hratio Htarget. unfold decimate. rewrite Hratio, Hmode.
  unfold decimateCollapse, loopResult. rewrite Htarget.
  destruct (setup (geometry mesh)) as [st0|] eqn:Hsetup; [|discriminate].
  destruct (collapseLoop fuel (JInt 4) st0 0) as [[st n]| |] eqn:Hloop; try discriminate.
  destruct (rebuild mesh st) as [m|] eqn:Hre; [|discriminate]. cbn. intros [= <-].
  exists st0, st, n. split; [reflexivity|]. split; [reflexivity|].
  pose proof (rebuild_triangleCount _ _ _ Hre) as Hcount.
  destruct (collapseLoop_run _ _ _ _ _ _ Hloop) as (k & Hn & Hrun). cbn in Hn. subst k.
  split; [exact Hrun|]. split; [exact Hcount|]. split.
  { destruct (collapseLoop_exit _ _ _ _ _ _ Hloop) as [Hgt|Hno]; [left|right; exact Hno].
    rewrite Hcount. cbn in Hgt. lia. }
  pose proof (setup_faces _ _ Hsetup) as Hfaces.
  destruct n as [|k].
  - inversion Hrun; subst. rewrite Hcount. exact Hfaces.
  - split.
    + inversion Hrun as [|? st1 ? ? Hstep _]; subst.
      apply collapseStep_turn in Hstep as [Hgt _]. unfold triangleCount. lia.
    + destruct (collapsesTo_last _ _ _ _ Hrun) as (prev & Hprev & Hlast).
      apply collapseStep_turn in Hlast as (Hgt & v1 & v2 & e & pos & Hbest & Hedge & Hlen).
      exists prev, v1, v2, e, pos.
      split; [exact Hprev|]. split; [lia|]. split; [exact Hbest|]. split; [exact Hedge|].
      split; [lia|]. split; [|lia].
      intros f Hne Hf. apply collapsedFaces_spec; assumption.
Qed.
End DecimateFacts.

(** C2, as stated, fails: five triangles decimated at [ratio = 0] come out
    as three, because the collapse of an edge removes every triangle that
    holds both its ends. *)
Lemma decimate_ratio_zero_below_floor :
  (4 < triangleCount Examples.fiveMesh)%nat
  /\ exists m', Decimate.decimate 8 Examples.fiveMesh Examples.ratioZero = Ok m'
       /\ triangleCount m' = 3%nat
       /\ triangleCount m' <> 4%nat.
Proof.
  split; [vm_compute; lia|].
  eexists. split; [vm_compute; reflexivity|].
  split; [reflexivity|]. vm_compute. discriminate.
Qed.

Lemma decimate_floor_witness :
  exists m',
    Decimate.decimate 8 Examples.fiveMesh Examples.ratioZero = Ok m'
    /\ triangleCount m' = 3%nat
    /\ exists st0 st collapses,
         Decimate.setup (geometry Examples.fiveMesh) = Some st0
         /\ loopResult 8 Examples.fiveMesh (Decimate.ratio Examples.ratioZero)
            = Ok (st, collapses)
         /\ collapsesTo (JInt 4) st0 collapses st
         /\ triangleCount m' = length (Decimate.st_faces st)
         /\ ((triangleCount m' <= 4)%nat \/ noCandidate st).
Proof.
  destruct (Decimate.decimate 8 Examples.fiveMesh Examples.ratioZero) as [m'| |] eqn:E;
    [|vm_compute in E; discriminate|vm_compute in E; discriminate].
  destruct (decimate_floor_reached_or_no_candidate 8 Examples.fiveMesh m'
              Examples.ratioZero)
    as (st0 & st & n & H1 & H2 & H3 & H4 & H5 & _);
    [reflexivity|vm_compute; reflexivity|vm_compute; reflexivity|exact E|].
  exists m'. split; [reflexivity|]. split.
  - vm_compute in E. injection E as <-. reflexivity.
  - exists st0, st, n. auto.
Defined.

(** ** Loop cut *)

(** C4, at the failing input. With [numberOfCuts: 0] and the edge (0, 1)
    selected, the one triangle (0, 1, 2) is not kept: it is fanned around two
    [undefined] cut vertices, which the index buffer stores as 0. *)
Theorem loopCut_zero_cuts_changes_triangle :
  let m := LoopCut.loopCut Examples.triangleMesh [(0, 1)%nat]
                           (LoopCut.mkOptions (Some 0) None) in
  indices (geometry m) = [2; 0; 0; 2; 0; 1]%nat
  /\ edges (geometry m) = [Examples.edgeOf 0 2; mkEdge None None; Examples.edgeOf 1 2]
  /\ indices (geometry m) <> indices (geometry Examples.triangleMesh).
Proof.
  split; [vm_compute; reflexivity|].
  split; [vm_compute; reflexivity|].
  vm_compute. discriminate.
Qed.


(** ** Extrude *)

(** C1, at the failing input. Extruding the one face of a triangle returns
    an edge list that is not the edge set of the returned index buffer: the
    rails of the side quads are listed twice, and the sides of the moved
    triangle, such as (3, 4), are missing. *)
Theorem extrude_edges_not_rebuilt :
  exists m,
    Extrude.extrude Examples.triangleMesh [0%nat]
                    (Extrude.mkOptions (Examples.num 1) None) = Some m
    /\ indices (geometry m)
       = [3; 4; 5; 0; 1; 4; 0; 4; 3; 1; 2; 5; 1; 5; 4; 2; 0; 3; 2; 3; 5]%nat
    /\ edges (geometry m)
       = [Examples.edgeOf 0 1; Examples.edgeOf 1 2; Examples.edgeOf 0 2;
          Examples.edgeOf 0 3; Examples.edgeOf 1 4; Examples.edgeOf 1 4;
          Examples.edgeOf 2 5; Examples.edgeOf 2 5; Examples.edgeOf 0 3]
    /\ ~ NoDup (edges (geometry m))
    /\ Examples.edgeOf 3 4 ∈ canonicalEdges (geometry m)
    /\ (Examples.edgeOf 3 4 ∉ edges (geometry m))
    /\ edges (geometry m) <> canonicalEdges (geometry m).
Proof.
  eexists. split; [vm_compute; reflexivity|].
  cbn [geometry with_geometry indices edges].
  split; [reflexivity|]. split; [reflexivity|].
  repeat split; apply (bool_decide_unpack _); vm_compute; exact I.
Qed.

(** ** Sculpting *)

Section SculptFacts.
Context {F : Type} `{Number F}.
Import Sculpt.

Lemma store_length (a : list F) (i : nat) (x : F) : length (store a i x) = length a.
Proof. apply length_insert. Qed.

Lemma brushVertex_length s hitPoint delta invert affected (g : EditableGeometry F) a :
  length (vertices (brushVertex s hitPoint delta invert affected g a))
  = length (vertices g).
Proof. unfold brushVertex. cbn. rewrite !store_length. reflexivity. Qed.

Lemma applyBrush_length s hitPoint delta invert (g : EditableGeometry F) :
  length (vertices (applyBrush s hitPoint delta invert g)) = length (vertices g).
Proof.
  unfold applyBrush. generalize (getAffectedVertices hitPoint (vertices g) (radius s)) at 1.
  intros affected. generalize (getAffectedVertices hitPoint (vertices g) (radius s)).
  intros l. revert g. induction l as [|a l IH]; intros g; cbn [fold_left]; [reflexivity|].
  rewrite IH. apply brushVertex_length.
Qed.

Lemma updateStroke_snapshot (e : SculptEngine) (hitPoint delta : Vec3 F) original :
  snapshot_of e original -> snapshot_of (updateStroke e hitPoint delta) original.
Proof.
  intros (Ho & m & Hm & Hlen). unfold updateStroke.
  destruct (isActive (brush e)); [|split; eauto].
  rewrite Hm. split; [exact Ho|].
  eexists. split; [reflexivity|].
  cbn [geometry with_geometry].
  destruct (sym_x (symmetry e)), (sym_y (symmetry e)), (sym_z (symmetry e));
    rewrite ?applyBrush_length; exact Hlen.
Qed.

Lemma stroke_snapshot (e : SculptEngine) (m : EditableMesh F) (hit : Vec3 F)
    (moves : list (Vec3 F * Vec3 F)) :
  mesh e = Some m -> snapshot_of (stroke e hit moves) (vertices (geometry m)).
Proof.
  intros Hm. unfold stroke.
  assert (H0 : snapshot_of (beginStroke e hit) (vertices (geometry m))).
  { unfold beginStroke. rewrite Hm. split; [reflexivity|]. exists m. auto. }
  revert H0. generalize (beginStroke e hit). induction moves as [|mv moves IH];
    intros e0 H0; cbn [fold_left]; [exact H0|].
  apply IH, updateStroke_snapshot, H0.
Qed.

Lemma typedArraySet_same_length (target source : list F) :
  length target = length source -> typedArraySet target source = Some source.
Proof.
  intros E. unfold typedArraySet. rewrite <- E.
  rewrite (proj2 (Nat.leb_le _ _) (le_n _)), drop_all, app_nil_r. reflexivity.
Qed.

(** C8. After [beginStroke] and any sequence of [updateStroke] calls on an
    engine with a bound mesh, [undoStroke] succeeds and leaves the vertex
    buffer of the mesh equal, element for element, to the buffer the mesh
    had when [beginStroke] was called. *)
Theorem undoStroke_restores_vertices (e : SculptEngine) (m : EditableMesh F)
    (hit : Vec3 F) (moves : list (Vec3 F * Vec3 F)) :
  mesh e = Some m ->
  exists e' m',
    undoStroke (stroke e hit moves) = Some e'
    /\ mesh e' = Some m'
    /\ vertices (geometry m') = vertices (geometry m).
Proof.
  intros Hm. destruct (stroke_snapshot e m hit moves Hm) as (Ho & m1 & Hm1 & Hlen).
  unfold undoStroke. rewrite Hm1, Ho, (typedArraySet_same_length _ _ Hlen). cbn.
  eexists. eexists. split; [reflexivity|]. split; reflexivity.
Qed.
End SculptFacts.

Lemma undoStroke_restores_vertices_witness :
  Sculpt.mesh Examples.boundEngine = Some Examples.triangleMesh
  /\ exists e' m',
       Sculpt.undoStroke (stroke Examples.boundEngine (mkVec3 (Examples.num 0)
                                    (Examples.num 0) (Examples.num 0))
                                 Examples.grabMoves) = Some e'
       /\ Sculpt.mesh e' = Some m'
       /\ vertices (geometry m') = vertices (geometry Examples.triangleMesh).
Proof.
  split; [reflexivity|].
  exact (undoStroke_restores_vertices Examples.boundEngine Examples.triangleMesh
           (mkVec3 (Examples.num 0) (Examples.num 0) (Examples.num 0))
           Examples.grabMoves eq_refl).
Defined.

(** ** Boolean *)

Section BooleanFacts.
Context {F : Type} `{Number F}.
Import Boolean.
#[local] Abbreviation Plane := (@Boolean.Plane F).
#[local] Abbreviation Polygon := (@Boolean.Polygon F).
#[local] Abbreviation BSPNode := (@Boolean.BSPNode F).

Lemma splitPolygon_sideOf (pl : Plane) (q : Polygon) :
  match sideOf pl q with
  | OnFront => splitPolygon pl q = mkPushed [q] [] [] []
  | OnBack => splitPolygon pl q = mkPushed [] [q] [] []
  | InFront => splitPolygon pl q = mkPushed [] [] [q] []
  | Behind => splitPolygon pl q = mkPushed [] [] [] [q]
  | Spans => True
  end.
Proof.
  unfold sideOf, splitPolygon.
  destruct (fold_left Nat.lor _ _) as [|[|[|[|n]]]]; try reflexivity; try exact I.
  destruct (_ <! _); reflexivity.
Qed.

Ltac split_side Hside IH :=
  match goal with
  | |- context [splitPolygon ?pl ?q] =>
      let Hs := fresh "Hs" in
      let E := fresh "E" in
      pose proof (splitPolygon_sideOf pl q) as Hs;
      rewrite ?filter_cons;
      destruct (Hside q ltac:(left)) as [E|E]; rewrite E in Hs; rewrite ?E; rewrite Hs;
      cbn [coplanarFront coplanarBack pushedFront pushedBack fst snd app];
      rewrite ?app_nil_r;
      repeat (destruct (decide _) as [|]; try congruence);
      (rewrite IH; [|intros q' Hq'; apply Hside; right; exact Hq']);
      rewrite <- ?app_assoc; reflexivity
  end.

Lemma insertPolygon_fold (pl : Plane) (polys ps fr bk : list Polygon) :
  (forall q, q ∈ polys -> sideOf pl q = OnFront \/ sideOf pl q = Behind) ->
  fold_left (insertPolygon pl) polys (ps, fr, bk)
  = (ps ++ filter (fun q => sideOf pl q = OnFront) polys, fr,
     bk ++ filter (fun q => sideOf pl q = Behind) polys).
Proof.
  revert ps bk. induction polys as [|q polys IH]; intros ps bk Hside.
  - cbn. rewrite !app_nil_r. reflexivity.
  - cbn [fold_left]. unfold insertPolygon at 2. split_side Hside IH.
Qed.


End BooleanFacts.

Section BooleanChains.
Context {F : Type} `{Number F}.
Import Boolean.
#[local] Abbreviation Plane := (@Boolean.Plane F).
#[local] Abbreviation Polygon := (@Boolean.Polygon F).
#[local] Abbreviation BSPNode := (@Boolean.BSPNode F).

Lemma BSPNode_children_ind (P : BSPNode -> Prop) :
  (forall pl f b ps,
      (forall n, f = Some n -> P n) -> (forall n, b = Some n -> P n) ->
      P (mkNode pl f b ps)) ->
  forall n, P n.
Proof.
  intros Hnode. fix IH 1. intros [pl f b ps]. apply Hnode.
  - destruct f as [nf|]; [intros n [= <-]; exact (IH nf)|intros n [=]].
  - destruct b as [nb|]; [intros n [= <-]; exact (IH nb)|intros n [=]].
Qed.

Lemma clipPolygons_nil (node : BSPNode) : clipPolygons node [] = [].
Proof.
  induction node as [pl f b ps IHf IHb] using BSPNode_children_ind.
  cbn [clipPolygons]. destruct pl as [pl|]; [|reflexivity]. cbn [fold_left].
  destruct f as [nf|], b as [nb|]; rewrite ?(IHf _ eq_refl), ?(IHb _ eq_refl); reflexivity.
Qed.




Lemma mergeBSP_nil (fuel : nat) (a : BSPNode) : mergeBSP (S fuel) a [] = Some a.
Proof.
  destruct a as [pl f b ps]. cbn [mergeBSP]. destruct pl as [pl|]; reflexivity.
Qed.


(** *** Convex polygons build a chain of back children *)


Lemma levelsOf_nil (fuel : nat) : levelsOf fuel ([] : list Polygon) = [].
Proof. destruct fuel; reflexivity. Qed.


Lemma buildBSP_convex (fuel : nat) (polys : list Polygon) :
  (forall p, p ∈ polys -> sideOf (plane p) p = OnFront) ->
  (forall p q, p ∈ polys -> q ∈ polys ->
     sideOf (plane p) q = OnFront \/ sideOf (plane p) q = Behind) ->
  polys <> [] -> (length polys <= fuel)%nat ->
  Some <$> buildBSP fuel polys = Some (backChain (levelsOf fuel polys)).
Proof.
  revert polys. induction fuel as [|fuel IH]; intros polys Hown Hpair Hne Hlen.
  - destruct polys; [congruence|cbn in Hlen; lia].
  - destruct polys as [|p0 rest]; [congruence|].
    cbn [buildBSP levelsOf backChain].
    rewrite insertPolygon_fold by (intros q Hq; apply Hpair; [left|exact Hq]).
    cbn [app].
    set (bk := filter (fun q => sideOf (plane p0) q = Behind) (p0 :: rest)).
    assert (Hbk : forall q, q ∈ bk -> q ∈ rest).
    { intros q Hq. apply list_elem_of_filter in Hq as [Hs Hq].
      apply elem_of_cons in Hq as [->|Hq]; [|exact Hq].
      rewrite (Hown p0 ltac:(left)) in Hs. discriminate. }
    assert (Hbklen : (length bk <= fuel)%nat).
    { unfold bk. rewrite filter_cons. destruct (decide _) as [E|_].
      - rewrite (Hown p0 ltac:(left)) in E. discriminate.
      - pose proof (length_filter (fun q => sideOf (plane p0) q = Behind) rest).
        cbn in Hlen. lia. }
    cbn [mbind option_bind].
    destruct bk as [|q0 bk'] eqn:Ebk.
    + rewrite levelsOf_nil. reflexivity.
    + rewrite <- Ebk in *.
      specialize (IH bk
                    ltac:(intros p Hp; apply Hown; right; apply Hbk, Hp)
                    ltac:(intros p q Hp Hq; apply Hpair; right; apply Hbk; assumption)
                    ltac:(rewrite Ebk; discriminate) Hbklen).
      destruct (buildBSP fuel bk) as [nb|]; [|discriminate IH].
      cbn in IH. injection IH as IH. cbn. rewrite <- IH. reflexivity.
Qed.





End BooleanChains.

Section BooleanDifference.
Context {F : Type} `{Number F}.
Import Boolean.
#[local] Abbreviation Plane := (@Boolean.Plane F).
#[local] Abbreviation Polygon := (@Boolean.Polygon F).
#[local] Abbreviation BSPNode := (@Boolean.BSPNode F).

Lemma convexPolygons_pair (polys : list Polygon) (p q : Polygon) :
  convexPolygons polys = true -> p ∈ polys -> q ∈ polys ->
  sideOf (plane p) p = OnFront
  /\ ((sideOf (plane p) q = OnFront /\ sideOf (plane p) (invertPolygon q) = OnBack
       /\ sideOf (planeFlip (plane p)) q = OnBack)
      \/ (sideOf (plane p) q = Behind /\ sideOf (plane p) (invertPolygon q) = Behind
          /\ sideOf (planeFlip (plane p)) q = InFront)).
Proof.
  unfold convexPolygons. intros Hc Hp Hq.
  rewrite forallb_forall in Hc. apply list_elem_of_In in Hp, Hq.
  specialize (Hc p Hp). apply andb_true_iff in Hc as [Hown Hall].
  rewrite forallb_forall in Hall. specialize (Hall q Hq).
  unfold onOwnPlane in Hown. unfold convexPair in Hall.
  split; [destruct (sideOf (plane p) p); congruence|].
  destruct (sideOf (plane p) q), (sideOf (plane p) (invertPolygon q)),
    (sideOf (planeFlip (plane p)) q); try discriminate; auto.
Qed.






End BooleanDifference.

(** *** The difference of a mesh with itself, for every mesh *)

Section BooleanClip.
Context {F : Type} `{Number F}.
Import Boolean.
#[local] Abbreviation Plane := (@Boolean.Plane F).
#[local] Abbreviation Polygon := (@Boolean.Polygon F).
#[local] Abbreviation BSPNode := (@Boolean.BSPNode F).







End BooleanClip.

Section BooleanMerge.
Context {F : Type} `{Number F}.
Import Boolean.
#[local] Abbreviation Plane := (@Boolean.Plane F).
#[local] Abbreviation Polygon := (@Boolean.Polygon F).
#[local] Abbreviation BSPNode := (@Boolean.BSPNode F).





End BooleanMerge.

Section BooleanSelf.
Context {F : Type} `{Number F}.
Import Boolean.
#[local] Abbreviation Plane := (@Boolean.Plane F).
#[local] Abbreviation Polygon := (@Boolean.Polygon F).
#[local] Abbreviation BSPNode := (@Boolean.BSPNode F).






End BooleanSelf.



(** So it does on a sheet that carries both of its sides: the difference of
    the two-sided triangle with itself keeps the side facing -z. *)
Lemma difference_with_itself_two_sided :
  exists m',
    Boolean.boolean 5 "geo-result" Examples.twoSided
      (Boolean.mkOptions Boolean.difference Examples.twoSided Boolean.fast) = Some m'
    /\ indices (geometry m') = [0; 1; 2]%nat
    /\ triangleCount m' = 1%nat
    /\ Boolean.resultPolygons 5 Boolean.difference
         (Boolean.meshToPolygons Examples.twoSided)
         (Boolean.meshToPolygons Examples.twoSided) <> Some [].
Proof.
  eexists. split; [vm_compute; reflexivity|].
  split; [reflexivity|]. split; [reflexivity|].
  vm_compute. discriminate.
Qed.

(** ** Operators that have nothing to do *)

Section NoWork.
Context {F : Type} `{Number F}.

(** C5.  When its precondition removes all work, each of the five operators
    returns the input mesh itself and raises no error: extrude without a
    selected face, array with a count of at most 1, decimate with a ratio of
    at least 1 (whatever its mode and fuel), bridge with a loop of fewer than
    3 vertices, and knife with a path of fewer than two points. *)
Theorem no_work_returns_input (mesh : EditableMesh F) :
  (forall options, Extrude.extrude mesh [] options = Some mesh)
  /\ (forall options,
        (Array.count options <= 1)%Z -> Array.array mesh options = mesh)
  /\ (forall fuel options,
        Decimate.ratio options >=! one = true ->
        Decimate.decimate fuel mesh options = Ok mesh)
  /\ (forall options,
        (length (Bridge.loop1 options) < 3)%nat
        \/ (length (Bridge.loop2 options) < 3)%nat ->
        Bridge.bridgeEdgeLoops mesh options = Some mesh)
  /\ (forall cut,
        (length (Knife.points cut) < 2)%nat -> Knife.knifeCut mesh cut = mesh).
Proof.
  repeat split.
  - intros options Hcount. unfold Array.array.
    destruct (Z.leb_spec (Array.count options) 1) as [_|Hgt]; [reflexivity|lia].
  - intros fuel options Hratio. unfold Decimate.decimate.
    rewrite Hratio. reflexivity.
  - intros options Hshort. unfold Bridge.bridgeEdgeLoops.
    destruct (Nat.ltb_spec (length (Bridge.loop1 options)) 3) as [_|H1];
      [reflexivity|].
    destruct (Nat.ltb_spec (length (Bridge.loop2 options)) 3) as [_|H2];
      [reflexivity|lia].
  - intros cut Hshort. unfold Knife.knifeCut.
    destruct (Nat.ltb_spec (length (Knife.points cut)) 2) as [_|Hge];
      [reflexivity|lia].
Qed.
End NoWork.

Lemma no_work_returns_input_witness :
  Extrude.extrude Examples.triangleMesh []
    (Extrude.mkOptions (Examples.num 1) None) = Some Examples.triangleMesh
  /\ Array.array Examples.triangleMesh
       (Array.mkOptions 1 (mkVec3 (Examples.num 2) (Examples.num 0) (Examples.num 0))
                        Array.constant false (Examples.num 0) None None)
     = Examples.triangleMesh
  /\ Decimate.decimate 0 Examples.triangleMesh
       (Decimate.mkOptions (Examples.num 1) Decimate.collapse false Decimate.axis_x)
     = Ok Examples.triangleMesh
  /\ Bridge.bridgeEdgeLoops Examples.cube
       (Bridge.mkOptions [0; 1]%nat [4; 5; 6]%nat 0 1 (Examples.num 0) Bridge.linear)
     = Some Examples.cube
  /\ Knife.knifeCut Examples.triangleMesh
       (Knife.mkKnifeCut [mkVec3 (Examples.num 0) (Examples.num 0) (Examples.num 1)]
                         true false (Examples.num 0))
     = Examples.triangleMesh.
Proof.
  split; [exact (proj1 (no_work_returns_input Examples.triangleMesh) _)|].
  split; [apply (proj1 (proj2 (no_work_returns_input Examples.triangleMesh)));
          simpl; lia|].
  split; [apply (proj1 (proj2 (proj2 (no_work_returns_input Examples.triangleMesh))));
          vm_compute; reflexivity|].
  split; [apply (proj1 (proj2 (proj2 (proj2 (no_work_returns_input Examples.cube)))));
          left; simpl; lia|].
  apply (proj2 (proj2 (proj2 (proj2 (no_work_returns_input Examples.triangleMesh)))));
    simpl; lia.
Defined.

(** ** The edge rebuild shared by the operators *)

Lemma addEdges_spec (sides acc : list Edge) :
  NoDup acc ->
  NoDup (fold_left addEdge sides acc)
  /\ forall e, e ∈ fold_left addEdge sides acc <-> e ∈ acc \/ e ∈ sides.
Proof.
  revert acc. induction sides as [|s sides IH]; intros acc Hnd; cbn [fold_left].
  - split; [exact Hnd|]. intros e. split; [auto|]. intros [He|He]; [exact He|inversion He].
  - assert (Hnd' : NoDup (addEdge acc s)).
    { unfold addEdge. destruct (decide (s ∈ acc)) as [Hin|Hout]; [exact Hnd|].
      apply NoDup_app. split; [exact Hnd|]. split; [|apply NoDup_singleton].
      intros x Hx Hs. apply list_elem_of_singleton in Hs as ->. exact (Hout Hx). }
    destruct (IH _ Hnd') as [Hres Hmem]. split; [exact Hres|].
    intros e. rewrite Hmem. unfold addEdge.
    destruct (decide (s ∈ acc)) as [Hin|Hout].
    + rewrite elem_of_cons. split; [tauto|]. intros [He|[->|He]]; auto.
    + rewrite elem_of_app, list_elem_of_singleton, elem_of_cons. tauto.
Qed.

Lemma edgeKey_ordered (a b : idx) (x y : nat) :
  edgeKey a b = mkEdge (Some x) (Some y) -> (x <= y)%nat.
Proof.
  unfold edgeKey, js_min, js_max. destruct a as [p|], b as [q|]; intros [= <- <-]; lia.
Qed.

(** The edge list that subdivide, loop cut, array, bridge, knife and decimate
    rebuild from their new index list holds every side of every triangle
    once, the smaller index first. *)
Theorem rebuildEdges_canonical (newIndices : list idx) :
  NoDup (rebuildEdges newIndices)
  /\ (forall e, e ∈ rebuildEdges newIndices
                <-> exists t, t ∈ indexTriangles newIndices /\ e ∈ triangleSides t)
  /\ (forall x y, mkEdge (Some x) (Some y) ∈ rebuildEdges newIndices -> (x <= y)%nat).
Proof.
  unfold rebuildEdges.
  destruct (addEdges_spec (flat_map triangleSides (indexTriangles newIndices)) []
              (NoDup_nil_2)) as [Hnd Hmem].
  assert (Hsides : forall e, e ∈ fold_left addEdge
                       (flat_map triangleSides (indexTriangles newIndices)) []
                     <-> exists t, t ∈ indexTriangles newIndices /\ e ∈ triangleSides t).
  { intros e. rewrite Hmem. split.
    - intros [He|He]; [inversion He|].
      apply list_elem_of_In, in_flat_map in He as (t & Ht & He).
      exists t. split; apply list_elem_of_In; assumption.
    - intros (t & Ht & He). right. apply list_elem_of_In, in_flat_map.
      exists t. split; apply list_elem_of_In; assumption. }
  split; [exact Hnd|]. split; [exact Hsides|].
  intros x y He. apply Hsides in He as ([[t0 t1] t2] & _ & He).
  cbn [triangleSides] in He.
  repeat (apply elem_of_cons in He as [He|He];
          [symmetry in He; exact (edgeKey_ordered _ _ _ _ He)|]).
  inversion He.
Qed.
(** * Further properties of the kernel *)

(** ** Subdivide: counts *)

Lemma indexTriangles_Some (l : list nat) :
  indexTriangles (map Some l) = triangles l.
Proof.
  unfold indexTriangles.
  induction l as [|a|a b|a b c r IH] using triangles_ind; try reflexivity.
  cbn [map triangles]. cbn [map triangles] in IH. rewrite IH. reflexivity.
Qed.

Lemma flat_map_ext_elem {A B : Type} (f g : A -> list B) (l : list A) :
  (forall x, x ∈ l -> f x = g x) -> flat_map f l = flat_map g l.
Proof.
  induction l as [|x l IH]; intros Hfg; [reflexivity|].
  cbn [flat_map]. rewrite (Hfg x) by left. rewrite IH; [reflexivity|].
  intros y Hy. apply Hfg. right. exact Hy.
Qed.

Section SubdivideVertices.
Context {F : Type} `{Number F}.
Import Subdivide.

(** Every pass of [subdivide] quadruples the triangle count; a count of
    iterations below 1 leaves the loop unentered. *)
Theorem subdivide_triangleCount (mesh : EditableMesh F) (n : Z) (smooth : option bool) :
  triangleCount (subdivide mesh (mkOptions (Some n) smooth))
  = (4 ^ Z.to_nat n * triangleCount mesh)%nat.
Proof.
  unfold subdivide.
  change (Z.to_nat (default 1 (iterations (mkOptions (Some n) smooth))))
    with (Z.to_nat n).
  induction (Z.to_nat n) as [|k IH]; [cbn; lia|].
  rewrite Nat.iter_succ, subdivideOnce_triangleCount, IH.
  change (4 ^ S k)%nat with (4 * 4 ^ k)%nat. lia.
Qed.

Lemma midpointMap_get_Some (m : list (Edge * nat)) (key : Edge) :
  key ∈ map fst m -> exists i, midpointMap_get m key = Some i.
Proof.
  intros Hin. unfold midpointMap_get.
  apply list_elem_of_fmap in Hin as ([k v] & -> & Hin). cbn [fst].
  destruct (list_find (fun kv => fst kv = k) m) as [[i kv]|] eqn:E.
  - eexists. reflexivity.
  - apply list_find_None in E. rewrite Forall_forall in E.
    exfalso. apply (E (k, v)); [exact Hin|reflexivity].
Qed.

Lemma midpointMap_get_None (m : list (Edge * nat)) (key : Edge) :
  key ∉ map fst m -> midpointMap_get m key = None.
Proof.
  intros Hout. unfold midpointMap_get.
  destruct (list_find (fun kv => fst kv = key) m) as [[i kv]|] eqn:E; [|reflexivity].
  apply list_find_Some in E as (Hi & Hk & _). exfalso. apply Hout.
  apply list_elem_of_fmap. exists kv. split; [symmetry; exact Hk|].
  eapply list_elem_of_lookup_2. exact Hi.
Qed.


Lemma getMidpoint_grown (old : list F) (st : Buffers) (a b : idx) :
  grown old st ->
  grown old (fst (getMidpoint st a b))
  /\ map fst (midpointMap (fst (getMidpoint st a b)))
     = addEdge (map fst (midpointMap st)) (edgeKey a b).
Proof.
  intros [Hpre Hlen]. unfold getMidpoint, addEdge.
  destruct (decide (edgeKey a b ∈ map fst (midpointMap st))) as [Hin|Hout].
  - destruct (midpointMap_get_Some _ _ Hin) as [i ->]. cbn [fst].
    split; [split; assumption|reflexivity].
  - rewrite (midpointMap_get_None _ _ Hout). unfold grown.
    cbn [fst newVertices midpointMap]. split; [split|].
    + rewrite take_app_le by lia. exact Hpre.
    + rewrite !length_app, Hlen. cbn [length]. lia.
    + rewrite map_app. reflexivity.
Qed.

Lemma splitTriangle_grown (old : list F) (acc : Buffers * list idx)
    (tri : idx * idx * idx) :
  grown old (fst acc) ->
  grown old (fst (splitTriangle acc tri))
  /\ map fst (midpointMap (fst (splitTriangle acc tri)))
     = fold_left addEdge (triangleSides tri) (map fst (midpointMap (fst acc))).
Proof.
  intros Hg. unfold splitTriangle. destruct tri as [[v0 v1] v2].
  destruct (getMidpoint_grown old (fst acc) v0 v1 Hg) as [Hg1 Hk1].
  destruct (getMidpoint (fst acc) v0 v1) as [st1 m01]. cbn [fst] in Hg1, Hk1.
  destruct (getMidpoint_grown old st1 v1 v2 Hg1) as [Hg2 Hk2].
  destruct (getMidpoint st1 v1 v2) as [st2 m12]. cbn [fst] in Hg2, Hk2.
  destruct (getMidpoint_grown old st2 v2 v0 Hg2) as [Hg3 Hk3].
  destruct (getMidpoint st2 v2 v0) as [st3 m20]. cbn [fst] in Hg3, Hk3.
  cbn [fst triangleSides fold_left]. split; [exact Hg3|].
  rewrite Hk3, Hk2, Hk1. reflexivity.
Qed.

Lemma splitTriangles_grown (old : list F) (tris : list (idx * idx * idx))
    (acc : Buffers * list idx) :
  grown old (fst acc) ->
  grown old (fst (fold_left splitTriangle tris acc))
  /\ map fst (midpointMap (fst (fold_left splitTriangle tris acc)))
     = fold_left addEdge (flat_map triangleSides tris)
                 (map fst (midpointMap (fst acc))).
Proof.
  revert acc. induction tris as [|t tris IH]; intros acc Hg; cbn [fold_left flat_map].
  - split; [exact Hg|reflexivity].
  - destruct (splitTriangle_grown old acc t Hg) as [Hg1 Hk1].
    destruct (IH _ Hg1) as [Hg2 Hk2]. split; [exact Hg2|].
    rewrite Hk2, Hk1, fold_left_app. reflexivity.
Qed.

(** Without smoothing, one pass of subdivision keeps every vertex of the
    input at its index and adds one vertex for each distinct edge of the
    index buffer: a side shared by two triangles gets one midpoint.  On a
    vertex buffer of [n] whole vertices the vertex count becomes [n] plus
    the number of these edges. *)
Theorem subdivideOnce_vertices (mesh : EditableMesh F) :
  let g := geometry mesh in
  let g' := geometry (subdivideOnce mesh false) in
  length (vertices g') = (length (vertices g) + 3 * length (canonicalEdges g))%nat
  /\ take (length (vertices g)) (vertices g') = Float32Array (vertices g)
  /\ (forall n, length (vertices g) = (3 * n)%nat ->
        vertexCount g' = (n + length (canonicalEdges g))%nat).
Proof.
  intros g g'. subst g'. unfold subdivideOnce. fold g.
  destruct (splitTriangles_grown (vertices g) (triangles (indices g))
              (mkBuffers (vertices g) (normals g) (uvs g) [], []))
    as [[Hpre Hlen] Hkeys].
  { split; cbn [fst newVertices midpointMap length]; [apply firstn_all|lia]. }
  destruct (fold_left splitTriangle _ _) as [st newIndices].
  cbn [fst midpointMap map] in *.
  assert (Hcount : length (midpointMap st) = length (canonicalEdges g)).
  { unfold canonicalEdges, rebuildEdges. rewrite indexTriangles_Some, <- Hkeys.
    rewrite length_map. reflexivity. }
  cbn [geometry with_geometry assemble vertices vertexCount].
  unfold Float32Array. rewrite length_map, Hlen, Hcount.
  split; [reflexivity|]. split.
  - rewrite <- (length_map Math_fround (vertices g)) at 1.
    rewrite <- Hpre at 2. rewrite <- fmap_take.
    rewrite length_map. reflexivity.
  - intros n Hn. rewrite Hn.
    replace (3 * n + 3 * length (canonicalEdges g))%nat
      with ((n + length (canonicalEdges g)) * 3)%nat by lia.
    apply Nat.div_mul. lia.
Qed.
End SubdivideVertices.

(** ** Picking: bounds and invisible meshes *)

Section PickingFacts.
Context {F : Type} `{Number F}.
Import Raycast.

Lemma findClosestVertex_fold (mesh : EditableMesh F) (point : Vec3 F)
    (todo : list nat) (st : nat * F) (n : nat) :
  (fst st < n)%nat -> Forall (fun i => (i < n)%nat) todo ->
  (fst (fold_left (findClosestVertex_step mesh point) todo st) < n)%nat.
Proof.
  revert st. induction todo as [|i todo IH]; intros st Hst Hall; cbn [fold_left]; [exact Hst|].
  inversion Hall as [|? ? Hi Hrest]; subst. apply IH; [|exact Hrest].
  unfold findClosestVertex_step.
  destruct (_ <! snd st); cbn [fst]; assumption.
Qed.

(** On a mesh that has a vertex, [findClosestVertex] answers with the index
    of one of its vertices. *)
Theorem findClosestVertex_in_range (mesh : EditableMesh F) (point : Vec3 F) :
  (0 < vertexCount (geometry mesh))%nat ->
  (findClosestVertex mesh point < vertexCount (geometry mesh))%nat.
Proof.
  intros Hpos. unfold findClosestVertex. apply findClosestVertex_fold; [exact Hpos|].
  apply Forall_forall. intros i Hi. apply list_elem_of_In, in_seq in Hi. lia.
Qed.

Lemma raycast_fold_app (ray : Ray) (before after : list (EditableMesh F))
    (m : EditableMesh F) (st : option RaycastHit * F) :
  visible m = false ->
  fold_left (raycast_step ray) (before ++ m :: after) st
  = fold_left (raycast_step ray) (before ++ after) st.
Proof.
  intros Hvis. rewrite !fold_left_app. cbn [fold_left]. f_equal.
  unfold raycast_step, raycastMesh. rewrite Hvis. reflexivity.
Qed.

(** An invisible mesh takes no part in picking: wherever it stands in the
    scene, [raycast] answers as if it were not there, and a scene without a
    visible mesh gives [null]. *)
Theorem raycast_skips_invisible (ray : Ray) (before after : list (EditableMesh F))
    (m : EditableMesh F) :
  visible m = false ->
  raycast ray (before ++ m :: after) = raycast ray (before ++ after)
  /\ raycastMesh ray m = None.
Proof.
  intros Hvis. split.
  - unfold raycast. rewrite raycast_fold_app by exact Hvis. reflexivity.
  - unfold raycastMesh. rewrite Hvis. reflexivity.
Qed.
End PickingFacts.

(** ** Decimate: what it returns and when it throws *)

Section DecimateMore.
Context {F : Type} `{Number F}.
Import Decimate.

Lemma collapseStep_faces (target : jsint) (st st' : @State F) :
  collapseStep target st = Some (Some st') ->
  (length (st_faces st') <= length (st_faces st))%nat.
Proof.
  unfold collapseStep. destruct (length_gt _ _); [|discriminate].
  destruct (findBestEdge st) as [[[bestEdge e] p]|]; [|discriminate]. cbn.
  destruct bestEdge as [[v1 v2]|]; [|discriminate].
  unfold collapseEdge.
  destruct (st_quadrics st !! v1); [|discriminate].
  destruct (st_quadrics st !! v2); [|discriminate]. cbn.
  intros [= <-]. cbn [st_faces].
  etransitivity; [apply length_filter|]. rewrite length_map. lia.
Qed.

Lemma collapseLoop_faces (target : jsint) (fuel : nat) :
  forall (st st' : @State F) (n n' : nat),
    collapseLoop fuel target st n = Ok (st', n') ->
    (length (st_faces st') <= length (st_faces st))%nat.
Proof.
  induction fuel as [|fuel IH]; intros st st' n n' E; [discriminate E|].
  cbn [collapseLoop] in E.
  destruct (collapseStep target st) as [[st1|]|] eqn:Estep; [| |discriminate E].
  - apply IH in E. apply collapseStep_faces in Estep. lia.
  - injection E as <- <-. lia.
Qed.

(** Decimation never adds a triangle, whatever its mode and ratio. *)
Theorem decimate_never_adds_triangles (fuel : nat) (mesh m' : EditableMesh F)
    (options : DecimateOptions) :
  decimate fuel mesh options = Ok m' ->
  (triangleCount m' <= triangleCount mesh)%nat.
Proof.
  unfold decimate. destruct (_ >=! one); [intros [= <-]; lia|].
  assert (Hcollapse : decimateCollapse fuel mesh (ratio options) = Ok m' ->
                      (triangleCount m' <= triangleCount mesh)%nat).
  { unfold decimateCollapse.
    destruct (setup (geometry mesh)) as [st0|] eqn:Esetup; [|discriminate].
    destruct (collapseLoop fuel _ st0 0) as [[st n]| |] eqn:Eloop; try discriminate.
    destruct (rebuild mesh st) as [m|] eqn:Erebuild; [|discriminate].
    cbn [of_option]. intros [= <-].
    rewrite (rebuild_triangleCount _ _ _ Erebuild).
    apply collapseLoop_faces in Eloop. apply setup_faces in Esetup.
    unfold triangleCount. lia. }
  destruct (mode options); exact Hcollapse.
Qed.

Lemma triangles_elem {A : Type} (l : list A) (x : A) :
  x ∈ l ->
  exists t, t ∈ triangles l
    /\ (fst (fst t) = Some x \/ snd (fst t) = Some x \/ snd t = Some x).
Proof.
  induction l as [|a|a b|a b c r IH] using triangles_ind; intros Hin.
  - inversion Hin.
  - apply list_elem_of_singleton in Hin as ->.
    eexists. split; [left|]. cbn. auto.
  - eexists. split; [left|]. cbn.
    apply elem_of_cons in Hin as [->|Hin]; [auto|].
    apply list_elem_of_singleton in Hin as ->. auto.
  - cbn [triangles].
    apply elem_of_cons in Hin as [->|Hin]; [eexists; split; [left|cbn; auto]|].
    apply elem_of_cons in Hin as [->|Hin]; [eexists; split; [left|cbn; auto]|].
    apply elem_of_cons in Hin as [->|Hin]; [eexists; split; [left|cbn; auto]|].
    destruct (IH Hin) as (t & Ht & Hx). exists t. split; [right; exact Ht|exact Hx].
Qed.

Lemma accumulateQuadrics_bad (vs : list (Vec3 F)) (faces : list (idx * idx * idx))
    (t : idx * idx * idx) acc :
  t ∈ faces ->
  (forall acc, accumulateQuadric vs acc t = None) ->
  fold_left (accumulateQuadric vs) faces acc = None.
Proof.
  intros Hin Hbad. revert acc.
  induction faces as [|f faces IH]; intros acc; [inversion Hin|].
  cbn [fold_left]. apply elem_of_cons in Hin as [<-|Hin].
  - rewrite Hbad. apply accumulateQuadric_None.
  - apply IH, Hin.
Qed.

(** An index that names no vertex makes decimation throw: below a ratio of 1
    the quadric loop reads the fields of [vertices[i]] for every index. *)
Theorem decimate_index_out_of_range (fuel : nat) (mesh : EditableMesh F)
    (options : DecimateOptions) (i : nat) :
  ratio options >=! one = false ->
  i ∈ indices (geometry mesh) ->
  (vertexCount (geometry mesh) <= i)%nat ->
  decimate fuel mesh options = TypeError.
Proof.
  intros Hratio Hin Hrange. unfold decimate. rewrite Hratio.
  assert (Hsetup : setup (geometry mesh) = None).
  { unfold setup.
    destruct (triangles_elem _ _ Hin) as (t & Ht & Hx).
    rewrite (accumulateQuadrics_bad _ _ t); [reflexivity|exact Ht|].
    intros [[qs fs]|]; [|reflexivity]. unfold accumulateQuadric.
    cbn [mbind option_bind]. destruct t as [[i0 i1] i2]. cbn [fst snd] in Hx.
    assert (Hnone : vertexOf (map (fun k => vec3At (vertices (geometry mesh)) (Some k))
                                  (seq 0 (vertexCount (geometry mesh)))) (Some i) = None).
    { unfold vertexOf. cbn [mbind option_bind]. apply lookup_ge_None.
      rewrite length_map, length_seq. exact Hrange. }
    destruct Hx as [-> | [-> | ->] ].
    - rewrite Hnone. reflexivity.
    - destruct (vertexOf _ i0); [|reflexivity]. rewrite Hnone. reflexivity.
    - destruct (vertexOf _ i0); [|reflexivity].
      destruct (vertexOf _ i1); [|reflexivity]. rewrite Hnone. reflexivity. }
  unfold decimatePlanar, decimateUnsubdivide, decimateCollapse. rewrite Hsetup.
  destruct (mode options); reflexivity.
Qed.
End DecimateMore.

Lemma ToUint16_le (n : nat) : (ToUint16 (Some n) <= n)%nat.
Proof.
  unfold ToUint16.
  pose proof (N.Div0.mod_le (N.of_nat n) 65536). lia.
Qed.

Section DecimateCompact.
Context {F : Type} `{Number F}.
Import Decimate.


Lemma newVertexMap_get_Some (m : list (nat * nat)) (k v : nat) :
  newVertexMap_get m k = Some v -> (k, v) ∈ m.
Proof.
  unfold newVertexMap_get.
  destruct (list_find _ m) as [[i [k' v']]|] eqn:E; [|discriminate].
  cbn. intros [= <-]. apply list_find_Some in E as (Hi & Hk & _).
  cbn in Hk. subst k'. eapply list_elem_of_lookup_2. exact Hi.
Qed.

Lemma newVertexMap_get_key (m : list (nat * nat)) (k : nat) :
  k ∈ map fst m -> is_Some (newVertexMap_get m k).
Proof.
  intros Hin. unfold newVertexMap_get.
  apply list_elem_of_fmap in Hin as ([k' v] & -> & Hin). cbn [fst].
  destruct (list_find (fun kv => fst kv = k') m) as [[i kv]|] eqn:E; [eexists; reflexivity|].
  apply list_find_None in E. rewrite Forall_forall in E.
  exfalso. apply (E (k', v)); [exact Hin|reflexivity].
Qed.

Lemma compactVertex_ok (g : EditableGeometry F) (vs : list (Vec3 F))
    (c c' : @Compact F) (vIdx : nat) :
  compact_ok c -> compactVertex g vs (Some c) vIdx = Some c' ->
  compact_ok c'
  /\ (forall k, k ∈ map fst (newVertexMap c) -> k ∈ map fst (newVertexMap c'))
  /\ vIdx ∈ map fst (newVertexMap c').
Proof.
  intros [Hlen Hmap]. unfold compactVertex. cbn [mbind option_bind].
  destruct (newVertexMap_get (newVertexMap c) vIdx) as [v|] eqn:Eget.
  - intros [= <-]. split; [split; assumption|]. split; [auto|].
    apply newVertexMap_get_Some in Eget. apply list_elem_of_fmap.
    exists (vIdx, v). split; [reflexivity|exact Eget].
  - destruct (vs !! vIdx) as [p|]; [|discriminate]. cbn. intros [= <-].
    unfold compact_ok. cbn [newVertices newVertexMap newIdx].
    split; [split|split].
    + rewrite length_app, Hlen. cbn [length]. lia.
    + apply Forall_app. split.
      * eapply Forall_impl; [exact Hmap|]. cbn. intros kv Hkv. lia.
      * constructor; [cbn; lia|constructor].
    + intros k Hk. rewrite map_app. apply elem_of_app. left. exact Hk.
    + rewrite map_app. apply elem_of_app. right. cbn. left.
Qed.

Lemma compactVertices_ok (g : EditableGeometry F) (vs : list (Vec3 F))
    (todo : list nat) :
  forall (c c' : @Compact F),
    compact_ok c ->
    fold_left (compactVertex g vs) todo (Some c) = Some c' ->
    compact_ok c'
    /\ (forall k, k ∈ map fst (newVertexMap c) -> k ∈ map fst (newVertexMap c'))
    /\ (forall k, k ∈ todo -> k ∈ map fst (newVertexMap c')).
Proof.
  induction todo as [|v todo IH]; intros c c' Hok E; cbn [fold_left] in E.
  - injection E as <-. split; [exact Hok|]. split; [auto|]. intros k Hk. inversion Hk.
  - destruct (compactVertex g vs (Some c) v) as [c1|] eqn:E1.
    + destruct (compactVertex_ok _ _ _ _ _ Hok E1) as (Hok1 & Hkeep1 & Hv).
      destruct (IH _ _ Hok1 E) as (Hok' & Hkeep & Htodo).
      split; [exact Hok'|]. split; [auto|].
      intros k Hk. apply elem_of_cons in Hk as [->|Hk]; auto.
    + exfalso. clear -E. induction todo as [|w todo IH]; [discriminate E|].
      apply IH. exact E.
Qed.

Lemma rebuild_compact (mesh m' : EditableMesh F) (st : @State F) :
  rebuild mesh st = Some m' ->
  length (vertices (geometry m')) = (3 * vertexCount (geometry m'))%nat
  /\ Forall (fun i => (i < vertexCount (geometry m'))%nat) (indices (geometry m')).
Proof.
  unfold rebuild. intros E.
  destruct (fold_left _ _ _) as [c|] eqn:Efold; [|discriminate E].
  cbn [mbind option_bind] in E. injection E as <-.
  destruct (compactVertices_ok _ _ _ _ _
              (conj eq_refl (Forall_nil_2 _) : compact_ok (mkCompact [] [] [] [] 0))
              Efold) as ([Hlen Hmap] & _ & Hkeys).
  cbn [geometry with_geometry assemble vertices vertexCount indices].
  unfold Float32Array. rewrite length_map, Hlen.
  replace (3 * newIdx c / 3)%nat with (newIdx c)
    by (rewrite Nat.mul_comm, Nat.div_mul; lia).
  split; [reflexivity|].
  unfold Uint16Array. apply Forall_forall. intros i Hi.
  apply list_elem_of_fmap in Hi as (x & -> & Hx).
  apply list_elem_of_In, in_flat_map in Hx as (f & Hf & Hx).
  apply list_elem_of_In, list_elem_of_fmap in Hx as (k & -> & Hk).
  assert (Hkey : k ∈ map fst (newVertexMap c)).
  { apply Hkeys, list_elem_of_In, in_flat_map. exists f. split; [exact Hf|].
    apply list_elem_of_In. exact Hk. }
  destruct (newVertexMap_get_key _ _ Hkey) as [v Ev]. rewrite Ev.
  apply newVertexMap_get_Some in Ev. rewrite Forall_forall in Hmap.
  specialize (Hmap _ Ev). cbn in Hmap. pose proof (ToUint16_le v). lia.
Qed.

(** What decimation builds (below a ratio of 1) is compact: its vertex count
    is the number of vertices its buffer holds, and every index of its index
    buffer names one of them. *)
Theorem decimate_result_compact (fuel : nat) (mesh m' : EditableMesh F)
    (options : DecimateOptions) :
  ratio options >=! one = false ->
  decimate fuel mesh options = Ok m' ->
  length (vertices (geometry m')) = (3 * vertexCount (geometry m'))%nat
  /\ Forall (fun i => (i < vertexCount (geometry m'))%nat) (indices (geometry m')).
Proof.
  intros Hratio. unfold decimate. rewrite Hratio.
  assert (Hcollapse : decimateCollapse fuel mesh (ratio options) = Ok m' ->
            length (vertices (geometry m')) = (3 * vertexCount (geometry m'))%nat
            /\ Forall (fun i => (i < vertexCount (geometry m'))%nat)
                      (indices (geometry m'))).
  { unfold decimateCollapse.
    destruct (setup (geometry mesh)) as [st0|]; [|discriminate].
    destruct (collapseLoop fuel _ st0 0) as [[st n]| |]; try discriminate.
    destruct (rebuild mesh st) as [m|] eqn:Erebuild; [|discriminate].
    cbn [of_option]. intros [= <-]. exact (rebuild_compact _ _ _ Erebuild). }
  destruct (mode options); exact Hcollapse.
Qed.
End DecimateCompact.

(** ** Sculpting: what a stroke changes *)


Section SculptMore.
Context {F : Type} `{Number F}.
Import Sculpt.

Lemma sameTopology_refl (g : EditableGeometry F) : sameTopology g g.
Proof. repeat split. Qed.

Lemma sameTopology_trans (g1 g2 g3 : EditableGeometry F) :
  sameTopology g1 g2 -> sameTopology g2 g3 -> sameTopology g1 g3.
Proof.
  intros (A1 & A2 & A3 & A4 & A5 & A6 & A7) (B1 & B2 & B3 & B4 & B5 & B6 & B7).
  repeat split; congruence.
Qed.

Lemma with_vertices_topology (g : EditableGeometry F) (vs : list F) :
  length vs = length (vertices g) -> sameTopology g (with_vertices g vs).
Proof. intros E. repeat split. exact E. Qed.

Lemma fold_topology {A : Type} (f : EditableGeometry F -> A -> EditableGeometry F)
    (xs : list A) (g : EditableGeometry F) :
  (forall g a, sameTopology g (f g a)) -> sameTopology g (fold_left f xs g).
Proof.
  intros Hf. revert g. induction xs as [|x xs IH]; intros g; cbn [fold_left].
  - apply sameTopology_refl.
  - eapply sameTopology_trans; [apply Hf|apply IH].
Qed.

Lemma applyBrush_topology s hitPoint delta invert (g : EditableGeometry F) :
  sameTopology g (applyBrush s hitPoint delta invert g).
Proof.
  unfold applyBrush. apply fold_topology. intros g0 a. unfold brushVertex.
  apply with_vertices_topology. rewrite !store_length. reflexivity.
Qed.

Lemma applySmooth_topology s center strength (g : EditableGeometry F) :
  sameTopology g (applySmooth s center strength g).
Proof.
  unfold applySmooth. apply fold_topology. intros g0 a. unfold smoothVertex.
  apply with_vertices_topology. rewrite !store_length. reflexivity.
Qed.

Lemma recalculateNormals_topology (g : EditableGeometry F) :
  sameTopology g (recalculateNormals g)
  /\ vertices (recalculateNormals g) = vertices g.
Proof. split; [repeat split|reflexivity]. Qed.

Lemma updateStroke_inStroke (e : SculptEngine) (m0 : EditableMesh F)
    (hitPoint delta : Vec3 F) :
  inStroke e m0 -> inStroke (updateStroke e hitPoint delta) m0.
Proof.
  intros (Hact & Hlast & Horig & m & Hm & Hid & Htop).
  unfold updateStroke. rewrite Hact, Hm.
  split; [reflexivity|]. split; [eexists; reflexivity|]. split; [exact Horig|].
  eexists. split; [reflexivity|]. split; [exact Hid|].
  cbn [geometry with_geometry].
  destruct (sym_x (symmetry e)), (sym_y (symmetry e)), (sym_z (symmetry e));
    repeat (eapply sameTopology_trans; [|apply applyBrush_topology]); exact Htop.
Qed.

Lemma stroke_inStroke (e : SculptEngine) (m : EditableMesh F) (hit : Vec3 F)
    (moves : list (Vec3 F * Vec3 F)) :
  mesh e = Some m -> inStroke (stroke e hit moves) m.
Proof.
  intros Hm. unfold stroke.
  assert (H0 : inStroke (beginStroke e hit) m).
  { unfold beginStroke. rewrite Hm. split; [reflexivity|].
    split; [eexists; reflexivity|]. split; [reflexivity|].
    exists m. split; [reflexivity|]. split; [reflexivity|apply sameTopology_refl]. }
  revert H0. generalize (beginStroke e hit).
  induction moves as [|mv moves IH]; intros e0 H0; cbn [fold_left]; [exact H0|].
  apply IH, updateStroke_inStroke, H0.
Qed.

Lemma endStroke_inStroke (e : SculptEngine) (m0 : EditableMesh F) :
  inStroke e m0 ->
  exists e' m',
    endStroke e = Some e' /\ mesh e' = Some m' /\ id m' = id m0
    /\ sameTopology (geometry m0) (geometry m')
    /\ originalVertices e' = Some (vertices (geometry m0))
    /\ isActive (brush e') = false.
Proof.
  intros (Hact & [p Hlast] & Horig & m & Hm & Hid & Htop).
  unfold endStroke. rewrite Hact, Hm, Hlast. cbn [mbind option_bind].
  destruct (autoSmooth (settings (brush e)) >! zero); cbn [mbind option_bind];
    eexists; eexists; (split; [reflexivity|]); (split; [reflexivity|]);
    (split; [exact Hid|]); (split; [|split; [exact Horig|reflexivity]]);
    cbn [geometry with_geometry].
  - eapply sameTopology_trans; [|apply recalculateNormals_topology].
    eapply sameTopology_trans; [exact Htop|apply applySmooth_topology].
  - eapply sameTopology_trans; [exact Htop|apply recalculateNormals_topology].
Qed.

(** Sculpting moves vertices and nothing else: after a whole stroke, from
    [beginStroke] through any [updateStroke] calls to [endStroke], which does
    not throw, the mesh has its id, uvs, indices, vertex count, edges and faces
    unchanged, and as many vertex coordinates as before. *)
Theorem stroke_keeps_topology (e : SculptEngine) (m : EditableMesh F)
    (hit : Vec3 F) (moves : list (Vec3 F * Vec3 F)) :
  mesh e = Some m ->
  exists e' m',
    endStroke (stroke e hit moves) = Some e'
    /\ mesh e' = Some m' /\ id m' = id m
    /\ sameTopology (geometry m) (geometry m').
Proof.
  intros Hm.
  destruct (endStroke_inStroke _ _ (stroke_inStroke e m hit moves Hm))
    as (e' & m' & E & Hm' & Hid & Htop & _).
  exists e', m'. auto.
Qed.

(** The snapshot outlives the stroke: [undoStroke] called after [endStroke]
    still puts every vertex back where it was at [beginStroke]. *)
Theorem undoStroke_after_endStroke (e : SculptEngine) (m : EditableMesh F)
    (hit : Vec3 F) (moves : list (Vec3 F * Vec3 F)) :
  mesh e = Some m ->
  exists e1 e2 m2,
    endStroke (stroke e hit moves) = Some e1
    /\ undoStroke e1 = Some e2
    /\ mesh e2 = Some m2
    /\ vertices (geometry m2) = vertices (geometry m).
Proof.
  intros Hm.
  destruct (endStroke_inStroke _ _ (stroke_inStroke e m hit moves Hm))
    as (e1 & m1 & E & Hm1 & _ & Htop & Horig & _).
  exists e1. unfold undoStroke. rewrite Hm1, Horig.
  rewrite typedArraySet_same_length
    by (destruct Htop as (_ & _ & _ & _ & _ & _ & Hlen); exact Hlen).
  cbn [mbind option_bind]. eexists. eexists.
  split; [exact E|]. split; [reflexivity|]. split; [reflexivity|reflexivity].
Qed.

(** Once a stroke is ended, or before one is begun, [updateStroke] does
    nothing, and ending it again changes nothing. *)
Theorem endStroke_closes_stroke (e e' : SculptEngine) :
  endStroke e = Some e' ->
  (forall hitPoint delta, updateStroke e' hitPoint delta = e')
  /\ endStroke e' = Some e'.
Proof.
  unfold endStroke.
  destruct (isActive (brush e)) eqn:Hact.
  - destruct (mesh e) as [m|] eqn:Hm.
    + destruct (if autoSmooth _ >! zero then _ else _) as [g|]; [|discriminate].
      cbn [mbind option_bind]. intros [= <-]. split; reflexivity.
    + intros [= <-]. unfold updateStroke. rewrite Hact, Hm. split; reflexivity.
  - intros [= <-]. unfold updateStroke. rewrite Hact. split; reflexivity.
Qed.
End SculptMore.

Section BrushFacts.
Context {F : Type} `{Number F}.
Import Sculpt.

(** [getAffectedVertices] reports every vertex at most once, in the order of
    the indices, and only vertices of the buffer. *)
Theorem getAffectedVertices_in_order (hitPoint : Vec3 F) (vertices : list F)
    (radius : F) :
  map index (getAffectedVertices hitPoint vertices radius)
    `sublist_of` vertexRange (length vertices)
  /\ Forall (fun a => weight a = zero) (getAffectedVertices hitPoint vertices radius).
Proof.
  unfold getAffectedVertices. generalize (vertexRange (length vertices)).
  intros l. induction l as [|i l [IHs IHw]]; [split; constructor|].
  cbn [flat_map]. destruct (_ <=! _); cbn [app map].
  - split; [constructor; exact IHs|constructor; [reflexivity|exact IHw]].
  - split; [constructor; exact IHs|exact IHw].
Qed.
End BrushFacts.


(** ** Boolean: empty targets and the shape of the result *)

Lemma ToUint16_small (n : nat) : (Z.of_nat n < 65536)%Z -> ToUint16 (Some n) = n.
Proof.
  intros Hn. unfold ToUint16. rewrite N.mod_small by lia. lia.
Qed.

Section BooleanMore.
Context {F : Type} `{Number F}.
Import Boolean.
#[local] Abbreviation Plane := (@Boolean.Plane F).
#[local] Abbreviation Polygon := (@Boolean.Polygon F).
#[local] Abbreviation BSPNode := (@Boolean.BSPNode F).

Lemma clipTo_emptyNode (a : BSPNode) : clipTo a emptyNode = a.
Proof.
  induction a as [pl f b ps IHf IHb] using BSPNode_children_ind.
  cbn [clipTo clipPolygons emptyNode]. f_equal.
  - destruct f as [nf|]; [|reflexivity]. cbn. f_equal. apply IHf. reflexivity.
  - destruct b as [nb|]; [|reflexivity]. cbn. f_equal. apply IHb. reflexivity.
Qed.

Lemma emptyNode_clipTo (a : BSPNode) : clipTo emptyNode a = emptyNode.
Proof. cbn [clipTo emptyNode]. rewrite clipPolygons_nil. reflexivity. Qed.

Lemma invertBSP_emptyNode : invertBSP (emptyNode : BSPNode) = emptyNode.
Proof. reflexivity. Qed.

Lemma allPolygons_emptyNode : allPolygons (emptyNode : BSPNode) = [].
Proof. reflexivity. Qed.

(** With a target that has no triangle, a union returns the polygons of the
    tree built of the mesh, while a difference and an intersection both
    return them inverted twice: the intersection with nothing is not
    empty. *)
Theorem resultPolygons_empty_target (fuel : nat) (operation : BooleanOperation)
    (polys : list Polygon) :
  resultPolygons (S fuel) operation polys []
  = (fun a => match operation with
              | union => allPolygons a
              | _ => allPolygons (invertBSP (invertBSP a))
              end) <$> buildBSP (S fuel) polys.
Proof.
  unfold resultPolygons.
  destruct (buildBSP (S fuel) polys) as [a|]; [|reflexivity].
  cbn [mbind option_bind buildBSP fmap option_fmap option_map].
  destruct operation;
    repeat first [rewrite clipTo_emptyNode | rewrite emptyNode_clipTo
                 | rewrite invertBSP_emptyNode];
    rewrite allPolygons_emptyNode, mergeBSP_nil; reflexivity.
Qed.


(** What [boolean] returns has one vertex of its own for every corner of
    every triangle: the vertex count is the number of indices, the index
    buffer counts 0, 1, 2, ... as long as it stays below 65536, the transform
    is the identity (the transform of the input is baked into the positions)
    and the id, name and material of the mesh are kept. *)
Theorem boolean_result_unindexed (fuel : nat) (newId : string)
    (mesh m' : EditableMesh F) (options : BooleanOptions) :
  boolean fuel newId mesh options = Some m' ->
  let g' := geometry m' in
  length (vertices g') = (3 * vertexCount g')%nat
  /\ length (indices g') = vertexCount g'
  /\ ((Z.of_nat (vertexCount g') <= 65536)%Z -> indices g' = seq 0 (vertexCount g'))
  /\ geo_id g' = newId
  /\ transform m' = identityTransform
  /\ id m' = id mesh /\ name m' = name mesh /\ material m' = material mesh.
Proof.
  unfold boolean. destruct (resultPolygons _ _ _ _) as [polys|]; [|discriminate].
  cbn [mbind option_bind]. intros [= <-]. cbn [geometry transform id name material].
  unfold polygonsToGeometry.
  set (corners := flat_map _ polys).
  cbn [assemble vertices vertexCount indices geo_id].
  assert (Hvs : length (flat_map (fun c : Vec3 F * Vec3 F =>
                                    [vx (fst c); vy (fst c); vz (fst c)]) corners)
                = (3 * length corners)%nat)
    by (apply flat_map_length_const; reflexivity).
  unfold Float32Array, Uint16Array. rewrite !length_map, Hvs, length_seq.
  replace (3 * length corners / 3)%nat with (length corners)
    by (rewrite Nat.mul_comm, Nat.div_mul; lia).
  repeat split.
  intros Hsmall. rewrite map_map.
  rewrite <- (map_id (seq 0 (length corners))) at 2.
  apply map_ext_in. intros i Hi. apply in_seq in Hi.
  apply ToUint16_small. lia.
Qed.
End BooleanMore.

Section BooleanUnion.
Context {F : Type} `{Number F}.
Import Boolean.
#[local] Abbreviation Plane := (@Boolean.Plane F).
#[local] Abbreviation Polygon := (@Boolean.Polygon F).
#[local] Abbreviation BSPNode := (@Boolean.BSPNode F).

Lemma allPolygons_backChain (levels : list (Plane * list Polygon)) (node : BSPNode) :
  backChain levels = Some node -> allPolygons node = concat (map snd levels).
Proof.
  revert node. induction levels as [|[pl ps] rest IH]; intros node E; [discriminate E|].
  cbn [backChain] in E. injection E as <-. cbn [allPolygons map concat snd app].
  f_equal. destruct (backChain rest) as [nb|] eqn:Eb.
  - apply IH. reflexivity.
  - destruct rest as [|[pl' ps'] rest']; [reflexivity|discriminate Eb].
Qed.

Lemma filter_sides_Permutation (pl : Plane) (polys : list Polygon) :
  (forall q, q ∈ polys -> sideOf pl q = OnFront \/ sideOf pl q = Behind) ->
  filter (fun q => sideOf pl q = OnFront) polys
    ++ filter (fun q => sideOf pl q = Behind) polys ≡ₚ polys.
Proof.
  induction polys as [|q polys IH]; intros Hall; [reflexivity|].
  rewrite !filter_cons.
  assert (IH' := IH (fun q' Hq' => Hall q' ltac:(right; exact Hq'))).
  destruct (Hall q ltac:(left)) as [E|E]; rewrite E.
  - rewrite decide_True by reflexivity. rewrite decide_False by discriminate.
    cbn [app]. constructor. exact IH'.
  - rewrite decide_False by discriminate. rewrite decide_True by reflexivity.
    rewrite <- Permutation_middle. constructor. exact IH'.
Qed.

Lemma levelsOf_Permutation (fuel : nat) :
  forall polys : list Polygon,
    (forall p, p ∈ polys -> sideOf (plane p) p = OnFront) ->
    (forall p q, p ∈ polys -> q ∈ polys ->
       sideOf (plane p) q = OnFront \/ sideOf (plane p) q = Behind) ->
    (length polys <= fuel)%nat ->
    concat (map snd (levelsOf fuel polys)) ≡ₚ polys.
Proof.
  induction fuel as [|fuel IH]; intros polys Hown Hpair Hlen.
  - destruct polys; [reflexivity|cbn in Hlen; lia].
  - destruct polys as [|p0 rest]; [reflexivity|].
    cbn [levelsOf map concat snd].
    set (polys := p0 :: rest) in *.
    assert (Hp0 : p0 ∈ polys) by left.
    rewrite IH.
    + apply filter_sides_Permutation. intros q Hq. apply Hpair; assumption.
    + intros p Hp. apply list_elem_of_filter in Hp as [_ Hp]. apply Hown, Hp.
    + intros p q Hp Hq. apply list_elem_of_filter in Hp as [_ Hp].
      apply list_elem_of_filter in Hq as [_ Hq]. apply Hpair; assumption.
    + subst polys. rewrite filter_cons.
      rewrite decide_False by (rewrite (Hown p0 Hp0); discriminate).
      pose proof (length_filter (fun q => sideOf (plane p0) q = Behind) rest).
      cbn [length] in Hlen. lia.
Qed.

(** The union of a convex mesh with a target that has no triangle returns
    the polygons of the mesh, each one once, in the order of the tree. *)
Theorem union_empty_target_convex (fuel : nat) (polys : list Polygon) :
  convexPolygons polys = true -> (length polys < fuel)%nat ->
  exists result,
    resultPolygons fuel union polys [] = Some result /\ result ≡ₚ polys.
Proof.
  intros Hc Hfuel. destruct fuel as [|fuel]; [lia|].
  rewrite resultPolygons_empty_target.
  destruct (decide (polys = [])) as [->|Hne]; [exists []; split; reflexivity|].
  assert (Hown : forall p, p ∈ polys -> sideOf (plane p) p = OnFront)
    by (intros p Hp; apply (convexPolygons_pair polys p p Hc Hp Hp)).
  assert (Hpair : forall p q, p ∈ polys -> q ∈ polys ->
             sideOf (plane p) q = OnFront \/ sideOf (plane p) q = Behind).
  { intros p q Hp Hq.
    destruct (convexPolygons_pair polys p q Hc Hp Hq) as (_ & [(E & _)|(E & _)]); auto. }
  pose proof (buildBSP_convex (S fuel) polys Hown Hpair Hne ltac:(lia)) as Hbuild.
  remember (levelsOf (S fuel) polys) as levels eqn:Elevels.
  destruct (buildBSP (S fuel) polys) as [tree|]; [|discriminate Hbuild].
  change (Some (Some tree) = Some (backChain levels)) in Hbuild.
  injection Hbuild as Htree. cbn [fmap option_fmap option_map].
  exists (allPolygons tree). split; [reflexivity|].
  rewrite (allPolygons_backChain _ _ (eq_sym Htree)), Elevels.
  apply levelsOf_Permutation; [exact Hown|exact Hpair|lia].
Qed.
End BooleanUnion.

(** ** Extrude: missing faces and what is kept *)

Section ExtrudeFacts.
Context {F : Type} `{Number F}.
Import Extrude.

Lemma map_get_None {K V : Type} `{EqDecision K} (m : list (K * V)) (k : K) :
  k ∉ map fst m -> map_get m k = None.
Proof.
  intros Hout. unfold map_get.
  destruct (list_find (fun kv => fst kv = k) m) as [[i kv]|] eqn:E; [|reflexivity].
  apply list_find_Some in E as (Hi & Hk & _). exfalso. apply Hout.
  apply list_elem_of_fmap. exists kv. split; [symmetry; exact Hk|].
  eapply list_elem_of_lookup_2. exact Hi.
Qed.

Lemma map_set_keys {K V : Type} `{EqDecision K} (m : list (K * V)) (k : K) (v : V)
    (x : K) :
  x ∈ map fst (map_set m k v) -> x = k \/ x ∈ map fst m.
Proof.
  unfold map_set.
  destruct (list_find (fun kv => fst kv = k) m) as [[i kv]|] eqn:E.
  - intros Hx. apply list_elem_of_fmap in Hx as ([k' v'] & -> & Hin). cbn [fst].
    apply list_elem_of_lookup_1 in Hin as [j Hj].
    destruct (decide (j = i)) as [->|Hne].
    + apply list_find_Some in E as (Hi & _).
      rewrite list_lookup_insert_eq in Hj by (eapply lookup_lt_Some; exact Hi).
      injection Hj as <- <-. left. reflexivity.
    + rewrite list_lookup_insert_ne in Hj by congruence. right.
      apply list_elem_of_fmap. exists (k', v'). split; [reflexivity|].
      eapply list_elem_of_lookup_2. exact Hj.
  - rewrite map_app. intros Hx. apply elem_of_app in Hx as [Hx|Hx]; [right; exact Hx|].
    cbn in Hx. apply list_elem_of_singleton in Hx. left. exact Hx.
Qed.

Lemma collectFaces_keys (geometry : EditableGeometry F) (selected : list nat) :
  forall acc k,
    k ∈ map fst (snd (fold_left (collectFace geometry) selected acc)) ->
    k ∈ map fst (snd acc) \/ (k < length (faces geometry))%nat.
Proof.
  induction selected as [|f selected IH]; intros acc k Hk; cbn [fold_left] in Hk.
  - left. exact Hk.
  - apply IH in Hk as [Hk|Hk]; [|right; exact Hk].
    unfold collectFace in Hk.
    destruct (faces geometry !! f) as [face|] eqn:Ef; [|left; exact Hk].
    cbn [snd] in Hk. apply map_set_keys in Hk as [->|Hk]; [|left; exact Hk].
    right. eapply lookup_lt_Some. exact Ef.
Qed.

Lemma updateFaces_None (m : list (idx * nat)) (faceMap : list (nat * Face F))
    (selected : list nat) :
  fold_left (updateFace m faceMap) selected None = None.
Proof. induction selected as [|f selected IH]; [reflexivity|exact IH]. Qed.

Lemma updateFaces_missing (m : list (idx * nat)) (faceMap : list (nat * Face F))
    (selected : list nat) (k : nat) acc :
  k ∈ selected -> map_get faceMap k = None ->
  fold_left (updateFace m faceMap) selected acc = None.
Proof.
  intros Hin Hget. revert acc.
  induction selected as [|f selected IH]; intros acc; [inversion Hin|].
  cbn [fold_left]. apply elem_of_cons in Hin as [<-|Hin]; [|apply IH, Hin].
  replace (updateFace m faceMap acc k) with (@None (list (Face F) * list idx)).
  - apply updateFaces_None.
  - unfold updateFace. destruct acc as [[newFaces newIndices]|]; [|reflexivity].
    cbn [mbind option_bind]. rewrite Hget. reflexivity.
Qed.

(** Selecting a face the mesh does not have makes [extrude] throw: the
    vertices are collected skipping it, and the update loop then reads the
    vertices of an [undefined] face. *)
Theorem extrude_missing_face (mesh : EditableMesh F) (selectedFaces : list nat)
    (options : ExtrudeOptions) (faceIdx : nat) :
  faceIdx ∈ selectedFaces ->
  (length (faces (geometry mesh)) <= faceIdx)%nat ->
  extrude mesh selectedFaces options = None.
Proof.
  intros Hin Hrange. unfold extrude.
  destruct selectedFaces as [|f0 rest] eqn:Esel; [inversion Hin|]. rewrite <- Esel in *.
  pose proof (collectFaces_keys (geometry mesh) selectedFaces ([], []) faceIdx) as Hkeys.
  destruct (fold_left (collectFace (geometry mesh)) selectedFaces ([], []))
    as [selectedVertices faceMap].
  cbn [snd map] in Hkeys.
  rewrite (updateFaces_missing _ faceMap selectedFaces faceIdx); [reflexivity|exact Hin|].
  apply map_get_None. intros Hk. destruct (Hkeys Hk) as [Hnil|Hlt]; [inversion Hnil|lia].
Qed.

Lemma extrudeVertices_prefix (geometry : EditableGeometry F) distance useNormals
    avgNormal (selectedVertices : list idx) (st : Buffers) :
  let st' := fold_left (extrudeVertex geometry distance useNormals avgNormal)
                       selectedVertices st in
  newVertices st `prefix_of` newVertices st'
  /\ newNormals st `prefix_of` newNormals st'
  /\ newUvs st `prefix_of` newUvs st'
  /\ length (newVertices st')
     = (length (newVertices st) + 3 * length selectedVertices)%nat.
Proof.
  revert st. induction selectedVertices as [|v vs IH]; intros st; cbn [fold_left length].
  - repeat split; [reflexivity..|lia].
  - destruct (IH (extrudeVertex geometry distance useNormals avgNormal st v))
      as (Hv & Hn & Hu & Hlen).
    set (st1 := extrudeVertex geometry distance useNormals avgNormal st v) in *.
    assert (Ev : exists x, newVertices st1 = newVertices st ++ x /\ length x = 3%nat)
      by (eexists; split; reflexivity).
    assert (En : exists x, newNormals st1 = newNormals st ++ x)
      by (eexists; reflexivity).
    assert (Eu : exists x, newUvs st1 = newUvs st ++ x) by (eexists; reflexivity).
    destruct Ev as (xv & Ev & Hxv), En as (xn & En), Eu as (xu & Eu).
    rewrite Ev in Hv, Hlen. rewrite En in Hn. rewrite Eu in Hu.
    repeat split.
    + etransitivity; [apply prefix_app_r; reflexivity|exact Hv].
    + etransitivity; [apply prefix_app_r; reflexivity|exact Hn].
    + etransitivity; [apply prefix_app_r; reflexivity|exact Hu].
    + rewrite Hlen, length_app. cbn [length]. lia.
Qed.

Lemma sideQuads_prefix (m : list (idx * nat)) (newVertices : list F)
    (es : list (idx * idx)) (out : Output) :
  outEdges out `prefix_of` outEdges (fold_left (sideQuad m newVertices) es out)
  /\ length (outEdges (fold_left (sideQuad m newVertices) es out))
     = (length (outEdges out) + 2 * length es)%nat.
Proof.
  revert out. induction es as [|[a b] es IH]; intros out; cbn [fold_left length].
  - split; [reflexivity|lia].
  - destruct (IH (sideQuad m newVertices out (a, b))) as [Hp Hl].
    assert (E : outEdges (sideQuad m newVertices out (a, b))
                = outEdges out ++ [mkEdge a (map_get m a); mkEdge b (map_get m b)])
      by reflexivity.
    rewrite E in Hp, Hl. split.
    + etransitivity; [apply prefix_app_r; reflexivity|exact Hp].
    + rewrite Hl, length_app. cbn [length]. lia.
Qed.

Lemma Float32Array_prefix (old new : list F) :
  old `prefix_of` new -> Float32Array old `prefix_of` Float32Array new.
Proof. intros [k ->]. unfold Float32Array. rewrite map_app. eexists. reflexivity. Qed.

(** What [extrude] returns extends the input: the old vertices, normals and
    uvs keep their places (rounded to single precision), and the old edge
    list is kept as it was, with an even number of rails appended. *)
Theorem extrude_extends_input (mesh m' : EditableMesh F) (selectedFaces : list nat)
    (options : ExtrudeOptions) :
  selectedFaces <> [] ->
  extrude mesh selectedFaces options = Some m' ->
  let g := geometry mesh in
  let g' := geometry m' in
  Float32Array (vertices g) `prefix_of` vertices g'
  /\ Float32Array (normals g) `prefix_of` normals g'
  /\ Float32Array (uvs g) `prefix_of` uvs g'
  /\ edges g `prefix_of` edges g'
  /\ Nat.Even (length (edges g') - length (edges g))
  /\ geo_id g' = geo_id g.
Proof.
  intros Hsel. unfold extrude.
  destruct selectedFaces as [|f0 rest] eqn:Esel; [contradiction|]. rewrite <- Esel.
  destruct (fold_left (collectFace (geometry mesh)) selectedFaces ([], []))
    as [selectedVertices faceMap].
  set (st0 := mkBuffers _ _ _ _ _).
  destruct (extrudeVertices_prefix (geometry mesh) (distance options)
              (default true (useNormals options))
              (vec3Normalize (fold_left (fun n kv => vec3Add n (face_normal (snd kv)))
                                        faceMap vec3Zero))
              selectedVertices st0) as (Hv & Hn & Hu & _).
  set (st := fold_left _ selectedVertices st0) in *.
  destruct (fold_left (updateFace _ _) selectedFaces _) as [[newFaces newIndices]|];
    [|discriminate].
  cbn [mbind option_bind].
  destruct (mapM _ selectedFaces) as [boundaryEdges|]; [|discriminate].
  cbn [mbind option_bind]. intros [= <-].
  destruct (sideQuads_prefix (vertexMapping st) (newVertices st)
              (concat boundaryEdges)
              (mkOutput newIndices (edges (geometry mesh)) newFaces)) as [He Hl].
  cbn [outEdges] in He, Hl.
  cbn [geometry with_geometry assemble vertices normals uvs edges geo_id].
  split; [apply Float32Array_prefix, Hv|]. split; [apply Float32Array_prefix, Hn|].
  split; [apply Float32Array_prefix, Hu|]. split; [exact He|].
  split; [|reflexivity].
  rewrite Hl. exists (length (concat boundaryEdges)). lia.
Qed.
End ExtrudeFacts.

(** ** Loop cut and array: counts *)

Section LoopCutVertices.
Context {F : Type} `{Number F}.
Import LoopCut.

Lemma cutVertices_grow (geometry : EditableGeometry F) (k : Z) (a b : nat)
    (cuts : list nat) (acc : Buffers * list nat) :
  newVertices (fst acc)
    `prefix_of` newVertices (fst (fold_left (cutVertex geometry k a b) cuts acc))
  /\ length (newVertices (fst (fold_left (cutVertex geometry k a b) cuts acc)))
     = (length (newVertices (fst acc)) + 3 * length cuts)%nat.
Proof.
  revert acc. induction cuts as [|i cuts IH]; intros acc; cbn [fold_left length].
  - split; [reflexivity|lia].
  - destruct (IH (cutVertex geometry k a b acc i)) as [Hp Hl].
    set (acc1 := cutVertex geometry k a b acc i) in *.
    assert (E : exists x, newVertices (fst acc1) = newVertices (fst acc) ++ x
                          /\ length x = 3%nat) by (eexists; split; reflexivity).
    destruct E as (x & E & Hx). rewrite E in Hp, Hl. split.
    + etransitivity; [apply prefix_app_r; reflexivity|exact Hp].
    + rewrite Hl, length_app, Hx. lia.
Qed.

Lemma cutSelectedEdges_grow (geometry : EditableGeometry F) (k : Z)
    (selectedEdges : list (nat * nat)) (st : Buffers) :
  newVertices st
    `prefix_of` newVertices (fold_left (cutSelectedEdge geometry k) selectedEdges st)
  /\ length (newVertices (fold_left (cutSelectedEdge geometry k) selectedEdges st))
     = (length (newVertices st) + 3 * (Z.to_nat k * length selectedEdges))%nat.
Proof.
  revert st. induction selectedEdges as [|[a b] es IH]; intros st; cbn [fold_left length].
  - split; [reflexivity|lia].
  - destruct (IH (cutSelectedEdge geometry k st (a, b))) as [Hp Hl].
    destruct (cutVertices_grow geometry k a b (seq 1 (Z.to_nat k)) (st, [])) as [Hp1 Hl1].
    assert (E : newVertices (cutSelectedEdge geometry k st (a, b))
                = newVertices (fst (fold_left (cutVertex geometry k a b)
                                              (seq 1 (Z.to_nat k)) (st, [])))).
    { unfold cutSelectedEdge.
      destruct (fold_left (cutVertex geometry k a b) _ _) as [st' nv]. reflexivity. }
    rewrite E in Hp, Hl. cbn [fst] in Hp1, Hl1. rewrite length_seq in Hl1. split.
    + etransitivity; [exact Hp1|exact Hp].
    + rewrite Hl, Hl1. lia.
Qed.

(** A loop cut keeps every vertex of the input at its index and adds
    [numberOfCuts] vertices for every entry of the selection, also for an edge
    that is selected twice. *)
Theorem loopCut_vertices (mesh : EditableMesh F) (selectedEdges : list (nat * nat))
    (options : LoopCutOptions) :
  selectedEdges <> [] ->
  let k := Z.to_nat (default 1 (numberOfCuts options)) in
  let g := geometry mesh in
  let g' := geometry (loopCut mesh selectedEdges options) in
  Float32Array (vertices g) `prefix_of` vertices g'
  /\ length (vertices g')
     = (length (vertices g) + 3 * (k * length selectedEdges))%nat.
Proof.
  intros Hsel k g g'. subst g'. unfold loopCut.
  destruct selectedEdges as [|e rest] eqn:Esel; [contradiction|]. rewrite <- Esel.
  destruct (cutSelectedEdges_grow g (default 1 (numberOfCuts options)) selectedEdges
              (mkBuffers (vertices g) (normals g) (uvs g) [])) as [Hp Hl].
  cbn [newVertices] in Hp, Hl.
  cbn [geometry with_geometry assemble vertices]. fold g. split.
  - destruct Hp as [x ->]. unfold Float32Array. rewrite map_app. eexists. reflexivity.
  - unfold Float32Array. rewrite length_map. exact Hl.
Qed.
End LoopCutVertices.

(** ** Loop cut: the fan over one cut edge *)

Section LoopCutFan.
Context {F : Type} `{Number F}.
Import LoopCut.

Lemma cutVertices_fresh (geometry : EditableGeometry F) (numberOfCuts : Z) (a b : nat)
    (k : nat) :
  forall (s m : nat) (st : @Buffers F) (acc : list nat),
    length (newVertices st) = (3 * m)%nat ->
    snd (fold_left (cutVertex geometry numberOfCuts a b) (seq s k) (st, acc))
    = acc ++ seq m k
    /\ edgeVertexMap (fst (fold_left (cutVertex geometry numberOfCuts a b) (seq s k) (st, acc)))
       = edgeVertexMap st.
Proof.
  induction k as [|k IH]; intros s m st acc Hlen; cbn [seq fold_left].
  - rewrite app_nil_r. split; reflexivity.
  - set (step := cutVertex geometry numberOfCuts a b (st, acc) s).
    assert (Hstep : exists st1, step = (st1, acc ++ [m])
                                /\ length (newVertices st1) = (3 * S m)%nat
                                /\ edgeVertexMap st1 = edgeVertexMap st).
    { eexists. subst step. unfold cutVertex. cbn [fst snd]. rewrite Hlen.
      replace (3 * m / 3)%nat with m by (rewrite Nat.mul_comm, Nat.div_mul; lia).
      split; [reflexivity|]. cbn [newVertices edgeVertexMap]. rewrite length_app, Hlen.
      cbn [length]. split; [lia|reflexivity]. }
    destruct Hstep as (st1 & -> & Hlen1 & Hmap1).
    destruct (IH (S s) (S m) st1 (acc ++ [m]) Hlen1) as [-> ->].
    rewrite <- app_assoc. split; [reflexivity|exact Hmap1].
Qed.

Lemma edgeVertexMap_get_single (key key' : Edge) (ws : list nat) :
  edgeVertexMap_get [(key, ws)] key' = if decide (key' = key) then Some ws else None.
Proof.
  unfold edgeVertexMap_get. cbn.
  destruct (decide (key = key')) as [->|Hne].
  - rewrite decide_True by reflexivity. reflexivity.
  - rewrite decide_False by congruence. reflexivity.
Qed.

(** The triangle list of the one-cut case, as a fan over the path. *)
Lemma oneCut_path (c y : idx) (ws : list nat) :
  ws <> [] ->
  forall x : idx,
    [c; x; at_ ws 0]
      ++ flat_map (fun k => [c; at_ ws k; at_ ws (k + 1)]) (seq 0 (length ws - 1))
      ++ [c; last_ ws; y]
    = fanOver c ([x] ++ map Some ws ++ [y]).
Proof.
  induction ws as [|w ws IH]; intros Hne x; [contradiction|].
  destruct ws as [|w' ws].
  - reflexivity.
  - specialize (IH ltac:(discriminate) (Some w)).
    unfold fanOver in *. cbn [app map tail zip zip_with flat_map fst snd] in *.
    rewrite <- IH. clear IH. cbn [length Nat.sub seq flat_map at_ lookup list_lookup].
    rewrite Nat.sub_0_r. unfold at_, last_.
    change (last (w :: w' :: ws)) with (last (w' :: ws)).
    cbn [app]. do 6 f_equal.
    rewrite <- seq_shift, flat_map_concat_map, map_map, <- flat_map_concat_map.
    reflexivity.
Qed.
Lemma edgeKey_eq (x y a b : nat) :
  edgeKey (Some x) (Some y) = edgeKey (Some a) (Some b)
  <-> (x = a /\ y = b) \/ (x = b /\ y = a).
Proof.
  unfold edgeKey, js_min, js_max. split.
  - intros [= Hmin Hmax]. lia.
  - intros [[-> ->]|[-> ->]]; [reflexivity|]. f_equal; f_equal; lia.
Qed.

Lemma edgeVertexMap_get_onEdge (a b : nat) (ws : list nat) (x y : idx) :
  edgeVertexMap_get [(edgeKey (Some a) (Some b), ws)] (edgeKey x y)
  = if onEdge a b x y then Some ws else None.
Proof.
  rewrite edgeVertexMap_get_single. unfold onEdge.
  destruct (decide (edgeKey x y = edgeKey (Some a) (Some b))) as [E|E].
  - rewrite bool_decide_eq_true_2 by exact E. reflexivity.
  - rewrite bool_decide_eq_false_2 by exact E. reflexivity.
Qed.

Lemma onEdge_true (a b x y : nat) :
  onEdge a b (Some x) (Some y) = true <-> (x = a /\ y = b) \/ (x = b /\ y = a).
Proof. unfold onEdge. rewrite bool_decide_eq_true. apply edgeKey_eq. Qed.

(** With one edge cut, a triangle of three different corners is fanned from
    the corner opposite its cut side, or kept. *)
Lemma cutTriangle_fanned (numberOfCuts : Z) (a b : nat) (ws : list nat)
    (tri : idx * idx * idx) :
  a <> b -> ws <> [] -> threeCorners tri ->
  cutTriangle numberOfCuts [(edgeKey (Some a) (Some b), ws)] tri = fanned a b ws tri.
Proof.
  intros Hab Hws. destruct tri as [[t0 t1] t2].
  intros (x & y & z & -> & -> & -> & Hxy & Hyz & Hzx).
  assert (Hrev : reverse ws <> []).
  { intros E. apply (f_equal length) in E. rewrite length_reverse in E.
    destruct ws; [contradiction|discriminate E]. }
  assert (Hpath : forall p q, (if idx_lt p q then ws else reverse ws) <> [])
    by (intros p q; destruct (idx_lt p q); assumption).
  unfold cutTriangle, findCutEdges, fanned.
  cbn [flat_map]. rewrite !edgeVertexMap_get_onEdge.
  destruct (onEdge a b (Some x) (Some y)) eqn:E01;
    destruct (onEdge a b (Some y) (Some z)) eqn:E12;
    destruct (onEdge a b (Some z) (Some x)) eqn:E20;
    rewrite ?onEdge_true in *; try lia;
    cbn [app]; try reflexivity;
    unfold oneCut; cbn [edge newVerts];
    unfold cutPath; rewrite <- (oneCut_path _ _ _ (Hpath _ _)); f_equal;
    unfold findVertex, idx_eqb.
  all: try (rewrite (bool_decide_eq_false_2 (Some y = Some x)) by congruence).
  all: try (rewrite (bool_decide_eq_false_2 (Some z = Some x)) by congruence).
  all: try (rewrite (bool_decide_eq_false_2 (Some z = Some y)) by congruence).
  all: try (rewrite (bool_decide_eq_false_2 (Some x = Some y)) by congruence).
  all: try (rewrite (bool_decide_eq_false_2 (Some x = Some z)) by congruence).
  all: try (rewrite (bool_decide_eq_false_2 (Some y = Some z)) by congruence).
  all: rewrite ?bool_decide_eq_true_2 by reflexivity.
  all: cbn [negb andb].
  all: reflexivity.
Qed.

Lemma fanOver_length (c : idx) (path : list idx) :
  length (fanOver c path) = (3 * (length path - 1))%nat.
Proof.
  unfold fanOver. rewrite (flat_map_length_const _ 3) by reflexivity.
  rewrite length_zip_with. change (tail path) with (tl path). rewrite length_tl. lia.
Qed.

Lemma fanned_length (a b : nat) (ws : list nat) (tri : idx * idx * idx) :
  length (fanned a b ws tri)
  = if hasCutSide a b tri then (3 * (length ws + 1))%nat else 3%nat.
Proof.
  destruct tri as [[t0 t1] t2]. unfold fanned, hasCutSide.
  assert (Hpath : forall x y, length (fanOver t2 (cutPath x y ws)) = (3 * (length ws + 1))%nat).
  { intros x y. rewrite fanOver_length. unfold cutPath.
    rewrite !length_app, length_map. cbn [length].
    destruct (idx_lt x y); rewrite ?length_reverse; lia. }
  destruct (onEdge a b t0 t1), (onEdge a b t1 t2), (onEdge a b t2 t0); cbn [orb];
    rewrite ?fanOver_length; try reflexivity;
    unfold cutPath; rewrite !length_app, length_map; cbn [length];
    match goal with |- context [idx_lt ?x ?y] => destruct (idx_lt x y) end;
    rewrite ?length_reverse; lia.
Qed.

Lemma fanned_total (a b : nat) (ws : list nat) (tris : list (idx * idx * idx)) :
  length (flat_map (fanned a b ws) tris)
  = (3 * (length tris
          + length ws * length (filter (fun t => hasCutSide a b t = true) tris)))%nat.
Proof.
  induction tris as [|t tris IH];
    [rewrite filter_nil; cbn [flat_map length]; lia|].
  cbn [flat_map]. rewrite length_app, IH, fanned_length, filter_cons.
  destruct (hasCutSide a b t).
  - rewrite decide_True by reflexivity. cbn [length]. lia.
  - rewrite decide_False by discriminate. cbn [length]. lia.
Qed.

(** A loop cut of one edge with [k] cuts fans every triangle that has the
    edge for a side from its opposite corner over the [k] fresh vertices,
    and keeps every other triangle. *)
Theorem loopCut_one_edge_fans (mesh : EditableMesh F) (a b k n : nat)
    (smoothness : option F) :
  let g := geometry mesh in
  let m' := loopCut mesh [(a, b)] (mkOptions (Some (Z.of_nat k)) smoothness) in
  a <> b -> (1 <= k)%nat -> length (vertices g) = (3 * n)%nat ->
  Forall threeCorners (triangles (indices g)) ->
  indices (geometry m')
  = Uint16Array (flat_map (fanned a b (seq n k)) (triangles (indices g)))
  /\ triangleCount m'
     = (triangleCount mesh
        + k * length (filter (fun t => hasCutSide a b t = true)
                             (triangles (indices g))))%nat.
Proof.
  intros g m' Hab Hk Hlen Htris.
  assert (Hidx : indices (geometry m')
                 = Uint16Array (flat_map (fanned a b (seq n k)) (triangles (indices g)))).
  { subst m'. unfold loopCut. fold g.
    change (default 1%Z (numberOfCuts (mkOptions (Some (Z.of_nat k)) smoothness)))
      with (Z.of_nat k).
    cbn [fold_left]. unfold cutSelectedEdge.
    destruct (cutVertices_fresh g (Z.of_nat k) a b k 1 n
                (mkBuffers (vertices g) (normals g) (uvs g) []) [] Hlen) as [Hfresh Hmap].
    rewrite Nat2Z.id.
    destruct (fold_left (cutVertex g (Z.of_nat k) a b) (seq 1 k) _) as [st newVerts].
    cbn [fst snd app edgeVertexMap] in *. subst newVerts. rewrite Hmap.
    cbn [geometry with_geometry assemble indices app]. f_equal.
    apply flat_map_ext_elem. intros tri Htri.
    apply cutTriangle_fanned; [exact Hab| |].
    - destruct k; [lia|discriminate].
    - rewrite Forall_forall in Htris. apply Htris, Htri. }
  split; [exact Hidx|].
  unfold triangleCount at 1. rewrite Hidx. apply length_triangles_whole.
  unfold Uint16Array. rewrite length_map, fanned_total, length_seq.
  unfold triangleCount. fold g. reflexivity.
Qed.
End LoopCutFan.

Section ArrayFacts.
Context {F : Type} `{Number F}.
Import Array.

Lemma copyVertices_length (geometry : EditableGeometry F) (copyOffset : Vec3 F)
    (todo : list nat) (b : Buffers) :
  length (newVertices (fold_left (copyVertex geometry copyOffset) todo b))
  = (length (newVertices b) + 3 * length todo)%nat
  /\ newIndices (fold_left (copyVertex geometry copyOffset) todo b) = newIndices b.
Proof.
  revert b. induction todo as [|i todo IH]; intros b; cbn [fold_left length].
  - split; [lia|reflexivity].
  - destruct (IH (copyVertex geometry copyOffset b i)) as [Hl Hi].
    rewrite Hl, Hi. unfold copyVertex. cbn [newVertices newIndices].
    rewrite length_app. cbn [length]. split; [lia|reflexivity].
Qed.


Lemma copies_fold (geometry : EditableGeometry F) (actualOffset : Vec3 F)
    (n : nat) :
  forall (s : nat) (b : Buffers),
    length (newVertices b) = (3 * (s * vertexCount geometry))%nat ->
    let b' := fold_left (copyGeometry geometry actualOffset)
                        (map Z.of_nat (seq s n)) b in
    length (newVertices b') = (3 * ((s + n) * vertexCount geometry))%nat
    /\ newIndices b' = newIndices b ++ flat_map (copyIndices geometry) (seq s n).
Proof.
  induction n as [|n IH]; intros s b Hb; cbn [seq map fold_left flat_map].
  - rewrite app_nil_r. split; [rewrite Hb; f_equal; lia|reflexivity].
  - set (b1 := copyGeometry geometry actualOffset b (Z.of_nat s)).
    assert (H1 : length (newVertices b1) = (3 * (S s * vertexCount geometry))%nat
                 /\ newIndices b1 = newIndices b ++ copyIndices geometry s).
    { subst b1. unfold copyGeometry.
      destruct (copyVertices_length geometry
                  (mkVec3 (vx actualOffset *! of_Z (Z.of_nat s))
                          (vy actualOffset *! of_Z (Z.of_nat s))
                          (vz actualOffset *! of_Z (Z.of_nat s)))
                  (seq 0 (vertexCount geometry)) b) as [Hl Hi].
      cbn [newVertices newIndices]. rewrite Hl, Hi, length_seq, Hb. split; [lia|].
      f_equal. unfold copyIndices. apply map_ext. intros i. do 2 f_equal.
      rewrite Nat.mul_comm, Nat.div_mul by lia. reflexivity. }
    destruct H1 as [Hl1 Hi1]. destruct (IH (S s) b1 Hl1) as [Hl Hi].
    split; [rewrite Hl; f_equal; lia|].
    rewrite Hi, Hi1, <- app_assoc. reflexivity.
Qed.

(** Without merging, [array] lays [count] copies of the mesh one after the
    other: the vertex count is [count] times the vertex count of the input,
    and the index buffer is the input's, repeated with the indices of copy
    [k] moved up by [k] vertex counts (and stored in 16 bits). *)
Theorem array_copies (mesh : EditableMesh F) (options : ArrayOptions) :
  (1 < count options)%Z -> mergeVertices options = false ->
  let n := Z.to_nat (count options) in
  let g := geometry mesh in
  let g' := geometry (array mesh options) in
  vertexCount g' = (n * vertexCount g)%nat
  /\ length (vertices g') = (3 * (n * vertexCount g))%nat
  /\ indices g' = Uint16Array (flat_map (copyIndices g) (seq 0 n))
  /\ length (indices g') = (n * length (indices g))%nat.
Proof.
  intros Hcount Hmerge n g g'. subst g'. unfold array.
  destruct (Z.leb_spec (count options) 1) as [Hle|_]; [lia|].
  rewrite Hmerge. fold g. fold n.
  destruct (copies_fold g (actualOffset g options) n 0 (mkBuffers [] [] [] []))
    as [Hl Hi]; [reflexivity|].
  cbn [newIndices app] in Hi. cbn [Nat.add] in Hl.
  set (b := fold_left _ _ _) in *.
  cbn [geometry with_geometry assemble vertexCount vertices indices].
  unfold Float32Array. rewrite length_map, Hl, Hi.
  split; [rewrite Nat.mul_comm, Nat.div_mul by lia; reflexivity|].
  split; [reflexivity|]. split; [reflexivity|].
  unfold Uint16Array. rewrite length_map.
  rewrite (flat_map_length_const _ (length (indices g)));
    [rewrite length_seq; lia|].
  intros k. unfold copyIndices. apply length_map.
Qed.
End ArrayFacts.

(** ** Merging and cutting: nothing dangles, nothing is lost *)

Section MergeFacts.
Context {F : Type} `{Number F}.
Import Array.


Lemma mergeVertex_ok (vertices normals uvs : list F) (thresholdSq : F)
    (st : @MergeState F) (i done : nat) :
  merge_ok st done -> merge_ok (mergeVertex vertices normals uvs thresholdSq st i) (S done).
Proof.
  intros (Hmap & Hkept & Hle & Hall). unfold mergeVertex.
  destruct (List.find _ _) as [j|] eqn:Efind.
  - apply find_some in Efind as [Hj _]. apply in_seq in Hj.
    rewrite Hkept, Nat.mul_comm, Nat.div_mul in Hj by lia.
    unfold merge_ok. cbn [indexMap keptVertices newIdx].
    rewrite length_app. cbn [length]. repeat split; [lia|exact Hkept|lia|].
    apply Forall_app. split; [exact Hall|]. constructor; [lia|constructor].
  - unfold merge_ok. cbn [indexMap keptVertices newIdx].
    rewrite !length_app. cbn [length]. repeat split; [lia|lia|lia|].
    apply Forall_app. split.
    + eapply Forall_impl; [exact Hall|]. cbn. intros; lia.
    + constructor; [lia|constructor].
Qed.

Lemma mergeVertices_ok (vertices normals uvs : list F) (thresholdSq : F)
    (n : nat) :
  forall (s : nat) (st : @MergeState F),
    merge_ok st s ->
    merge_ok (fold_left (mergeVertex vertices normals uvs thresholdSq) (seq s n) st)
             (s + n).
Proof.
  induction n as [|n IH]; intros s st Hok; cbn [seq fold_left].
  - rewrite Nat.add_0_r. exact Hok.
  - replace (s + S n)%nat with (S s + n)%nat by lia.
    apply IH, mergeVertex_ok, Hok.
Qed.

(** Merging close vertices never adds a vertex and never leaves an index
    dangling: when every index names a vertex of the input, every index of
    the output names a vertex that was kept. *)
Theorem mergeCloseVertices_in_range (vertices normals uvs : list F)
    (indices : list nat) (threshold : F) :
  Forall (fun i => (i < length vertices / 3)%nat) indices ->
  let m := mergeCloseVertices vertices normals uvs indices threshold in
  (merged_vertexCount m <= length vertices / 3)%nat
  /\ length (merged_vertices m) = (3 * merged_vertexCount m)%nat
  /\ length (merged_indices m) = length indices
  /\ Forall (fun i => (i < merged_vertexCount m)%nat) (merged_indices m).
Proof.
  intros Hin m. subst m. unfold mergeCloseVertices.
  destruct (mergeVertices_ok vertices normals uvs (threshold *! threshold)
              (length vertices / 3) 0 (mkMergeState [] [] [] [] 0))
    as (Hmap & Hkept & Hle & Hall).
  { repeat split; [cbn; lia|constructor]. }
  set (st := fold_left _ _ _) in *.
  cbn [merged_vertexCount merged_vertices merged_indices].
  unfold Float32Array, Uint16Array. rewrite !length_map, Hkept.
  replace (3 * newIdx st / 3)%nat with (newIdx st)
    by (rewrite Nat.mul_comm, Nat.div_mul; lia).
  repeat split; [lia|].
  rewrite Forall_forall in Hin, Hall. apply Forall_forall. intros i Hi.
  apply list_elem_of_fmap in Hi as (x & -> & Hx).
  apply list_elem_of_fmap in Hx as (k & -> & Hk).
  specialize (Hin k Hk). cbv beta in Hin.
  cbn [Nat.add] in Hmap.
  destruct (lookup_lt_is_Some_2 (indexMap st) k) as [j Ej];
    [rewrite Hmap; exact Hin|].
  rewrite Ej. change (default k (Some j)) with j.
  pose proof (Hall j (list_elem_of_lookup_2 _ _ _ Ej)) as Hj. cbv beta in Hj.
  pose proof (ToUint16_le j). lia.
Qed.
End MergeFacts.

Section KnifeFacts.
Context {F : Type} `{Number F}.
Import Knife.

Lemma splitEdge_grow (b : Buffers) (v0 v1 : idx) (t : F) :
  exists x, vertices_ (fst (splitEdge b v0 v1 t)) = vertices_ b ++ x
            /\ length x = 3%nat.
Proof. eexists. split; reflexivity. Qed.

Lemma rebuildTriangle_grow (m : CutMap) (st : Buffers * list idx)
    (tri : nat * (idx * idx * idx)) :
  let st' := rebuildTriangle m st tri in
  vertices_ (fst st) `prefix_of` vertices_ (fst st')
  /\ (length (vertices_ (fst st')) <= length (vertices_ (fst st)) + 6)%nat
  /\ (length (snd st) + 3 <= length (snd st'))%nat
  /\ (length (snd st') <= length (snd st) + 9)%nat.
Proof.
  destruct st as [b indices], tri as [triIdx [[i0 i1] i2]].
  unfold rebuildTriangle.
  destruct (default [] (cuts_get m triIdx)) as [|c [|c1 [|c2 rest]]].
  - cbn [fst snd]. rewrite length_app. cbn [length].
    repeat split; [reflexivity|lia..].
  - destruct (splitEdge_grow b (fst (edgeVertsOf i0 i1 i2 (edge c)))
                (snd (edgeVertsOf i0 i1 i2 (edge c))) (cut_t c)) as (x & E & Hx).
    destruct (splitEdge b _ _ _) as [b1 newVert]. cbn [fst snd] in *.
    rewrite E, !length_app, Hx. cbn [length].
    repeat split; [apply prefix_app_r; reflexivity|lia..].
  - destruct (sortTwo c c1) as [s0 s1].
    destruct (splitEdge_grow b (fst (edgeVertsOf i0 i1 i2 (edge s0)))
                (snd (edgeVertsOf i0 i1 i2 (edge s0))) (cut_t s0)) as (x & E & Hx).
    destruct (splitEdge b _ _ _) as [b1 newVert0]. cbn [fst] in E.
    destruct (splitEdge_grow b1 (fst (edgeVertsOf i0 i1 i2 (edge s1)))
                (snd (edgeVertsOf i0 i1 i2 (edge s1))) (cut_t s1)) as (y & E1 & Hy).
    destruct (splitEdge b1 _ _ _) as [b2 newVert1]. cbn [fst] in E1.
    destruct (_ || _); cbn [fst snd]; rewrite E1, E, !length_app, Hx, Hy;
      cbn [length];
      (repeat split; [rewrite <- app_assoc; apply prefix_app_r; reflexivity|lia..]).
  - cbn [fst snd]. rewrite length_app. cbn [length].
    repeat split; [reflexivity|lia..].
Qed.

Lemma rebuildTriangles_grow (m : CutMap) (tris : list (nat * (idx * idx * idx))) :
  forall st : Buffers * list idx,
    let st' := fold_left (rebuildTriangle m) tris st in
    vertices_ (fst st) `prefix_of` vertices_ (fst st')
    /\ (length (vertices_ (fst st'))
        <= length (vertices_ (fst st)) + 6 * length tris)%nat
    /\ (length (snd st) + 3 * length tris <= length (snd st'))%nat
    /\ (length (snd st') <= length (snd st) + 9 * length tris)%nat.
Proof.
  induction tris as [|t tris IH]; intros st; cbn [fold_left length].
  - repeat split; [reflexivity|lia..].
  - destruct (rebuildTriangle_grow m st t) as (Hp1 & Hv1 & Hlo1 & Hhi1).
    destruct (IH (rebuildTriangle m st t)) as (Hp & Hv & Hlo & Hhi).
    repeat split; [etransitivity; [exact Hp1|exact Hp]|lia..].
Qed.

(** The end of both proofs below: the rebuild loop, run on the triangles of
    [g], the geometry of [mesh], with the cuts [m]. *)
Ltac knife_rebuilt mesh g m :=
  let Hp := fresh "Hp" in
  let Hv := fresh "Hv" in
  let Hlo := fresh "Hlo" in
  let Hhi := fresh "Hhi" in
  let Hn := fresh "Hn" in
  let b := fresh "b" in
  let newIndices := fresh "newIndices" in
  let x := fresh "x" in
  destruct (rebuildTriangles_grow m (numbered (indices g))
              (mkBuffers (vertices g) (normals g) (uvs g), []))
    as (Hp & Hv & Hlo & Hhi);
  destruct (fold_left (rebuildTriangle m) (numbered (indices g))
              (mkBuffers (vertices g) (normals g) (uvs g), []))
    as [b newIndices];
  cbn [fst snd vertices_ length] in Hp, Hv, Hlo, Hhi;
  assert (Hn : length (numbered (indices g)) = triangleCount mesh)
    by (unfold numbered, triangleCount; rewrite length_imap; reflexivity);
  rewrite Hn in Hv, Hlo, Hhi;
  cbn [geometry with_geometry assemble vertices indices];
  unfold Float32Array, Uint16Array; rewrite !length_map;
  split; [destruct Hp as [x ->]; rewrite map_app; eexists; reflexivity|lia].

(** A knife cut only adds: the vertices of the input keep their places, at
    most two vertices are added per triangle (partial triangles counted), and
    every triangle of the input is replaced by one, two or three triangles. *)
Theorem knifeCut_only_adds (mesh : EditableMesh F) (cut : KnifeCut) :
  (2 <= length (points cut))%nat ->
  let g := geometry mesh in
  let g' := geometry (knifeCut mesh cut) in
  Float32Array (vertices g) `prefix_of` vertices g'
  /\ (length (vertices g') <= length (vertices g) + 6 * triangleCount mesh)%nat
  /\ (3 * triangleCount mesh <= length (indices g'))%nat
  /\ (length (indices g') <= 9 * triangleCount mesh)%nat.
Proof.
  intros Hpoints g g'. subst g'. unfold knifeCut.
  destruct (Nat.ltb_spec (length (points cut)) 2) as [Hlt|_]; [lia|]. fold g.
  knife_rebuilt mesh g (fold_left (cutSegment g cut) (pathSegments (points cut)) []).
Qed.

(** [knifeProject] returns the mesh itself when the projected mesh has no
    edge; otherwise it cuts through the mesh along the ends of all the edges
    taken as one path, and like every knife cut it only adds. *)
Theorem knifeProject_only_adds (mesh projectMesh : EditableMesh F)
    (viewDirection : Vec3 F) :
  let g := geometry mesh in
  let g' := geometry (knifeProject mesh projectMesh viewDirection) in
  (edges (geometry projectMesh) = [] ->
   knifeProject mesh projectMesh viewDirection = mesh)
  /\ (edges (geometry projectMesh) <> [] ->
      Float32Array (vertices g) `prefix_of` vertices g'
      /\ (length (vertices g') <= length (vertices g) + 6 * triangleCount mesh)%nat
      /\ (3 * triangleCount mesh <= length (indices g'))%nat
      /\ (length (indices g') <= 9 * triangleCount mesh)%nat).
Proof.
  intros g g'. subst g'. unfold knifeProject. split.
  - intros ->. reflexivity.
  - intros Hne.
    set (cuts := flat_map _ (edges (geometry projectMesh))).
    assert (Hlen : (2 <= length cuts)%nat).
    { subst cuts. rewrite (flat_map_length_const _ 2) by reflexivity.
      destruct (edges (geometry projectMesh)); [contradiction|cbn [length]; lia]. }
    destruct (Nat.ltb_spec (length cuts) 2) as [Hlt|_]; [lia|].
    unfold knifeCut. cbn [points].
    destruct (Nat.ltb_spec (length cuts) 2) as [Hlt|_]; [lia|]. fold g.
    knife_rebuilt mesh g (fold_left (cutSegment g (mkKnifeCut cuts true false zero))
                               (pathSegments cuts) []).
Qed.
End KnifeFacts.

(** ** Bridge: counts and the negative twist *)

Section BridgeFacts.
Context {F : Type} `{Number F}.
Import Bridge.

Lemma at_wrap_Some {A : Type} (a : list A) (i : nat) (offset : Z) :
  (0 <= offset)%Z -> (0 < length a)%nat -> is_Some (at_ a (wrap a i offset)).
Proof.
  intros Hoff Hlen. unfold at_, wrap.
  pose proof (Z.rem_bound_pos (Z.of_nat i + offset) (Z.of_nat (length a))
                ltac:(lia) ltac:(lia)) as [Hlo Hhi].
  destruct (Z.ltb_spec (Z.rem (Z.of_nat i + offset) (Z.of_nat (length a))) 0); [lia|].
  apply lookup_lt_is_Some_2. lia.
Qed.

Lemma at_negative {A : Type} (a : list A) (k : Z) : (k < 0)%Z -> at_ a k = None.
Proof. intros Hk. unfold at_. destruct (Z.ltb_spec k 0); [reflexivity|lia]. Qed.

Lemma totalDistance_Some (loop1 loop2 : list (Vec3 F)) (offset : nat) :
  length loop1 = length loop2 -> is_Some (totalDistance loop1 loop2 offset).
Proof.
  intros Hlen. unfold totalDistance.
  assert (Hgen : forall (todo : list nat) (acc : option F),
             is_Some acc -> Forall (fun i => (i < length loop1)%nat) todo ->
             is_Some (fold_left (fun total i =>
                                   totalDist ← total;
                                   a ← loop1 !! i;
                                   b ← at_ loop2 (wrap loop2 i (Z.of_nat offset));
                                   Some (totalDist +! vec3Distance a b)) todo acc)).
  { induction todo as [|i todo IH]; intros acc Hacc Hall; cbn [fold_left]; [exact Hacc|].
    inversion Hall as [|? ? Hi Hrest]; subst. apply IH; [|exact Hrest].
    destruct Hacc as [t ->]. cbn [mbind option_bind].
    destruct (lookup_lt_is_Some_2 loop1 i Hi) as [a ->]. cbn [mbind option_bind].
    destruct (at_wrap_Some loop2 i (Z.of_nat offset) ltac:(lia) ltac:(lia)) as [b ->].
    eexists. reflexivity. }
  apply Hgen; [eexists; reflexivity|].
  apply Forall_forall. intros i Hi. apply list_elem_of_In, in_seq in Hi. lia.
Qed.

Lemma findOptimalAlignment_Some (loop1 loop2 : list (Vec3 F)) :
  is_Some (findOptimalAlignment loop1 loop2).
Proof.
  unfold findOptimalAlignment.
  destruct (Nat.eqb_spec (length loop1) (length loop2)) as [Hlen|_];
    [|eexists; reflexivity]. cbn [negb].
  assert (Hgen : forall (offsets : list nat) (st : option (nat * F)),
             is_Some st ->
             is_Some (fold_left (fun st offset =>
                                   '(bestOffset, minDist) ← st;
                                   totalDist ← totalDistance loop1 loop2 offset;
                                   Some (if totalDist <! minDist then (offset, totalDist)
                                         else (bestOffset, minDist))) offsets st)).
  { induction offsets as [|o offsets IH]; intros st Hst; cbn [fold_left]; [exact Hst|].
    apply IH. destruct Hst as [[bo md] ->]. cbn [mbind option_bind].
    destruct (totalDistance_Some loop1 loop2 o Hlen) as [t ->]. eexists. reflexivity. }
  destruct (Hgen (seq 0 (length loop2)) (Some (0%nat, Infinity))) as [r ->];
    [eexists; reflexivity|]. eexists. reflexivity.
Qed.

Lemma quads_length (loops : list idx * list idx) :
  length (quads loops) = (6 * (length (fst loops) `max` length (snd loops)))%nat.
Proof.
  destruct loops as [cur next]. unfold quads. cbn [fst snd].
  rewrite (flat_map_length_const _ 6); [rewrite length_seq; reflexivity|].
  intros i. reflexivity.
Qed.

Lemma bridgeVertices_Some (geometry : EditableGeometry F) (options : BridgeOptions)
    (loop1Pos loop2Pos : list (Vec3 F)) (alignmentOffset : Z) (t : F) :
  (0 <= alignmentOffset)%Z ->
  (0 < length (loop1 options))%nat -> (0 < length (loop2 options))%nat ->
  length loop1Pos = length (loop1 options) ->
  length loop2Pos = length (loop2 options) ->
  forall (todo : list nat) (b : Buffers) (loop : list idx),
    exists b' loop',
      fold_left (fun acc i =>
                   st ← acc;
                   bridgeVertex geometry options loop1Pos loop2Pos
                                alignmentOffset t st i)
                todo (Some (b, loop)) = Some (b', loop')
      /\ length (newVertices b') = (length (newVertices b) + 3 * length todo)%nat
      /\ newVertices b `prefix_of` newVertices b'
      /\ length loop' = (length loop + length todo)%nat.
Proof.
  intros Hoff H1 H2 Hp1 Hp2.
  induction todo as [|i todo IH]; intros b loop; cbn [fold_left length].
  - exists b, loop. repeat split; [lia|reflexivity|lia].
  - cbn [mbind option_bind]. unfold bridgeVertex at 2.
    destruct (lookup_lt_is_Some_2 loop1Pos (i mod length (loop1 options))%nat)
      as [p1 ->]; [rewrite Hp1; apply Nat.mod_upper_bound; lia|].
    assert (Hw : wrap (loop2 options) i alignmentOffset = wrap loop2Pos i alignmentOffset)
      by (unfold wrap; rewrite Hp2; reflexivity).
    rewrite Hw.
    destruct (at_wrap_Some loop2Pos i alignmentOffset Hoff ltac:(lia)) as [p2 ->].
    cbn [mbind option_bind].
    match goal with
    | |- context [fold_left _ todo (Some (?b1, ?l1))] =>
        destruct (IH b1 l1) as (b' & loop' & E & Hlen & Hpre & Hloop)
    end.
    exists b', loop'. split; [exact E|].
    cbn [newVertices] in Hlen, Hpre. rewrite !length_app in Hlen, Hloop.
    cbn [length] in Hlen, Hloop.
    repeat split; [lia| |lia].
    etransitivity; [apply prefix_app_r; reflexivity|exact Hpre].
Qed.

Lemma bridgeLoops_Some (geometry : EditableGeometry F) (options : BridgeOptions)
    (loop1Pos loop2Pos : list (Vec3 F)) (alignmentOffset : Z) :
  (0 <= alignmentOffset)%Z ->
  (0 < length (loop1 options))%nat -> (0 < length (loop2 options))%nat ->
  length loop1Pos = length (loop1 options) ->
  length loop2Pos = length (loop2 options) ->
  let count := (length (loop1 options) `max` length (loop2 options))%nat in
  forall (ss : list Z) (b : Buffers) (allLoops : list (list idx)),
    exists b' inters,
      fold_left (bridgeLoop geometry options loop1Pos loop2Pos alignmentOffset)
                ss (Some (b, allLoops)) = Some (b', allLoops ++ inters)
      /\ length (newVertices b')
         = (length (newVertices b) + 3 * (count * length ss))%nat
      /\ newVertices b `prefix_of` newVertices b'
      /\ length inters = length ss
      /\ Forall (fun l => length l = count) inters.
Proof.
  intros Hoff H1 H2 Hp1 Hp2 count.
  induction ss as [|s ss IH]; intros b allLoops; cbn [fold_left length].
  - exists b, []. rewrite app_nil_r. repeat split; [lia|reflexivity|constructor].
  - unfold bridgeLoop at 2. cbn [mbind option_bind].
    destruct (bridgeVertices_Some geometry options loop1Pos loop2Pos alignmentOffset
                (blended (blend options) (of_Z s /! of_Z (segments options)))
                Hoff H1 H2 Hp1 Hp2 (seq 0 count) b [])
      as (b1 & loop1' & E1 & Hl1 & Hpre1 & Hloop1).
    fold count. rewrite E1. cbn [mbind option_bind].
    destruct (IH b1 (allLoops ++ [loop1'])) as (b' & inters & E & Hl & Hpre & Hn & Hall).
    exists b', (loop1' :: inters). rewrite length_seq in Hl1, Hloop1.
    split; [rewrite E, <- app_assoc; reflexivity|].
    cbn [length]. repeat split; [lia| |lia|].
    + etransitivity; [exact Hpre1|exact Hpre].
    + constructor; [cbn [length] in Hloop1; lia|exact Hall].
Qed.

Lemma quads_chain (count : nat) (inters : list (list idx)) :
  Forall (fun l => length l = count) inters ->
  forall first final : list idx,
    (length first <= count)%nat -> (length final <= count)%nat ->
    (inters = [] -> (length first `max` length final)%nat = count) ->
    length (flat_map quads (zip (first :: inters ++ [final])
                                (tail (first :: inters ++ [final]))))
    = (6 * (count * S (length inters)))%nat.
Proof.
  induction 1 as [|x xs Hx Hxs IH]; intros first final Hf Hl Hmax.
  - cbn [app tail zip zip_with flat_map length]. rewrite app_nil_r, quads_length.
    cbn [fst snd]. rewrite (Hmax eq_refl). nia.
  - specialize (IH x final ltac:(lia) Hl ltac:(intros _; lia)).
    cbn [tail] in IH.
    change ((x :: xs) ++ [final]) with (x :: (xs ++ [final])).
    remember (xs ++ [final]) as rest eqn:Erest.
    cbn [tail].
    change (zip (first :: x :: rest) (x :: rest))
      with ((first, x) :: zip (x :: rest) rest).
    cbn [flat_map]. rewrite length_app, quads_length.
    cbn [fst snd length]. rewrite IH, Nat.max_r by lia. rewrite Hx. nia.
Qed.

(** With a twist that is not negative and loops of three or more vertices
    [bridgeEdgeLoops] does not throw.  It keeps the vertices of the input at
    their places, adds one vertex per intermediate loop and column, and two
    triangles per column and pair of consecutive loops. *)
Theorem bridge_counts (mesh : EditableMesh F) (options : BridgeOptions) :
  (3 <= length (loop1 options))%nat -> (3 <= length (loop2 options))%nat ->
  (0 <= twist options)%Z ->
  let count := (length (loop1 options) `max` length (loop2 options))%nat in
  let inner := Z.to_nat (segments options - 1) in
  let g := geometry mesh in
  exists m',
    bridgeEdgeLoops mesh options = Some m'
    /\ Float32Array (vertices g) `prefix_of` vertices (geometry m')
    /\ length (vertices (geometry m'))
       = (length (vertices g) + 3 * (count * inner))%nat
    /\ length (indices (geometry m'))
       = (length (indices g) + 6 * (count * S inner))%nat.
Proof.
  intros H1 H2 Htwist count inner g. unfold bridgeEdgeLoops. fold g.
  destruct (Nat.ltb_spec (length (loop1 options)) 3) as [Hlt|_]; [lia|].
  destruct (Nat.ltb_spec (length (loop2 options)) 3) as [Hlt|_]; [lia|].
  cbn [orb].
  set (loop1Pos := map (fun i => getPos g (Some i)) (loop1 options)).
  set (loop2Pos := map (fun i => getPos g (Some i)) (loop2 options)).
  assert (Halign : exists alignmentOffset : Z,
             (if (length (loop1 options) =? length (loop2 options))%nat
                 && (twist options =? 0)%Z
              then Z.of_nat <$> findOptimalAlignment loop1Pos loop2Pos
              else Some (twist options)) = Some alignmentOffset
             /\ (0 <= alignmentOffset)%Z).
  { destruct (_ && _).
    - destruct (findOptimalAlignment_Some loop1Pos loop2Pos) as [n ->].
      exists (Z.of_nat n). split; [reflexivity|lia].
    - exists (twist options). split; [reflexivity|exact Htwist]. }
  destruct Halign as (alignmentOffset & -> & Hoff). cbn [mbind option_bind].
  destruct (bridgeLoops_Some g options loop1Pos loop2Pos alignmentOffset Hoff
              ltac:(lia) ltac:(lia)
              ltac:(subst loop1Pos; apply length_map)
              ltac:(subst loop2Pos; apply length_map)
              (map (fun k => Z.of_nat k + 1)%Z (seq 0 inner))
              (mkBuffers (vertices g) (normals g) (uvs g))
              [map Some (loop1 options)])
    as (b' & inters & E & Hl & Hpre & Hn & Hall).
  fold inner. rewrite E. cbn [mbind option_bind].
  eexists. split; [reflexivity|].
  cbn [geometry with_geometry assemble vertices indices newVertices] in *.
  rewrite length_map, length_seq in Hl, Hn. fold count in Hl, Hall.
  unfold Float32Array, Uint16Array. rewrite !length_map.
  split; [destruct Hpre as [x ->]; rewrite map_app; eexists; reflexivity|].
  split; [exact Hl|].
  rewrite length_app, length_map. f_equal.
  change (([map Some (loop1 options)] ++ inters) ++ ?x)
    with (map Some (loop1 options) :: inters ++ x).
  rewrite (quads_chain count inters Hall);
    [rewrite Hn; reflexivity|rewrite length_map; lia|rewrite length_imap; lia|].
  intros _. rewrite length_map, length_imap. reflexivity.
Qed.

Lemma bridgeLoops_None (geometry : EditableGeometry F) (options : BridgeOptions)
    (loop1Pos loop2Pos : list (Vec3 F)) (alignmentOffset : Z) (ss : list Z) :
  fold_left (bridgeLoop geometry options loop1Pos loop2Pos alignmentOffset) ss None
  = None.
Proof. induction ss as [|s ss IH]; [reflexivity|exact IH]. Qed.

Lemma bridgeVertices_None (geometry : EditableGeometry F) (options : BridgeOptions)
    (loop1Pos loop2Pos : list (Vec3 F)) (alignmentOffset : Z) (t : F)
    (todo : list nat) :
  fold_left (fun acc i =>
               st ← acc;
               bridgeVertex geometry options loop1Pos loop2Pos alignmentOffset t st i)
            todo None = None.
Proof. induction todo as [|i todo IH]; [reflexivity|exact IH]. Qed.

(** A negative twist that is no multiple of the length of the second loop
    makes [bridgeEdgeLoops] throw as soon as there is an intermediate loop:
    the remainder is negative, the position read at it is [undefined], and
    the interpolation reads its [x]. *)
Theorem bridge_negative_twist (mesh : EditableMesh F) (options : BridgeOptions) :
  (3 <= length (loop1 options))%nat -> (3 <= length (loop2 options))%nat ->
  (1 < segments options)%Z -> (twist options < 0)%Z ->
  Z.rem (twist options) (Z.of_nat (length (loop2 options))) <> 0%Z ->
  bridgeEdgeLoops mesh options = None.
Proof.
  intros H1 H2 Hseg Htwist Hrem. unfold bridgeEdgeLoops.
  destruct (Nat.ltb_spec (length (loop1 options)) 3) as [Hlt|_]; [lia|].
  destruct (Nat.ltb_spec (length (loop2 options)) 3) as [Hlt|_]; [lia|].
  cbn [orb].
  destruct (Z.eqb_spec (twist options) 0) as [E0|_]; [lia|].
  rewrite andb_false_r. cbn [mbind option_bind].
  destruct (Z.to_nat (segments options - 1)) as [|inner] eqn:Einner; [lia|].
  cbn [seq map fold_left].
  set (loop1Pos := map _ (loop1 options)). set (loop2Pos := map _ (loop2 options)).
  replace (bridgeLoop (geometry mesh) options loop1Pos loop2Pos (twist options)
             (Some _) _) with (@None (@Buffers F * list (list idx)));
    [rewrite bridgeLoops_None; reflexivity|].
  unfold bridgeLoop. cbn [mbind option_bind].
  destruct (length (loop1 options) `max` length (loop2 options))%nat as [|count] eqn:Ec;
    [lia|].
  cbn [seq fold_left mbind option_bind].
  replace (bridgeVertex _ _ _ _ _ _ _ 0%nat) with (@None (@Buffers F * list idx));
    [rewrite bridgeVertices_None; reflexivity|].
  unfold bridgeVertex.
  assert (Hneg : (wrap (loop2 options) 0 (twist options) < 0)%Z).
  { unfold wrap.
    replace (Z.of_nat 0 + twist options)%Z with (twist options) by lia.
    pose proof (Z.rem_bound_pos_neg (twist options) (Z.of_nat (length (loop2 options)))
                  ltac:(lia) ltac:(lia)) as Hb.
    revert Hb Hrem. generalize (Z.rem (twist options) (Z.of_nat (length (loop2 options)))).
    intros r Hb Hr. lia. }
  rewrite (at_negative loop2Pos _ Hneg).
  destruct (loop1Pos !! _); reflexivity.
Qed.
End BridgeFacts.

(** ** Mirror and bevel *)

Section MirrorFacts.
Context {F : Type} `{Number F}.
Import Mirror.

Lemma mirrorVertices_fold (g : EditableGeometry F) (options : MirrorOptions)
    (todo : list nat) (st : Buffers) :
  let st' := fold_left (mirrorVertex g options) todo st in
  newVertices st `prefix_of` newVertices st'
  /\ length (newVertices st')
     = (length (newVertices st)
        + 3 * length (filter (fun i => onMirrorPlane g options i = false) todo))%nat
  /\ newVertexIndex st'
     = (newVertexIndex st
        + length (filter (fun i => onMirrorPlane g options i = false) todo))%nat
  /\ length (vertexMapping st') = (length (vertexMapping st) + length todo)%nat.
Proof.
  revert st. induction todo as [|i todo IH]; intros st; cbn [fold_left length].
  - rewrite filter_nil. cbn [length]. repeat split; [reflexivity|lia..].
  - destruct (IH (mirrorVertex g options st i)) as (Hp & Hl & Hn & Hm).
    set (st1 := mirrorVertex g options st i) in *.
    set (k := if onMirrorPlane g options i then 0%nat else 1%nat).
    assert (H1 : newVertices st `prefix_of` newVertices st1
                 /\ length (newVertices st1) = (length (newVertices st) + 3 * k)%nat
                 /\ newVertexIndex st1 = (newVertexIndex st + k)%nat
                 /\ length (vertexMapping st1) = S (length (vertexMapping st))).
    { subst st1 k. unfold mirrorVertex.
      destruct (onMirrorPlane g options i);
        cbn [newVertices newVertexIndex vertexMapping]; rewrite ?length_app;
        cbn [length]; (repeat split; [|lia..]);
        [reflexivity|apply prefix_app_r; reflexivity]. }
    destruct H1 as (Hp1 & Hl1 & Hn1 & Hm1).
    assert (Hk : length (filter (fun i => onMirrorPlane g options i = false) (i :: todo))
                 = (k + length (filter (fun i => onMirrorPlane g options i = false)
                                       todo))%nat).
    { rewrite filter_cons. subst k. destruct (onMirrorPlane g options i).
      - rewrite decide_False by discriminate. reflexivity.
      - rewrite decide_True by reflexivity. reflexivity. }
    rewrite Hk. repeat split; [etransitivity; [exact Hp1|exact Hp]|lia..].
Qed.

Lemma mirrorTriangles_length (m : list nat) (tris : list (idx * idx * idx)) :
  length (flat_map (mirrorTriangle m) tris) = (3 * length tris)%nat.
Proof.
  apply flat_map_length_const. intros [[i0 i1] i2]. reflexivity.
Qed.

(** [mirror] keeps the vertices of the input at their places, adds one
    vertex for every vertex that is not merged on the mirror plane, and adds
    one triangle for every triangle. *)
Theorem mirror_counts (mesh : EditableMesh F) (options : MirrorOptions) :
  let g := geometry mesh in
  let g' := geometry (mirror mesh options) in
  Float32Array (vertices g) `prefix_of` vertices g'
  /\ length (vertices g')
     = (length (vertices g) + 3 * length (mirroredVertices g options))%nat
  /\ length (indices g') = (length (indices g) + 3 * triangleCount mesh)%nat
  /\ (merge options = false ->
      length (mirroredVertices g options) = vertexCount g).
Proof.
  intros g g'. subst g'. unfold mirror. fold g.
  destruct (mirrorVertices_fold g options (seq 0 (vertexCount g))
              (mkBuffers (vertices g) (normals g) (uvs g) [] (vertexCount g)))
    as (Hp & Hl & _ & _).
  set (st := fold_left _ _ _) in *. cbn [newVertices] in Hp, Hl.
  cbn [geometry with_geometry assemble vertices indices].
  unfold Float32Array, Uint16Array. rewrite !length_map, length_app, length_map.
  rewrite mirrorTriangles_length.
  split; [destruct Hp as [x ->]; rewrite map_app; eexists; reflexivity|].
  split; [exact Hl|]. split; [reflexivity|].
  intros Hmerge. unfold mirroredVertices.
  assert (Hall : forall l : list nat,
             filter (fun i => onMirrorPlane g options i = false) l = l).
  { induction l as [|i l IHl]; [reflexivity|]. rewrite filter_cons, IHl.
    rewrite decide_True; [reflexivity|].
    unfold onMirrorPlane. rewrite Hmerge. reflexivity. }
  rewrite Hall, length_seq. reflexivity.
Qed.

Lemma triangles_corner {A : Type} (l : list A) (tri : option A * option A * option A)
    (k : A) :
  tri ∈ triangles l ->
  fst (fst tri) = Some k \/ snd (fst tri) = Some k \/ snd tri = Some k ->
  k ∈ l.
Proof.
  induction l as [|a|a b|a b c r IH] using triangles_ind; cbn [triangles];
    intros Hin Hor.
  - inversion Hin.
  - apply list_elem_of_singleton in Hin as ->. cbn in Hor.
    destruct Hor as [E|[E|E]]; try discriminate E. injection E as ->. left.
  - apply list_elem_of_singleton in Hin as ->. cbn in Hor.
    destruct Hor as [E|[E|E]]; try discriminate E; injection E as ->;
      [left|right; left].
  - apply elem_of_cons in Hin as [->|Hin].
    + cbn in Hor. destruct Hor as [E|[E|E]]; injection E as ->;
        [left|right; left|right; right; left].
    + do 3 right. apply IH; assumption.
Qed.

Lemma mirrorVertices_mapping (g : EditableGeometry F) (options : MirrorOptions) :
  merge options = false ->
  forall (n s : nat) (st : Buffers),
    newVertexIndex st = (vertexCount g + s)%nat ->
    vertexMapping (fold_left (mirrorVertex g options) (seq s n) st)
    = vertexMapping st ++ map (fun i => (vertexCount g + i)%nat) (seq s n).
Proof.
  intros Hmerge. induction n as [|n IH]; intros s st Hidx; cbn [seq fold_left map].
  - rewrite app_nil_r. reflexivity.
  - rewrite IH.
    + unfold mirrorVertex, onMirrorPlane. rewrite Hmerge. cbn [andb vertexMapping].
      rewrite <- app_assoc, Hidx. reflexivity.
    + unfold mirrorVertex, onMirrorPlane. rewrite Hmerge. cbn [andb newVertexIndex].
      lia.
Qed.

(** Without merging, the mirrored copy of a triangle [(i0, i1, i2)] whose
    indices name vertices is [(i0 + n, i2 + n, i1 + n)], where [n] is the
    vertex count: the same corners in the copy, wound the other way. *)
Theorem mirror_flips_winding (mesh : EditableMesh F) (options : MirrorOptions) :
  merge options = false ->
  Forall (fun i => (i < vertexCount (geometry mesh))%nat) (indices (geometry mesh)) ->
  let g := geometry mesh in
  let n := vertexCount g in
  indices (geometry (mirror mesh options))
  = Uint16Array
      (map Some (indices g)
         ++ flat_map (fun tri : idx * idx * idx =>
                        let up (i : idx) := (fun k => (n + k)%nat) <$> i in
                        [up (fst (fst tri)); up (snd tri); up (snd (fst tri))])
                     (triangles (indices g))).
Proof.
  intros Hmerge Hrange g n. unfold mirror. fold g. fold n.
  cbn [geometry with_geometry assemble indices]. do 2 f_equal.
  rewrite (mirrorVertices_mapping g options Hmerge n 0) by (cbn [newVertexIndex]; lia).
  cbn [vertexMapping app].
  assert (Hmapped : forall i : idx,
             (forall k, i = Some k -> (k < n)%nat) ->
             mapped (map (fun i => (n + i)%nat) (seq 0 n)) i
             = (fun k => (n + k)%nat) <$> i).
  { intros [k|] Hk; [|reflexivity]. cbn [mapped fmap option_fmap option_map].
    rewrite list_lookup_fmap, lookup_seq_lt by (apply Hk; reflexivity).
    reflexivity. }
  apply flat_map_ext_elem. intros [[i0 i1] i2] Hin. cbn [mirrorTriangle fst snd].
  assert (Hcorner : forall (i : idx) k, i = Some k ->
             (i = i0 \/ i = i1 \/ i = i2) -> (k < n)%nat).
  { intros i k -> Hor. rewrite Forall_forall in Hrange. apply Hrange.
    apply (triangles_corner _ _ k Hin). cbn [fst snd].
    destruct Hor as [<-|[<-|<-]]; auto. }
  rewrite !Hmapped; [reflexivity|..]; intros k Ek; eapply Hcorner; eauto.
Qed.
End MirrorFacts.

Section BevelFacts.
Context {F : Type} `{Number F}.
Import Bevel.

Lemma offsetVertex_prefix (g : EditableGeometry F) (origIdx : nat)
    (offsets : list (Vec3 F)) (acc : list F * list F * list F * list nat) :
  fst (fst (fst acc))
    `prefix_of` fst (fst (fst (fold_left (offsetVertex g origIdx) offsets acc))).
Proof.
  revert acc. induction offsets as [|o offsets IH]; intros acc; cbn [fold_left];
    [reflexivity|].
  etransitivity; [|apply IH]. destruct acc as [[[vs ns] us] nv].
  apply prefix_app_r. reflexivity.
Qed.

Lemma offsetVertices_prefix (g : EditableGeometry F)
    (entries : list (nat * list (Vec3 F))) (b : Buffers) :
  newVertices b `prefix_of` newVertices (fold_left (offsetVertices g) entries b).
Proof.
  revert b. induction entries as [|[origIdx offsets] entries IH]; intros b;
    cbn [fold_left]; [reflexivity|].
  etransitivity; [|apply IH]. unfold offsetVertices.
  pose proof (offsetVertex_prefix g origIdx offsets
                (newVertices b, newNormals b, newUvs b, [])) as Hp.
  destruct (fold_left (offsetVertex g origIdx) offsets _) as [[[vs ns] us] nv].
  exact Hp.
Qed.

Lemma bevelFaces_length (m : list (nat * list nat)) (selectedEdges : list (nat * nat)) :
  (length (flat_map (bevelFace m) selectedEdges) <= 6 * length selectedEdges)%nat.
Proof.
  induction selectedEdges as [|[a b] es IH]; [cbn; lia|].
  cbn [flat_map length]. rewrite length_app.
  assert (length (bevelFace m (a, b)) <= 6)%nat; [|lia].
  unfold bevelFace.
  destruct (newVertexMap_get m (Some a)) as [[|a0 ra]|];
    destruct (newVertexMap_get m (Some b)) as [[|b0 rb]|]; cbn [length]; lia.
Qed.

(** A bevel only adds: the vertices of the input keep their places, every
    triangle of the input stays one triangle (on moved corners), and at most
    two triangles are added per selected edge. *)
Theorem bevel_only_adds (mesh : EditableMesh F) (selectedEdges : list (nat * nat))
    (options : BevelOptions) :
  selectedEdges <> [] ->
  let g := geometry mesh in
  let g' := geometry (bevel mesh selectedEdges options) in
  Float32Array (vertices g) `prefix_of` vertices g'
  /\ (3 * triangleCount mesh <= length (indices g'))%nat
  /\ (length (indices g') <= 3 * triangleCount mesh + 6 * length selectedEdges)%nat.
Proof.
  intros Hsel g g'. subst g'. unfold bevel.
  destruct selectedEdges as [|e rest] eqn:Esel; [contradiction|]. rewrite <- Esel.
  fold g.
  set (b := fold_left (offsetVertices g) _ _).
  pose proof (offsetVertices_prefix g
                (fold_left (offsetsOfEdge g (amount options)) selectedEdges [])
                (mkBuffers (vertices g) (normals g) (uvs g) [])) as Hp.
  fold b in Hp. cbn [newVertices] in Hp.
  cbn [geometry with_geometry assemble vertices indices].
  unfold Float32Array, Uint16Array. rewrite !length_map, length_app.
  rewrite (flat_map_length_const (bevelTriangle (newVertexMap b)) 3)
    by (intros [[t0 t1] t2]; reflexivity).
  pose proof (bevelFaces_length (newVertexMap b) selectedEdges).
  unfold triangleCount. fold g.
  split; [destruct Hp as [x ->]; rewrite map_app; eexists; reflexivity|lia].
Qed.
End BevelFacts.

(** ** The properties above, run on concrete meshes *)

Lemma findClosestVertex_in_range_witness :
  (Raycast.findClosestVertex Examples.triangleMesh Examples.up
   < vertexCount (geometry Examples.triangleMesh))%nat.
Proof.
  apply (findClosestVertex_in_range Examples.triangleMesh Examples.up).
  simpl. lia.
Defined.

Lemma raycast_skips_invisible_witness :
  Raycast.raycast Examples.rayDown ([Examples.triangleMesh] ++ Examples.hiddenMesh :: [])
  = Raycast.raycast Examples.rayDown ([Examples.triangleMesh] ++ [])
  /\ Raycast.raycastMesh Examples.rayDown Examples.hiddenMesh = None.
Proof.
  exact (raycast_skips_invisible Examples.rayDown [Examples.triangleMesh] []
           Examples.hiddenMesh eq_refl).
Defined.

Lemma decimate_never_adds_triangles_witness :
  exists m',
    Decimate.decimate 8 Examples.fiveMesh Examples.ratioZero = Ok m'
    /\ (triangleCount m' <= triangleCount Examples.fiveMesh)%nat.
Proof.
  destruct (Decimate.decimate 8 Examples.fiveMesh Examples.ratioZero) as [m'| |] eqn:E;
    [|vm_compute in E; discriminate|vm_compute in E; discriminate].
  exists m'. split; [reflexivity|].
  exact (decimate_never_adds_triangles 8 Examples.fiveMesh m' Examples.ratioZero E).
Defined.

Lemma decimate_index_out_of_range_witness :
  Decimate.decimate 8 Examples.strayMesh Examples.ratioZero = TypeError.
Proof.
  apply (decimate_index_out_of_range 8 Examples.strayMesh Examples.ratioZero 5).
  - vm_compute. reflexivity.
  - simpl. repeat constructor.
  - simpl. lia.
Defined.

Lemma decimate_result_compact_witness :
  exists m',
    Decimate.decimate 8 Examples.fiveMesh Examples.ratioZero = Ok m'
    /\ length (vertices (geometry m')) = (3 * vertexCount (geometry m'))%nat
    /\ Forall (fun i => (i < vertexCount (geometry m'))%nat) (indices (geometry m')).
Proof.
  destruct (Decimate.decimate 8 Examples.fiveMesh Examples.ratioZero) as [m'| |] eqn:E;
    [|vm_compute in E; discriminate|vm_compute in E; discriminate].
  exists m'. split; [reflexivity|].
  apply (decimate_result_compact 8 Examples.fiveMesh m' Examples.ratioZero);
    [vm_compute; reflexivity|exact E].
Defined.

Lemma stroke_keeps_topology_witness :
  exists e' m',
    Sculpt.endStroke (stroke Examples.boundEngine Examples.origin Examples.grabMoves)
    = Some e'
    /\ Sculpt.mesh e' = Some m' /\ id m' = id Examples.triangleMesh
    /\ sameTopology (geometry Examples.triangleMesh) (geometry m').
Proof.
  exact (stroke_keeps_topology Examples.boundEngine Examples.triangleMesh
           Examples.origin Examples.grabMoves eq_refl).
Defined.

Lemma undoStroke_after_endStroke_witness :
  exists e1 e2 m2,
    Sculpt.endStroke (stroke Examples.boundEngine Examples.origin Examples.grabMoves)
    = Some e1
    /\ Sculpt.undoStroke e1 = Some e2
    /\ Sculpt.mesh e2 = Some m2
    /\ vertices (geometry m2) = vertices (geometry Examples.triangleMesh).
Proof.
  exact (undoStroke_after_endStroke Examples.boundEngine Examples.triangleMesh
           Examples.origin Examples.grabMoves eq_refl).
Defined.

Lemma endStroke_closes_stroke_witness :
  exists e',
    Sculpt.endStroke (Sculpt.beginStroke Examples.boundEngine Examples.origin) = Some e'
    /\ (forall hitPoint delta, Sculpt.updateStroke e' hitPoint delta = e')
    /\ Sculpt.endStroke e' = Some e'.
Proof.
  destruct (Sculpt.endStroke (Sculpt.beginStroke Examples.boundEngine Examples.origin))
    as [e'|] eqn:E; [|vm_compute in E; discriminate].
  exists e'. split; [reflexivity|].
  exact (endStroke_closes_stroke _ e' E).
Defined.

Lemma boolean_result_unindexed_witness :
  exists m',
    Boolean.boolean 13 "geo-result" Examples.cube
      (Boolean.mkOptions Boolean.union Examples.twoSided Boolean.fast) = Some m'
    /\ length (vertices (geometry m')) = (3 * vertexCount (geometry m'))%nat
    /\ length (indices (geometry m')) = vertexCount (geometry m')
    /\ ((Z.of_nat (vertexCount (geometry m')) <= 65536)%Z ->
        indices (geometry m') = seq 0 (vertexCount (geometry m')))
    /\ geo_id (geometry m') = "geo-result"
    /\ transform m' = Boolean.identityTransform
    /\ id m' = id Examples.cube /\ name m' = name Examples.cube
    /\ material m' = material Examples.cube.
Proof.
  destruct (Boolean.boolean 13 "geo-result" Examples.cube
              (Boolean.mkOptions Boolean.union Examples.twoSided Boolean.fast))
    as [m'|] eqn:E; [|vm_compute in E; discriminate].
  exists m'. split; [reflexivity|].
  exact (boolean_result_unindexed 13 "geo-result" Examples.cube m' _ E).
Defined.

Lemma union_empty_target_convex_witness :
  exists result,
    Boolean.resultPolygons 13 Boolean.union (Boolean.meshToPolygons Examples.cube) []
    = Some result
    /\ result ≡ₚ Boolean.meshToPolygons Examples.cube.
Proof.
  apply (union_empty_target_convex 13 (Boolean.meshToPolygons Examples.cube)).
  - vm_compute. reflexivity.
  - vm_compute. lia.
Defined.

Lemma extrude_missing_face_witness :
  Extrude.extrude Examples.triangleMesh [0; 5]%nat
                  (Extrude.mkOptions (Examples.num 1) None) = None.
Proof.
  apply (extrude_missing_face Examples.triangleMesh [0; 5]%nat _ 5).
  - right. left.
  - simpl. lia.
Defined.

Lemma extrude_extends_input_witness :
  exists m',
    Extrude.extrude Examples.triangleMesh [0%nat]
                    (Extrude.mkOptions (Examples.num 1) None) = Some m'
    /\ Float32Array (vertices (geometry Examples.triangleMesh))
         `prefix_of` vertices (geometry m')
    /\ Float32Array (normals (geometry Examples.triangleMesh))
         `prefix_of` normals (geometry m')
    /\ Float32Array (uvs (geometry Examples.triangleMesh)) `prefix_of` uvs (geometry m')
    /\ edges (geometry Examples.triangleMesh) `prefix_of` edges (geometry m')
    /\ Nat.Even (length (edges (geometry m'))
                 - length (edges (geometry Examples.triangleMesh)))
    /\ geo_id (geometry m') = geo_id (geometry Examples.triangleMesh).
Proof.
  destruct (Extrude.extrude Examples.triangleMesh [0%nat]
              (Extrude.mkOptions (Examples.num 1) None)) as [m'|] eqn:E;
    [|vm_compute in E; discriminate].
  exists m'. split; [reflexivity|].
  apply (extrude_extends_input Examples.triangleMesh m' [0%nat]
           (Extrude.mkOptions (Examples.num 1) None));
    [discriminate|exact E].
Defined.

Lemma loopCut_vertices_witness :
  let g' := geometry (LoopCut.loopCut Examples.triangleMesh [(0, 1)%nat]
                                      (LoopCut.mkOptions (Some 2) None)) in
  Float32Array (vertices (geometry Examples.triangleMesh)) `prefix_of` vertices g'
  /\ length (vertices g')
     = (length (vertices (geometry Examples.triangleMesh)) + 3 * (2 * 1))%nat.
Proof.
  apply (loopCut_vertices Examples.triangleMesh [(0, 1)%nat]
           (LoopCut.mkOptions (Some 2) None)).
  discriminate.
Defined.

Lemma array_copies_witness :
  let g := geometry Examples.triangleMesh in
  let g' := geometry (Array.array Examples.triangleMesh Examples.twoCopies) in
  vertexCount g' = (2 * vertexCount g)%nat
  /\ length (vertices g') = (3 * (2 * vertexCount g))%nat
  /\ indices g' = Uint16Array (flat_map (copyIndices g) (seq 0 2))
  /\ length (indices g') = (2 * length (indices g))%nat.
Proof.
  apply (array_copies Examples.triangleMesh Examples.twoCopies);
    [simpl; lia|reflexivity].
Defined.

Lemma mergeCloseVertices_in_range_witness :
  let vs := map Examples.num [0; 0; 0;  1; 0; 0;  0; 0; 0] in
  let m := Array.mergeCloseVertices vs vs [] [0; 1; 2]%nat (lit 1 1000) in
  (Array.merged_vertexCount m <= length vs / 3)%nat
  /\ length (Array.merged_vertices m) = (3 * Array.merged_vertexCount m)%nat
  /\ length (Array.merged_indices m) = length [0; 1; 2]%nat
  /\ Forall (fun i => (i < Array.merged_vertexCount m)%nat) (Array.merged_indices m).
Proof.
  apply (mergeCloseVertices_in_range
           (map Examples.num [0; 0; 0;  1; 0; 0;  0; 0; 0])
           (map Examples.num [0; 0; 0;  1; 0; 0;  0; 0; 0]) [] [0; 1; 2]%nat
           (lit 1 1000)).
  repeat constructor.
Defined.

Lemma knifeCut_only_adds_witness :
  let g := geometry Examples.triangleMesh in
  let g' := geometry (Knife.knifeCut Examples.triangleMesh Examples.verticalCut) in
  Float32Array (vertices g) `prefix_of` vertices g'
  /\ (length (vertices g') <= length (vertices g) + 6 * triangleCount Examples.triangleMesh)%nat
  /\ (3 * triangleCount Examples.triangleMesh <= length (indices g'))%nat
  /\ (length (indices g') <= 9 * triangleCount Examples.triangleMesh)%nat.
Proof.
  apply (knifeCut_only_adds Examples.triangleMesh Examples.verticalCut).
  simpl. lia.
Defined.

Lemma knifeProject_only_adds_witness :
  Knife.knifeProject Examples.triangleMesh (Examples.meshOf Examples.emptyGeometry)
                     Examples.up = Examples.triangleMesh
  /\ (3 * triangleCount Examples.triangleMesh
      <= length (indices (geometry (Knife.knifeProject Examples.triangleMesh
                                      Examples.triangleMesh Examples.up))))%nat.
Proof.
  split.
  - apply (proj1 (knifeProject_only_adds Examples.triangleMesh
                    (Examples.meshOf Examples.emptyGeometry) Examples.up)).
    reflexivity.
  - apply (proj2 (knifeProject_only_adds Examples.triangleMesh Examples.triangleMesh
                    Examples.up)).
    discriminate.
Defined.

Lemma bridge_counts_witness :
  exists m',
    Bridge.bridgeEdgeLoops Examples.cube (Examples.frontToBack 1) = Some m'
    /\ Float32Array (vertices (geometry Examples.cube)) `prefix_of` vertices (geometry m')
    /\ length (vertices (geometry m'))
       = (length (vertices (geometry Examples.cube)) + 3 * (3 * 1))%nat
    /\ length (indices (geometry m'))
       = (length (indices (geometry Examples.cube)) + 6 * (3 * 2))%nat.
Proof.
  apply (bridge_counts Examples.cube (Examples.frontToBack 1));
    unfold Examples.frontToBack; simpl; lia.
Defined.

Lemma bridge_negative_twist_witness :
  Bridge.bridgeEdgeLoops Examples.cube (Examples.frontToBack (-1)) = None.
Proof.
  apply (bridge_negative_twist Examples.cube (Examples.frontToBack (-1)));
    unfold Examples.frontToBack; simpl; try lia.
  vm_compute. discriminate.
Defined.

Lemma mirror_flips_winding_witness :
  indices (geometry (Mirror.mirror Examples.triangleMesh Examples.mirrorX))
  = Uint16Array
      (map Some [0; 1; 2]%nat
         ++ flat_map (fun tri : idx * idx * idx =>
                        let up (i : idx) := (fun k => (3 + k)%nat) <$> i in
                        [up (fst (fst tri)); up (snd tri); up (snd (fst tri))])
                     (triangles [0; 1; 2]%nat)).
Proof.
  apply (mirror_flips_winding Examples.triangleMesh Examples.mirrorX);
    [reflexivity|simpl; repeat constructor].
Defined.

Lemma bevel_only_adds_witness :
  let g := geometry Examples.triangleMesh in
  let g' := geometry (Bevel.bevel Examples.triangleMesh [(0, 1)%nat]
                                  (Bevel.mkOptions (lit 1 10) None)) in
  Float32Array (vertices g) `prefix_of` vertices g'
  /\ (3 * triangleCount Examples.triangleMesh <= length (indices g'))%nat
  /\ (length (indices g') <= 3 * triangleCount Examples.triangleMesh + 6 * 1)%nat.
Proof.
  apply (bevel_only_adds Examples.triangleMesh [(0, 1)%nat]
           (Bevel.mkOptions (lit 1 10) None)).
  discriminate.
Defined.

Lemma loopCut_one_edge_fans_witness :
  indices (geometry (LoopCut.loopCut Examples.triangleMesh [(0, 1)%nat]
                       (LoopCut.mkOptions (Some 2%Z) None)))
  = [2; 0; 3;  2; 3; 4;  2; 4; 1]%nat
  /\ triangleCount (LoopCut.loopCut Examples.triangleMesh [(0, 1)%nat]
                      (LoopCut.mkOptions (Some 2%Z) None)) = 3%nat.
Proof.
  apply (loopCut_one_edge_fans Examples.triangleMesh 0 1 2 3 None).
  - lia.
  - lia.
  - reflexivity.
  - repeat constructor. exists 0%nat, 1%nat, 2%nat. repeat split; lia.
Defined.

Lemma subdivideOnce_vertices_witness :
  length (vertices (geometry Examples.triangleMesh)) = 9%nat
  /\ vertexCount (geometry (Subdivide.subdivideOnce Examples.triangleMesh false)) = 6%nat.
Proof.
  split; [reflexivity|].
  exact (proj2 (proj2 (subdivideOnce_vertices Examples.triangleMesh)) 3%nat eq_refl).
Defined.
